(** * DirectoryWatcher: a shallow embedding of DirectoryWatcher.cpp / DirectoryWatcher.h

    The development follows the source file top-down in reverse dependency
    order: machine integers and the fault monad, the [FileChange] record, the
    [ThreadSafeQueue] ring buffer, the notification decoder
    ([ProcessNotification]), and finally the watcher facade together with the
    procedures that run on the worker thread. *)

From Stdlib Require Import ZArith Lia Bool.
From Stdlib Require Strings.String Strings.Ascii Strings.Byte.
From stdpp Require Import base tactics option list strings gmap.

Local Open Scope Z_scope.

(** ** Machine integers

    [s32] and [u32] values are carried as [Z].  Unsigned arithmetic wraps;
    signed overflow is undefined behaviour in C++ and is modelled as a fault
    (see [s32] below). *)

Definition INT32_MAX : Z := 2147483647.
Definition INT32_MIN : Z := -2147483648.
Definition u32_wrap (z : Z) : Z := z mod 4294967296.
Definition s32_wrap (z : Z) : Z := (z + 2147483648) mod 4294967296 - 2147483648.
Definition in_s32 (z : Z) : bool := (INT32_MIN <=? z) && (z <=? INT32_MAX).

(** ** Faults and the state-and-fault monad

    Every way in which the C++ program can leave its defined behaviour is a
    [Fault]; a computation over a mutable object of type [S] either returns a
    value and the updated object or stops with a fault. *)

Inductive Fault : Type :=
| AssertFailed      (* assert(...) evaluated to false *)
| NullPointer       (* dereference of a null pointer *)
| OutOfBounds       (* access outside an allocation or array *)
| Indeterminate     (* read of a cell malloc never initialised *)
| SignedOverflow    (* s32 arithmetic left the s32 range *)
| DivideByZero      (* x % 0 *)
| DanglingPointer   (* access to a block that was freed *)
| Livelock          (* a spin loop that can never be released *)
| OutOfFuel.        (* loop bound of the model exhausted *)

Inductive Res (S A : Type) : Type :=
| Ok (a : A) (s : S)
| Err (f : Fault).
Arguments Ok {S A} a s.
Arguments Err {S A} f.

Definition M (S A : Type) : Type := S -> Res S A.

Definition ret {S A} (a : A) : M S A := fun s => Ok a s.
Definition bind {S A B} (c : M S A) (k : A -> M S B) : M S B :=
  fun s => match c s with
           | Ok a s' => k a s'
           | Err f => Err f
           end.
Definition throw {S A} (f : Fault) : M S A := fun _ => Err f.
Definition get {S} : M S S := fun s => Ok s s.
Definition put {S} (s : S) : M S unit := fun _ => Ok tt s.
Definition modify {S} (f : S -> S) : M S unit := fun s => Ok tt (f s).
Definition assert {S} (b : bool) : M S unit :=
  if b then ret tt else throw AssertFailed.
Definition from_option {S A} (f : Fault) (o : option A) : M S A :=
  match o with Some a => ret a | None => throw f end.

Declare Scope m_scope.
Delimit Scope m_scope with M.
Notation "x <- c ;; k" := (bind c (fun x => k))
  (at level 63, c at next level, right associativity) : m_scope.
Notation "c ;;; k" := (bind c (fun _ => k))
  (at level 63, right associativity) : m_scope.
Local Open Scope m_scope.

(** Run a computation on a component of a larger state. *)
Definition zoom {S T A} (proj : S -> T) (inj : T -> S -> S) (c : M T A) : M S A :=
  fun s => match c (proj s) with
           | Ok a t => Ok a (inj t s)
           | Err f => Err f
           end.

(** A signed 32-bit result: the mathematical value when it is representable,
    a fault otherwise. *)
Definition s32 {S} (z : Z) : M S Z :=
  if in_s32 z then ret z else throw SignedOverflow.

(** [a % b] on s32 operands (C++ truncating remainder). *)
Definition s32_rem {S} (a b : Z) : M S Z :=
  if b =? 0 then throw DivideByZero else s32 (Z.rem a b).

(** ** DirectoryWatcher.h: EFileAction and FileChange *)

Inductive EFileAction : Type :=
| ActNone | Added | Removed | Modified | RenamedFrom | RenamedTo | TooManyChanges.

Global Instance EFileAction_eq_dec : EqDecision EFileAction.
Proof. solve_decision. Defined.

Definition MAX_PATH : Z := 260.

Module FileChange.
Record t : Type := mk {
  path : list Z;            (* char path[MAX_PATH * 3], one Z per byte *)
  path_length : Z;          (* s32 *)
  action : EFileAction;
  creation_time : Z;        (* u64 *)
  modification_time : Z;    (* u64 *)
  change_time : Z;          (* u64 *)
  access_time : Z;          (* u64 *)
  size : Z;                 (* u64 *)
  attributes : Z;           (* u32 *)
  is_directory : bool
}.

(** [FileChange change = {};] *)
Definition zero : t :=
  mk (replicate (Z.to_nat (MAX_PATH * 3)) 0) 0 ActNone 0 0 0 0 0 0 false.

(** The bytes of the reported path: the first [path_length] bytes. *)
Definition path_bytes (c : t) : list Z := take (Z.to_nat (path_length c)) (path c).
End FileChange.

Abbreviation FileChange := FileChange.t.

(** ** ThreadSafeQueue

    [data] is [None] for a null pointer; otherwise it is the malloc'ed array,
    whose length is the size of the allocation.  A cell is [None] while it
    still holds whatever malloc returned. *)

Module ThreadSafeQueue.
Record t : Type := mk {
  lock : Z;
  data : option (list (option FileChange));
  capacity : Z;
  count : Z;
  front_index : Z
}.

Definition InitialCapacity : Z := 16.
Definition GrowRate : Z := 2.

Definition set_lock (v : Z) (q : t) : t :=
  mk v (data q) (capacity q) (count q) (front_index q).
Definition set_data (v : option (list (option FileChange))) (q : t) : t :=
  mk (lock q) v (capacity q) (count q) (front_index q).
Definition set_capacity (v : Z) (q : t) : t :=
  mk (lock q) (data q) v (count q) (front_index q).
Definition set_count (v : Z) (q : t) : t :=
  mk (lock q) (data q) (capacity q) v (front_index q).
Definition set_front_index (v : Z) (q : t) : t :=
  mk (lock q) (data q) (capacity q) (count q) v.

(** [malloc(sizeof(FileChange) * n)]: [n] cells of indeterminate content. *)
Definition malloc (n : Z) : list (option FileChange) := replicate (Z.to_nat n) None.

(** [CopyMemory(dst + doff, src + soff, n * sizeof(FileChange))]. *)
Definition CopyMemory (dst : list (option FileChange)) (doff : Z)
           (src : list (option FileChange)) (soff n : Z)
  : option (list (option FileChange)) :=
  if (0 <=? n) && (0 <=? doff) && (0 <=? soff)
     && (soff + n <=? Z.of_nat (length src))
     && (doff + n <=? Z.of_nat (length dst))
  then Some (take (Z.to_nat doff) dst
             ++ take (Z.to_nat n) (drop (Z.to_nat soff) src)
             ++ drop (Z.to_nat (doff + n)) dst)
  else None.

(** [data[i]] as an rvalue. *)
Definition load (i : Z) : M t FileChange :=
  q <- get ;;
  cells <- from_option NullPointer (data q) ;;
  if (0 <=? i) && (i <? Z.of_nat (length cells)) then
    cell <- from_option OutOfBounds (cells !! Z.to_nat i) ;;
    from_option Indeterminate cell
  else throw OutOfBounds.

(** [data[i] = element]. *)
Definition store (i : Z) (element : FileChange) : M t unit :=
  q <- get ;;
  cells <- from_option NullPointer (data q) ;;
  if (0 <=? i) && (i <? Z.of_nat (length cells)) then
    put (set_data (Some (<[Z.to_nat i := Some element]> cells)) q)
  else throw OutOfBounds.

(** [while (InterlockedExchange(&lock, 1) == 1) {}]: with the lock already
    taken and nobody left to release it the loop spins forever. *)
Definition Lock : M t unit :=
  q <- get ;;
  if lock q =? 1 then throw Livelock else put (set_lock 1 q).

Definition Unlock : M t unit := modify (set_lock 0).

Definition Create : M t unit :=
  modify (fun _ => mk 0 (Some (malloc InitialCapacity)) InitialCapacity 0 0).

Definition Destroy : M t unit :=
  Lock ;;;
  modify (fun q => mk (lock q) None 0 0 0) ;;;
  Unlock.

Definition Grow : M t unit :=
  q <- get ;;
  assert (bool_decide (is_Some (data q)) && negb (capacity q =? 0)) ;;;
  old <- from_option NullPointer (data q) ;;
  new_capacity <- s32 (capacity q * GrowRate) ;;
  let new_data := malloc new_capacity in
  wrap_end <- s32 (front_index q + count q) ;;
  new_data <-
    (if wrap_end >? capacity q then
       block1_count <- s32 (capacity q - front_index q) ;;
       block2_count <- s32 (count q - block1_count) ;;
       d1 <- from_option OutOfBounds
               (CopyMemory new_data 0 old (front_index q) block1_count) ;;
       from_option OutOfBounds (CopyMemory d1 block1_count old 0 block2_count)
     else
       from_option OutOfBounds
         (CopyMemory new_data 0 old (front_index q) (count q))) ;;
  put (mk (lock q) (Some new_data) new_capacity (count q) 0).

Definition Push (element : FileChange) : M t unit :=
  Lock ;;;
  q <- get ;;
  (if count q =? capacity q then Grow else ret tt) ;;;
  q <- get ;;
  back_sum <- s32 (front_index q + count q) ;;
  back_index <- s32_rem back_sum (capacity q) ;;
  store back_index element ;;;
  new_count <- s32 (count q + 1) ;;
  modify (set_count new_count) ;;;
  Unlock.

(** [bool Pop(FileChange* element)]: [Some x] stands for the result [true]
    with [*element = x]; [None] stands for [false], in which case
    [*element] is not written. *)
Definition Pop : M t (option FileChange) :=
  Lock ;;;
  q <- get ;;
  has_split_rename <-
    (if count q =? 1 then
       front <- load (front_index q) ;;
       ret (bool_decide (FileChange.action front = RenamedFrom))
     else ret false) ;;
  result <-
    (if negb (count q =? 0) && negb has_split_rename then
       front <- load (front_index q) ;;
       new_count <- s32 (count q - 1) ;;
       next_sum <- s32 (front_index q + 1) ;;
       next_front <- s32_rem next_sum (capacity q) ;;
       put (set_front_index next_front (set_count new_count q)) ;;;
       ret (Some front)
     else ret None) ;;
  Unlock ;;;
  ret result.
End ThreadSafeQueue.

Abbreviation ThreadSafeQueue := ThreadSafeQueue.t.

(** ** The queue as a sequence

    [unrolled q] reads the backing array starting at [front_index] and
    wrapping at the end of the allocation; [live q] keeps the first [count]
    cells of that reading, i.e. the cells at [[front, front+count) mod
    capacity] in logical order. *)

Module QueueModel.
Import ThreadSafeQueue.

Definition cells (q : ThreadSafeQueue) : list (option FileChange) :=
  default [] (data q).

Definition unrolled (q : ThreadSafeQueue) : list (option FileChange) :=
  drop (Z.to_nat (front_index q)) (cells q) ++ take (Z.to_nat (front_index q)) (cells q).

Definition live (q : ThreadSafeQueue) : list (option FileChange) :=
  take (Z.to_nat (count q)) (unrolled q).

(** The largest capacity for which [front_index + count] still fits an
    s32 on every path. *)
Definition MAX_CAPACITY : Z := 1073741824.

(** The representation invariant, lock aside. *)
Record shape (q : ThreadSafeQueue) : Prop := mk_shape {
  shape_data : exists cs, data q = Some cs /\ Z.of_nat (length cs) = capacity q;
  shape_capacity : 0 < capacity q <= MAX_CAPACITY;
  shape_count : 0 <= count q <= capacity q;
  shape_front : 0 <= front_index q < capacity q
}.

(** [holds q l]: [q] is a well-formed, unlocked queue whose logical
    content, front first, is [l]. *)
Definition holds (q : ThreadSafeQueue) (l : list FileChange) : Prop :=
  lock q = 0 /\ shape q /\ live q = map Some l.

(** The reference [Pop] on a plain list: the result and what stays queued. *)
Definition pop_ref (l : list FileChange) : option FileChange * list FileChange :=
  match l with
  | [] => (None, [])
  | [x] => if bool_decide (FileChange.action x = RenamedFrom) then (None, [x]) else (Some x, [])
  | x :: rest => (Some x, rest)
  end.

(** The state [Grow] leaves behind, and the state the rest of [Push]
    leaves behind. *)
Definition grown (q : ThreadSafeQueue) : ThreadSafeQueue :=
  mk (lock q)
     (Some (live q ++ replicate (Z.to_nat (capacity q * GrowRate - count q)) None))
     (capacity q * GrowRate) (count q) 0.

Definition pushed (x : FileChange) (q : ThreadSafeQueue) : ThreadSafeQueue :=
  mk 0
     (Some (<[Z.to_nat ((front_index q + count q) mod capacity q) := Some x]> (cells q)))
     (capacity q) (count q + 1) (front_index q).

(** The state a successful [Pop] leaves behind. *)
Definition popped (q : ThreadSafeQueue) : ThreadSafeQueue :=
  mk 0 (data q) (capacity q) (count q - 1) ((front_index q + 1) mod capacity q).
End QueueModel.

(** ** Sequences of queue operations *)

Inductive QueueOp : Type :=
| OpPush (x : FileChange)
| OpPop.

(** Run the operations in order; the result lists what every [Pop] returned. *)
Fixpoint run (ops : list QueueOp) : M ThreadSafeQueue (list (option FileChange)) :=
  match ops with
  | [] => ret []
  | OpPush x :: ops' => ThreadSafeQueue.Push x ;;; run ops'
  | OpPop :: ops' =>
      r <- ThreadSafeQueue.Pop ;;
      rs <- run ops' ;;
      ret (r :: rs)
  end.

(** The records handed to [Push], in call order. *)
Fixpoint pushed_records (ops : list QueueOp) : list FileChange :=
  match ops with
  | [] => []
  | OpPush x :: ops' => x :: pushed_records ops'
  | OpPop :: ops' => pushed_records ops'
  end.

(** The records the successful [Pop]s handed out, in call order. *)
Definition delivered (outs : list (option FileChange)) : list FileChange := omap id outs.

(** The same operations on a first-in first-out list, the queue the
    operations are meant to implement: [Push] appends, [Pop] takes the head
    (and withholds a lone rename-from).  It gives what every [Pop] returns
    and what is left queued. *)
Fixpoint run_ref (ops : list QueueOp) (l : list FileChange)
  : list (option FileChange) * list FileChange :=
  match ops with
  | [] => ([], l)
  | OpPush x :: ops' => run_ref ops' (l ++ [x])
  | OpPop :: ops' =>
      let popped := QueueModel.pop_ref l in
      let later := run_ref ops' popped.2 in
      (popped.1 :: later.1, later.2)
  end.


(** ** Windows declarations used by the decoder

    The numeric values below are those of the Windows SDK headers
    (winnt.h, winerror.h, minwindef.h). *)

Definition FILE_ACTION_ADDED : Z := 1.
Definition FILE_ACTION_REMOVED : Z := 2.
Definition FILE_ACTION_MODIFIED : Z := 3.
Definition FILE_ACTION_RENAMED_OLD_NAME : Z := 4.
Definition FILE_ACTION_RENAMED_NEW_NAME : Z := 5.
Definition FILE_ATTRIBUTE_DIRECTORY : Z := 16.
Definition ERROR_OPERATION_ABORTED : Z := 995.
Definition INVALID_HANDLE_VALUE : Z := -1.
Definition BACKSLASH : Z := 92.

(** One entry of a notification buffer, as the struct view
    [(FILE_NOTIFY_EXTENDED_INFORMATION* )(buffer + offset)] presents it.
    [FileName] holds the [FileNameLength / 2] whole UTF-16 units that follow
    the header. *)
Module FILE_NOTIFY_EXTENDED_INFORMATION.
Record t : Type := mk {
  NextEntryOffset : Z;        (* DWORD, byte offset 0 *)
  Action : Z;                 (* DWORD, 4 *)
  CreationTime : Z;           (* LARGE_INTEGER, 8 *)
  LastModificationTime : Z;   (* LARGE_INTEGER, 16 *)
  LastChangeTime : Z;         (* LARGE_INTEGER, 24 *)
  LastAccessTime : Z;         (* LARGE_INTEGER, 32 *)
  AllocatedLength : Z;        (* LARGE_INTEGER, 40 *)
  FileSize : Z;               (* LARGE_INTEGER, 48 *)
  FileAttributes : Z;         (* DWORD, 56 *)
  ReparsePointTag : Z;        (* DWORD, 60 *)
  FileId : Z;                 (* LARGE_INTEGER, 64 *)
  ParentFileId : Z;           (* LARGE_INTEGER, 72 *)
  FileNameLength : Z;         (* DWORD, 80: length of FileName in bytes *)
  FileName : list Z           (* WCHAR[], 84 *)
}.
Definition header_size : Z := 84.
End FILE_NOTIFY_EXTENDED_INFORMATION.

(** Little-endian value of a run of bytes. *)
Fixpoint le_value (bs : list Byte.byte) : Z :=
  match bs with
  | [] => 0
  | b :: rest => Z.of_N (Byte.to_N b) + 256 * le_value rest
  end.

(** The [n]-byte unsigned integer stored at [buffer + off]. *)
Definition read_le (buffer : list Byte.byte) (off : Z) (n : nat) : option Z :=
  if (0 <=? off) && (off + Z.of_nat n <=? Z.of_nat (length buffer))
  then Some (le_value (take n (drop (Z.to_nat off) buffer)))
  else None.

(** Group bytes two by two into UTF-16 code units; a trailing odd byte is
    not a whole unit and is left out. *)
Fixpoint units_of_bytes (bs : list Byte.byte) : list Z :=
  match bs with
  | lo :: hi :: rest => (Z.of_N (Byte.to_N lo) + 256 * Z.of_N (Byte.to_N hi)) :: units_of_bytes rest
  | _ => []
  end.

(** The [nbytes] bytes stored at [buffer + off], as UTF-16 units. *)
Definition read_units (buffer : list Byte.byte) (off nbytes : Z) : option (list Z) :=
  if (0 <=? off) && (0 <=? nbytes) && (off + nbytes <=? Z.of_nat (length buffer))
  then Some (units_of_bytes (take (Z.to_nat nbytes) (drop (Z.to_nat off) buffer)))
  else None.

(** The entry at [buffer + offset]; [None] when the entry does not lie
    inside the buffer. *)
Definition event_at (buffer : list Byte.byte) (offset : Z)
  : option FILE_NOTIFY_EXTENDED_INFORMATION.t :=
  next ← read_le buffer offset 4;
  act ← read_le buffer (offset + 4) 4;
  creation ← read_le buffer (offset + 8) 8;
  modification ← read_le buffer (offset + 16) 8;
  change ← read_le buffer (offset + 24) 8;
  access ← read_le buffer (offset + 32) 8;
  allocated ← read_le buffer (offset + 40) 8;
  fsize ← read_le buffer (offset + 48) 8;
  attrs ← read_le buffer (offset + 56) 4;
  tag ← read_le buffer (offset + 60) 4;
  fid ← read_le buffer (offset + 64) 8;
  pid ← read_le buffer (offset + 72) 8;
  name_length ← read_le buffer (offset + 80) 4;
  name ← read_units buffer (offset + FILE_NOTIFY_EXTENDED_INFORMATION.header_size) name_length;
  Some (FILE_NOTIFY_EXTENDED_INFORMATION.mk next act creation modification change access
          allocated fsize attrs tag fid pid name_length name).

(** *** WideCharToMultiByte(CP_UTF8, 0, ...)

    The UTF-8 encoding of a run of UTF-16 units; a surrogate without its
    partner is replaced by U+FFFD. *)
Definition utf8_of_code_point (c : Z) : list Z :=
  if c <? 128 then [c]
  else if c <? 2048 then [192 + c / 64; 128 + c mod 64]
  else if c <? 65536 then [224 + c / 4096; 128 + (c / 64) mod 64; 128 + c mod 64]
  else [240 + c / 262144; 128 + (c / 4096) mod 64; 128 + (c / 64) mod 64; 128 + c mod 64].

Definition is_high_surrogate (w : Z) : bool := (55296 <=? w) && (w <? 56320).
Definition is_low_surrogate (w : Z) : bool := (56320 <=? w) && (w <? 57344).
Definition REPLACEMENT_CHARACTER : Z := 65533.

Fixpoint utf8_of_utf16 (ws : list Z) : list Z :=
  match ws with
  | [] => []
  | w :: rest =>
      if is_high_surrogate w then
        match rest with
        | lo :: rest' =>
            if is_low_surrogate lo
            then utf8_of_code_point (65536 + (w - 55296) * 1024 + (lo - 56320))
                   ++ utf8_of_utf16 rest'
            else utf8_of_code_point REPLACEMENT_CHARACTER ++ utf8_of_utf16 rest
        | [] => utf8_of_code_point REPLACEMENT_CHARACTER
        end
      else if is_low_surrogate w
           then utf8_of_code_point REPLACEMENT_CHARACTER ++ utf8_of_utf16 rest
           else utf8_of_code_point w ++ utf8_of_utf16 rest
  end.

(** The units up to and including the first NUL (for [cchWideChar = -1]). *)
Fixpoint through_nul (ws : list (option Z)) : option (list Z) :=
  match ws with
  | [] => None
  | None :: _ => None
  | Some w :: rest => if w =? 0 then Some [w] else cons w <$> through_nul rest
  end.

(** [WideCharToMultiByte(CP_UTF8, 0, src, cch, dst, cb, 0, 0)]: returns the
    destination array and the number of bytes written.  The call fails with
    result 0 when the encoding does not fit [cb] bytes or when [cch] is 0 or
    below -1; the model then leaves the destination as it was.  Reading a
    unit outside [src], or one that was never written, is a fault. *)
Definition WideCharToMultiByte (src : list (option Z)) (cch : Z) (dst : list Z) (cb : Z)
  : M unit (list Z * Z) :=
  if (cch =? 0) || (cch <? -1) then ret (dst, 0)
  else
    units <- (if cch =? -1 then from_option OutOfBounds (through_nul src)
              else if cch <=? Z.of_nat (length src)
                   then from_option Indeterminate (mapM id (take (Z.to_nat cch) src))
                   else throw OutOfBounds) ;;
    let bytes := utf8_of_utf16 units in
    if (Z.of_nat (length bytes) <=? cb) && (cb <=? Z.of_nat (length dst))
    then ret (bytes ++ drop (length bytes) dst, Z.of_nat (length bytes))
    else if cb <=? Z.of_nat (length dst) then ret (dst, 0) else throw OutOfBounds.

(** ** The decoder: DirectoryWatcher::ProcessNotification *)

(** The [switch (event->Action)] of the decoder. *)
Definition decode_action (code : Z) : EFileAction :=
  if code =? FILE_ACTION_ADDED then Added
  else if code =? FILE_ACTION_REMOVED then Removed
  else if code =? FILE_ACTION_MODIFIED then Modified
  else if code =? FILE_ACTION_RENAMED_OLD_NAME then RenamedFrom
  else if code =? FILE_ACTION_RENAMED_NEW_NAME then RenamedTo
  else ActNone.

(** [CopyMemory(dst + doff, src, nbytes)] into a [char16_t] array: the whole
    units are copied; an odd trailing byte leaves the unit it lands in
    neither old nor new. *)
Definition copy_units (dst : list (option Z)) (doff : Z) (src : list (option Z)) (nbytes : Z)
  : option (list (option Z)) :=
  if (0 <=? nbytes) && (0 <=? doff)
     && (nbytes / 2 <=? Z.of_nat (length src))
     && (2 * doff + nbytes <=? 2 * Z.of_nat (length dst))
  then Some (take (Z.to_nat doff) dst
             ++ take (Z.to_nat (nbytes / 2)) src
             ++ (if Z.odd nbytes then [None] else [])
             ++ drop (Z.to_nat (doff + (nbytes + 1) / 2)) dst)
  else None.

(** [array[i]] as an rvalue and [array[i] = v], for a local [char16_t] array. *)
Definition read_unit (array : list (option Z)) (i : Z) : M unit Z :=
  if (0 <=? i) && (i <? Z.of_nat (length array)) then
    cell <- from_option OutOfBounds (array !! Z.to_nat i) ;;
    from_option Indeterminate cell
  else throw OutOfBounds.

Definition write_unit (array : list (option Z)) (i : Z) (v : Z) : M unit (list (option Z)) :=
  if (0 <=? i) && (i <? Z.of_nat (length array))
  then ret (<[Z.to_nat i := Some v]> array)
  else throw OutOfBounds.

(** [array[i] = v] for a [char] array. *)
Definition write_char (array : list Z) (i : Z) (v : Z) : M unit (list Z) :=
  if (0 <=? i) && (i <? Z.of_nat (length array))
  then ret (<[Z.to_nat i := v]> array)
  else throw OutOfBounds.

(** The body of the do-while loop up to, not including, [queue.Push]. *)
Definition decode_event (directory_path : list Z) (directory_path_length : Z)
           (event : FILE_NOTIFY_EXTENDED_INFORMATION.t) : M unit FileChange :=
  let combined_path_length := directory_path_length in
  let combined_path : list (option Z) := replicate (Z.to_nat MAX_PATH) None in
  nbytes <- s32 (combined_path_length * 2) ;;
  combined_path <- from_option OutOfBounds
                     (copy_units combined_path 0 (Some <$> directory_path) nbytes) ;;
  last <- read_unit combined_path (combined_path_length - 1) ;;
  appended <-
    (if negb (last =? BACKSLASH) then
       p <- write_unit combined_path combined_path_length BACKSLASH ;;
       n <- s32 (combined_path_length + 1) ;;
       ret (p, n)
     else ret (combined_path, combined_path_length)) ;;
  let combined_path := appended.1 in
  let combined_path_length := appended.2 in
  combined_path <- from_option OutOfBounds
                     (copy_units combined_path combined_path_length
                        (Some <$> FILE_NOTIFY_EXTENDED_INFORMATION.FileName event)
                        (FILE_NOTIFY_EXTENDED_INFORMATION.FileNameLength event)) ;;
  let combined_path_length :=
    s32_wrap (combined_path_length
              + FILE_NOTIFY_EXTENDED_INFORMATION.FileNameLength event / 2) in
  combined_path <- write_unit combined_path combined_path_length 0 ;;
  let action := decode_action (FILE_NOTIFY_EXTENDED_INFORMATION.Action event) in
  let attributes := FILE_NOTIFY_EXTENDED_INFORMATION.FileAttributes event in
  let is_directory := negb (Z.land attributes FILE_ATTRIBUTE_DIRECTORY =? 0) in
  cch <- s32 (combined_path_length + 1) ;;
  converted <- WideCharToMultiByte combined_path cch
                 (FileChange.path FileChange.zero) (MAX_PATH * 3) ;;
  path_length <- s32 (converted.2 - 1) ;;
  ret (FileChange.mk converted.1 path_length action
         (FILE_NOTIFY_EXTENDED_INFORMATION.CreationTime event)
         (FILE_NOTIFY_EXTENDED_INFORMATION.LastModificationTime event)
         (FILE_NOTIFY_EXTENDED_INFORMATION.LastChangeTime event)
         (FILE_NOTIFY_EXTENDED_INFORMATION.LastAccessTime event)
         (FILE_NOTIFY_EXTENDED_INFORMATION.FileSize event)
         attributes is_directory).

(** The record the decoder builds for a null buffer. *)
Definition overflow_change (directory_path : list Z) (directory_path_length : Z)
  : M unit FileChange :=
  converted <- WideCharToMultiByte (Some <$> directory_path) directory_path_length
                 (FileChange.path FileChange.zero) (MAX_PATH * 3) ;;
  path <- write_char converted.1 converted.2 0 ;;
  ret (FileChange.mk path converted.2 TooManyChanges 0 0 0 0 0 0 true).

(** ** Watch requests, the watcher and the process state *)

(** One [ReadChangesRequest] block.  The two change buffers are [buffers],
    [2 * buffer_size] bytes; [path] is the wide directory path, terminator
    included.  [watcher] always points to the one watcher of the model and
    [overlapped.hEvent] to the request itself, so neither is recorded: a
    completion is delivered together with the address of its request.  The
    list threaded through [next] is kept as the sequence of node addresses
    in [DirectoryWatcher.requests]. *)
Module ReadChangesRequest.
Record t : Type := mk {
  buffers : list Byte.byte;
  path : list Z;
  buffer_size : Z;
  path_length : Z;
  buffer_index : Z;
  is_recursive : bool;
  directory : Z
}.
Definition set_buffer_index (v : Z) (r : t) : t :=
  mk (buffers r) (path r) (buffer_size r) (path_length r) v (is_recursive r) (directory r).
Definition set_buffers (v : list Byte.byte) (r : t) : t :=
  mk v (path r) (buffer_size r) (path_length r) (buffer_index r) (is_recursive r) (directory r).
End ReadChangesRequest.

Module DirectoryWatcher.
Record t : Type := mk {
  queue : ThreadSafeQueue;
  requests : list Z;           (* addresses of the list nodes, head first *)
  thread_handle : Z;
  should_terminate : bool;
  outstanding_request_count : Z
}.
Definition set_queue (v : ThreadSafeQueue) (w : t) : t :=
  mk v (requests w) (thread_handle w) (should_terminate w) (outstanding_request_count w).
Definition set_requests (v : list Z) (w : t) : t :=
  mk (queue w) v (thread_handle w) (should_terminate w) (outstanding_request_count w).
Definition set_should_terminate (v : bool) (w : t) : t :=
  mk (queue w) (requests w) (thread_handle w) v (outstanding_request_count w).
Definition set_outstanding_request_count (v : Z) (w : t) : t :=
  mk (queue w) (requests w) (thread_handle w) (should_terminate w) v.
End DirectoryWatcher.

(** Calls into the operating system, in the order they are issued. *)
Inductive SysCall : Type :=
| CreateThread (result : Z)
| CreateFileW (path : list Z) (result : Z)
| QueueUserAPC (thread : Z) (request : Z)
| ReadDirectoryChangesExW (directory : Z) (request : Z) (buffer_offset : Z)
                          (buffer_length : Z) (watch_subtree : bool) (filters : Z)
| CancelIo (handle : Z)
| CloseHandle (handle : Z).

(** The watcher object, the malloc'ed request blocks by address, and the log
    of system calls. *)
Record State : Type := mk_State {
  watcher : DirectoryWatcher.t;
  heap : gmap Z ReadChangesRequest.t;
  calls : list SysCall
}.

Definition set_watcher (v : DirectoryWatcher.t) (s : State) : State :=
  mk_State v (heap s) (calls s).
Definition set_heap (v : gmap Z ReadChangesRequest.t) (s : State) : State :=
  mk_State (watcher s) v (calls s).

(** Run a pure, fallible computation inside a stateful one. *)
Definition lift {S A} (c : M unit A) : M S A :=
  fun s => match c tt with
           | Ok a _ => Ok a s
           | Err f => Err f
           end.

Definition syscall (c : SysCall) : M State unit :=
  modify (fun s => mk_State (watcher s) (heap s) (calls s ++ [c])).

(** [*request], for an address that must name a live block. *)
Definition deref (request : Z) : M State ReadChangesRequest.t :=
  s <- get ;;
  if request =? 0 then throw NullPointer
  else from_option DanglingPointer (heap s !! request).

Definition update_request (request : Z) (f : ReadChangesRequest.t -> ReadChangesRequest.t)
  : M State unit :=
  r <- deref request ;;
  modify (fun s => set_heap (<[request := f r]> (heap s)) s).

Definition free (request : Z) : M State unit :=
  modify (fun s => set_heap (delete request (heap s)) s).

(** A method of the [queue] member. *)
Definition on_queue {A} (c : M ThreadSafeQueue A) : M State A :=
  zoom (fun s => DirectoryWatcher.queue (watcher s))
       (fun q s => set_watcher (DirectoryWatcher.set_queue q (watcher s)) s) c.

Definition on_watcher (f : DirectoryWatcher.t -> DirectoryWatcher.t) : M State unit :=
  modify (fun s => set_watcher (f (watcher s)) s).

(** The do-while loop of [ProcessNotification].  Offsets grow strictly
    along a buffer, so a buffer of [n] bytes needs at most [n] rounds. *)
Fixpoint decode_entries (fuel : nat) (buffer : list Byte.byte)
         (directory_path : list Z) (directory_path_length : Z) (offset : Z) : M State unit :=
  match fuel with
  | O => throw OutOfFuel
  | S fuel' =>
      event <- from_option OutOfBounds (event_at buffer offset) ;;
      let offset' :=
        s32_wrap (offset + FILE_NOTIFY_EXTENDED_INFORMATION.NextEntryOffset event) in
      change <- lift (decode_event directory_path directory_path_length event) ;;
      on_queue (ThreadSafeQueue.Push change) ;;;
      if negb (FILE_NOTIFY_EXTENDED_INFORMATION.NextEntryOffset event =? 0)
      then decode_entries fuel' buffer directory_path directory_path_length offset'
      else ret tt
  end.

(** [buffer] is [None] for a null pointer, otherwise the bytes from the
    pointer to the end of the buffers. *)
Definition ProcessNotification (buffer : option (list Byte.byte))
           (directory_path : list Z) (directory_path_length : Z) : M State unit :=
  match buffer with
  | None =>
      change <- lift (overflow_change directory_path directory_path_length) ;;
      on_queue (ThreadSafeQueue.Push change)
  | Some bytes =>
      decode_entries (S (length bytes)) bytes directory_path directory_path_length 0
  end.

(** ** The worker thread's procedures *)

(** FILE_NOTIFY_CHANGE_CREATION | FILE_NOTIFY_CHANGE_LAST_WRITE
    | FILE_NOTIFY_CHANGE_FILE_NAME | FILE_NOTIFY_CHANGE_DIR_NAME. *)
Definition filters : Z := Z.lor (Z.lor (Z.lor 64 16) 1) 2.

(** The result of [ReadDirectoryChangesExW] is not looked at by the source. *)
Definition BeginRead (request : Z) : M State unit :=
  r <- deref request ;;
  buffer <- s32 (ReadChangesRequest.buffer_size r * ReadChangesRequest.buffer_index r) ;;
  update_request request
    (ReadChangesRequest.set_buffer_index (Z.lxor (ReadChangesRequest.buffer_index r) 1)) ;;;
  syscall (ReadDirectoryChangesExW (ReadChangesRequest.directory r) request buffer
             (ReadChangesRequest.buffer_size r) (ReadChangesRequest.is_recursive r) filters).

Definition ThreadAddDirectoryProc (request : Z) : M State unit :=
  deref request ;;;
  on_watcher (fun w => DirectoryWatcher.set_outstanding_request_count
                         (u32_wrap (DirectoryWatcher.outstanding_request_count w + 1)) w) ;;;
  BeginRead request.

(** The completion routine is kept in two stages, so that the state between
    its call of [BeginRead] and its call of [ProcessNotification] can be
    spoken of.  [NotificationCompletion_begin] is the routine up to and
    including the call of [BeginRead] (lines 104-121); it returns what is
    left of the routine to run: nothing on the cancellation branch, the
    call of [ProcessNotification] (line 122) otherwise.  [buffer] is
    computed before [BeginRead] flips the index; [request->path] and
    [request->path_length] are read when the call is made. *)
Definition NotificationCompletion_begin (error_code bytes_transferred : Z) (request : Z)
  : M State (M State unit) :=
  r <- deref request ;;
  s <- get ;;
  if (error_code =? ERROR_OPERATION_ABORTED)
     || DirectoryWatcher.should_terminate (watcher s)
  then
    on_watcher (fun w => DirectoryWatcher.set_outstanding_request_count
                           (u32_wrap (DirectoryWatcher.outstanding_request_count w - 1)) w) ;;;
    free request ;;;
    ret (ret tt)
  else
    (if negb (error_code =? 0) then assert false else ret tt) ;;;
    let did_overflow := (error_code =? 0) && (bytes_transferred =? 0) in
    buffer <- s32 (ReadChangesRequest.buffer_size r
                   * Z.lxor (ReadChangesRequest.buffer_index r) 1) ;;
    BeginRead request ;;;
    ret (r' <- deref request ;;
         ProcessNotification
           (if did_overflow then None
            else Some (drop (Z.to_nat buffer) (ReadChangesRequest.buffers r')))
           (ReadChangesRequest.path r') (ReadChangesRequest.path_length r')).

Definition NotificationCompletion (error_code bytes_transferred : Z) (request : Z)
  : M State unit :=
  rest <- NotificationCompletion_begin error_code bytes_transferred request ;;
  rest.

(** The guard of the loop in [ThreadProc]: the worker thread keeps
    sleeping alertably, and so stays alive, for as long as this holds. *)
Definition ThreadProc_continues (w : DirectoryWatcher.t) : bool :=
  negb (DirectoryWatcher.outstanding_request_count w =? 0)
  || negb (DirectoryWatcher.should_terminate w).

(** ** The facade *)

(** [thread] is what [CreateThread] returns. *)
Definition Initialize (thread : Z) : M State unit :=
  on_watcher (fun w => DirectoryWatcher.mk (DirectoryWatcher.queue w) []
                         (DirectoryWatcher.thread_handle w) false 0) ;;;
  on_queue ThreadSafeQueue.Create ;;;
  syscall (CreateThread thread) ;;;
  on_watcher (fun w => DirectoryWatcher.mk (DirectoryWatcher.queue w)
                         (DirectoryWatcher.requests w) thread
                         (DirectoryWatcher.should_terminate w)
                         (DirectoryWatcher.outstanding_request_count w)).

(** The [while (current)] loop of [ShutDown] over the list nodes. *)
Fixpoint cancel_all (nodes : list Z) : M State unit :=
  match nodes with
  | [] => ret tt
  | current :: rest =>
      r <- deref current ;;
      syscall (CancelIo (ReadChangesRequest.directory r)) ;;;
      syscall (CloseHandle (ReadChangesRequest.directory r)) ;;;
      cancel_all rest
  end.

Definition ShutDown : M State unit :=
  on_watcher (DirectoryWatcher.set_should_terminate true) ;;;
  s <- get ;;
  cancel_all (DirectoryWatcher.requests (watcher s)) ;;;
  syscall (CloseHandle (DirectoryWatcher.thread_handle (watcher s))) ;;;
  on_queue ThreadSafeQueue.Destroy.

(** [while (last->next) last = last->next;] reads every node of the list. *)
Fixpoint walk (nodes : list Z) : M State unit :=
  match nodes with
  | [] => ret tt
  | last :: rest => deref last ;;; walk rest
  end.

(** [directory] is [None] for a null pointer.  What the operating system
    answers is given by [wide] (the UTF-16 form of [directory] that
    [MultiByteToWideChar] produces, terminator included, empty when the
    conversion fails), [memory] (the address [malloc] returns, 0 on failure)
    and [handle] (what [CreateFileW] returns).  The fresh buffers are taken
    to be zero-filled.  The block enters the heap with all its fields at once;
    the source stores [buffer_index] and [is_recursive] only once the
    directory is open, and when it is not the block is freed before anything
    reads it. *)
Definition AddDirectory (wide : list Z) (memory handle : Z)
           (directory : option (list Z)) (is_recursive : bool) (change_buffer_size : Z)
  : M State bool :=
  s <- get ;;
  assert (negb (DirectoryWatcher.thread_handle (watcher s) =? 0)
          && bool_decide (is_Some directory) && (0 <? change_buffer_size)) ;;;
  let path_count := Z.of_nat (length wide) in
  buffers_size <- s32 (2 * change_buffer_size) ;;
  path_size <- s32 (2 * path_count) ;;
  assert (negb (memory =? 0) && (0 <? path_count)) ;;;
  path_length <- s32 (path_count - 1) ;;
  modify (fun s => set_heap
            (<[memory := ReadChangesRequest.mk
                           (replicate (Z.to_nat buffers_size) Byte.x00) wide
                           change_buffer_size path_length 0 is_recursive handle]>
               (heap s)) s) ;;;
  syscall (CreateFileW wide handle) ;;;
  if negb (handle =? INVALID_HANDLE_VALUE) then
    walk (DirectoryWatcher.requests (watcher s)) ;;;
    on_watcher (fun w => DirectoryWatcher.set_requests
                           (DirectoryWatcher.requests w ++ [memory]) w) ;;;
    syscall (QueueUserAPC (DirectoryWatcher.thread_handle (watcher s)) memory) ;;;
    ret true
  else
    free memory ;;;
    ret false.

Definition TryGetNextChange : M State (option FileChange) :=
  on_queue ThreadSafeQueue.Pop.

(** ** The operating system's side of a read

    [last_read cs request] is the buffer offset and length handed to the
    most recent [ReadDirectoryChangesExW] issued for [request]: the read
    that is in flight, and the one a completion for [request] reports on.
    [os_fill] is the operating system storing the notification [payload]
    into that buffer before it queues the completion routine. *)
Fixpoint last_read (cs : list SysCall) (request : Z) : option (Z * Z) :=
  match cs with
  | [] => None
  | c :: rest =>
      match last_read rest request with
      | Some found => Some found
      | None =>
          match c with
          | ReadDirectoryChangesExW _ r offset len _ _ =>
              if r =? request then Some (offset, len) else None
          | _ => None
          end
      end
  end.

Definition os_fill (request : Z) (payload : list Byte.byte) : M State unit :=
  r <- deref request ;;
  s <- get ;;
  target <- from_option OutOfBounds (last_read (calls s) request) ;;
  if (0 <=? target.1) && (Z.of_nat (length payload) <=? target.2)
     && (target.1 + target.2 <=? Z.of_nat (length (ReadChangesRequest.buffers r)))
  then update_request request
         (ReadChangesRequest.set_buffers
            (take (Z.to_nat target.1) (ReadChangesRequest.buffers r)
             ++ payload
             ++ drop (Z.to_nat target.1 + length payload) (ReadChangesRequest.buffers r)))
  else throw OutOfBounds.

(** ** Sample data for the worked examples *)

Definition units_of_string (s : String.string) : list Z :=
  map (fun a => Z.of_N (Ascii.N_of_ascii a)) (String.list_ascii_of_string s).

Definition byte_of (z : Z) : Byte.byte := default Byte.x00 (Byte.of_N (Z.to_N z)).

Fixpoint le_bytes (n : nat) (v : Z) : list Byte.byte :=
  match n with
  | O => []
  | S n' => byte_of (v mod 256) :: le_bytes n' (v / 256)
  end.

(** The bytes of one notification entry. *)
Definition entry_bytes (next action attributes sz : Z) (name : list Z) : list Byte.byte :=
  le_bytes 4 next ++ le_bytes 4 action
  ++ le_bytes 8 11 ++ le_bytes 8 12 ++ le_bytes 8 13 ++ le_bytes 8 14
  ++ le_bytes 8 4096 ++ le_bytes 8 sz
  ++ le_bytes 4 attributes ++ le_bytes 4 0 ++ le_bytes 8 0 ++ le_bytes 8 0
  ++ le_bytes 4 (2 * Z.of_nat (length name))
  ++ flat_map (le_bytes 2) name.

(** A record that carries nothing but an action and a size. *)
Definition sample_change (a : EFileAction) (n : Z) : FileChange :=
  FileChange.mk (FileChange.path FileChange.zero) 0 a 0 0 0 0 n 0 false.

(** ** Auxiliary notions used to state the decoder's properties *)

(** The local array [combined_path] once exactly the units [written] have
    been stored at its start. *)
Definition partly_written (written : list Z) : list (option Z) :=
  (Some <$> written) ++ replicate (Z.to_nat MAX_PATH - length written) None.

(** A UTF-16 code unit. *)
Definition is_unit (w : Z) : Prop := 0 <= w < 65536.

(** The separator the decoder inserts after the directory path [stem]. *)
Definition separator (stem : list Z) : list Z :=
  match last stem with
  | Some w => if w =? BACKSLASH then [] else [BACKSLASH]
  | None => [BACKSLASH]
  end.

(** The wide path the decoder composes for an entry named [name]. *)
Definition composed_path (directory_path : list Z) (directory_path_length : Z)
           (name : list Z) : list Z :=
  let stem := take (Z.to_nat directory_path_length) directory_path in
  stem ++ separator stem ++ name.

(** What every entry read out of a byte buffer satisfies. *)
Record entry_ok (e : FILE_NOTIFY_EXTENDED_INFORMATION.t) : Prop := mk_entry_ok {
  entry_next : 0 <= FILE_NOTIFY_EXTENDED_INFORMATION.NextEntryOffset e < 4294967296;
  entry_name_length : 0 <= FILE_NOTIFY_EXTENDED_INFORMATION.FileNameLength e;
  entry_name_units :
    Z.of_nat (length (FILE_NOTIFY_EXTENDED_INFORMATION.FileName e))
    = FILE_NOTIFY_EXTENDED_INFORMATION.FileNameLength e / 2;
  entry_name_range : Forall is_unit (FILE_NOTIFY_EXTENDED_INFORMATION.FileName e)
}.

(** The path bytes the decoder reports for the entry at the start of
    [buffer], if it decodes. *)
Definition reported_path (directory_path : list Z) (directory_path_length : Z)
           (buffer : list Byte.byte) : option (list Z) :=
  e ← event_at buffer 0;
  match decode_event directory_path directory_path_length e tt with
  | Ok c _ => Some (FileChange.path_bytes c)
  | Err _ => None
  end.

(** One entry: "a.txt" was added. *)
Definition sample_entry : list Byte.byte :=
  entry_bytes 0 FILE_ACTION_ADDED 32 5 (units_of_string "a.txt").

(** The stored wide paths of two watched directories. *)
Definition sample_directory : list Z := units_of_string "C:\data" ++ [0].
Definition sample_directory_slash : list Z :=
  units_of_string "C:\data" ++ [BACKSLASH] ++ [0].

(** The record [decode_event] returns, or the zero record when it faults. *)
Definition decoded (directory_path : list Z) (directory_path_length : Z)
           (e : FILE_NOTIFY_EXTENDED_INFORMATION.t) : FileChange :=
  match decode_event directory_path directory_path_length e tt with
  | Ok c _ => c
  | Err _ => FileChange.zero
  end.

(** The entry stored in [sample_entry], and the same entry reporting the old
    name of a rename. *)
Definition sample_event : FILE_NOTIFY_EXTENDED_INFORMATION.t :=
  FILE_NOTIFY_EXTENDED_INFORMATION.mk 0 FILE_ACTION_ADDED 11 12 13 14 4096 5 32 0 0 0 10
    (units_of_string "a.txt").
Definition sample_rename_event : FILE_NOTIFY_EXTENDED_INFORMATION.t :=
  FILE_NOTIFY_EXTENDED_INFORMATION.mk 0 FILE_ACTION_RENAMED_OLD_NAME 11 12 13 14 4096 5 32
    0 0 0 10 (units_of_string "a.txt").

(** [entries_from buffer offset es]: starting at [offset], the buffer holds
    exactly the entries [es], each one pointing forward to the next and the
    last one carrying [NextEntryOffset = 0]. *)
Inductive entries_from (buffer : list Byte.byte)
  : Z -> list FILE_NOTIFY_EXTENDED_INFORMATION.t -> Prop :=
| entries_last (offset : Z) (e : FILE_NOTIFY_EXTENDED_INFORMATION.t) :
    event_at buffer offset = Some e ->
    FILE_NOTIFY_EXTENDED_INFORMATION.NextEntryOffset e = 0 ->
    entries_from buffer offset [e]
| entries_next (offset : Z) (e : FILE_NOTIFY_EXTENDED_INFORMATION.t)
               (rest : list FILE_NOTIFY_EXTENDED_INFORMATION.t) :
    event_at buffer offset = Some e ->
    FILE_NOTIFY_EXTENDED_INFORMATION.NextEntryOffset e <> 0 ->
    entries_from buffer (offset + FILE_NOTIFY_EXTENDED_INFORMATION.NextEntryOffset e) rest ->
    entries_from buffer offset (e :: rest).

(** The state with the queue replaced. *)
Definition with_queue (q : ThreadSafeQueue) (s : State) : State :=
  set_watcher (DirectoryWatcher.set_queue q (watcher s)) s.

Definition queue_of (s : State) : ThreadSafeQueue := DirectoryWatcher.queue (watcher s).

(** The state a computation leaves behind, or the state it started from
    when it faults. *)
Definition state_after {S A} (c : M S A) (s : S) : S :=
  match c s with
  | Ok _ s' => s'
  | Err _ => s
  end.

(** A watcher before [Initialize], and the watcher [Initialize] produces when
    [CreateThread] returns the handle 77. *)
Definition blank_state : State :=
  mk_State (DirectoryWatcher.mk (ThreadSafeQueue.mk 0 None 0 0 0) [] 0 false 0) ∅ [].
Definition sample_state : State := state_after (Initialize 77) blank_state.

(** A full queue of capacity 2 whose live range wraps: the front record sits
    in the last cell, the second record in the first cell. *)
Definition sample_first : FileChange := sample_change Added 1.
Definition sample_second : FileChange := sample_change Modified 2.
Definition sample_third : FileChange := sample_change Removed 3.
Definition wrapped_full_queue : ThreadSafeQueue :=
  ThreadSafeQueue.mk 0 (Some [Some sample_second; Some sample_first]) 2 2 1.

(** A queue that holds nothing but the first half of a rename. *)
Definition sample_rename_from : FileChange := sample_change RenamedFrom 4.
Definition sample_rename_to : FileChange := sample_change RenamedTo 5.
Definition lone_rename_queue : ThreadSafeQueue :=
  ThreadSafeQueue.mk 0 (Some [Some sample_rename_from]) 1 1 0.

(** ** Invariants of a watch request *)

(** A request as [AddDirectory] builds it and the worker thread keeps it:
    two buffers of [buffer_size] bytes whose total size fits an s32, and a
    buffer index that is 0 or 1. *)
Record request_ok (r : ReadChangesRequest.t) : Prop := mk_request_ok {
  request_size : 0 < ReadChangesRequest.buffer_size r;
  request_buffers :
    Z.of_nat (length (ReadChangesRequest.buffers r)) = 2 * ReadChangesRequest.buffer_size r;
  request_buffers_s32 : 2 * ReadChangesRequest.buffer_size r <= INT32_MAX;
  request_index :
    ReadChangesRequest.buffer_index r = 0 \/ ReadChangesRequest.buffer_index r = 1
}.

(** [armed s request]: the request is live and the read in flight for it
    fills the buffer at index [buffer_index xor 1], the one that is not
    the target of the next [BeginRead]. *)
Definition armed (s : State) (request : Z) : Prop :=
  request <> 0 /\
  exists r,
    heap s !! request = Some r /\ request_ok r /\
    last_read (calls s) request
    = Some (ReadChangesRequest.buffer_size r
            * Z.lxor (ReadChangesRequest.buffer_index r) 1,
            ReadChangesRequest.buffer_size r).

(** The byte offset of buffer number [index] of a request. *)
Definition buffer_offset (r : ReadChangesRequest.t) (index : Z) : Z :=
  ReadChangesRequest.buffer_size r * index.

(** A watcher that watches "C:\data" with two 256-byte buffers: the request
    block sits at address 1000, the directory handle is 55, and the worker
    thread has armed the first read. *)
Definition watching_state : State :=
  state_after (Initialize 77 ;;;
               AddDirectory sample_directory 1000 55 (Some (units_of_string "C:\data"))
                 true 256 ;;;
               ThreadAddDirectoryProc 1000) blank_state.

(** The request block of [watching_state]. *)
Definition sample_request : ReadChangesRequest.t :=
  ReadChangesRequest.mk (replicate 512 Byte.x00) sample_directory 256 7 1 true 55.

(** The queue [Create] produces. *)
Definition created_queue : ThreadSafeQueue :=
  ThreadSafeQueue.mk 0 (Some (ThreadSafeQueue.malloc ThreadSafeQueue.InitialCapacity))
    ThreadSafeQueue.InitialCapacity 0 0.

(** ** Auxiliary notions used to state the facade's properties *)

(** A list node that can be followed: a non-null address of a live block. *)
Definition live_node (h : gmap Z ReadChangesRequest.t) (request : Z) : Prop :=
  request <> 0 /\ is_Some (h !! request).

(** The system calls the loop of [ShutDown] issues for the nodes given. *)
Definition cancel_calls (h : gmap Z ReadChangesRequest.t) (nodes : list Z) : list SysCall :=
  flat_map (fun request =>
              match h !! request with
              | Some r => [CancelIo (ReadChangesRequest.directory r);
                           CloseHandle (ReadChangesRequest.directory r)]
              | None => []
              end) nodes.

(** The watcher object [ShutDown] leaves behind. *)
Definition shut_down (w : DirectoryWatcher.t) : DirectoryWatcher.t :=
  DirectoryWatcher.mk (ThreadSafeQueue.mk 0 None 0 0 0) (DirectoryWatcher.requests w)
    (DirectoryWatcher.thread_handle w) true (DirectoryWatcher.outstanding_request_count w).

(** What [AddDirectory] asserts about its arguments and about the answers
    of [MultiByteToWideChar] and [malloc], together with the sizes fitting an
    s32 and [malloc] handing out an address that is not in use. *)
Record AddDirectory_pre (s : State) (wide : list Z) (memory : Z)
       (directory : option (list Z)) (change_buffer_size : Z) : Prop := mk_AddDirectory_pre {
  pre_thread : DirectoryWatcher.thread_handle (watcher s) <> 0;
  pre_directory : is_Some directory;
  pre_buffer_size : 0 < change_buffer_size;
  pre_buffers_s32 : 2 * change_buffer_size <= INT32_MAX;
  pre_path : wide <> [];
  pre_path_s32 : 2 * Z.of_nat (length wide) <= INT32_MAX;
  pre_memory : memory <> 0;
  pre_fresh : heap s !! memory = None
}.

(** The request block [AddDirectory] fills in. *)
Definition new_request (wide : list Z) (handle : Z) (is_recursive : bool)
           (change_buffer_size : Z) : ReadChangesRequest.t :=
  ReadChangesRequest.mk (replicate (Z.to_nat (2 * change_buffer_size)) Byte.x00) wide
    change_buffer_size (Z.of_nat (length wide) - 1) 0 is_recursive handle.

(** ** The consumer's loop and the shutdown schedule *)

(** The loop of the usage note in DirectoryWatcher.h,
    [while (watcher.TryGetNextChange(&change)) { ... }]: the records it
    hands to its body, in order.  Every round that goes on takes one record
    off the queue, so a queue of [n] records needs at most [n + 1] rounds. *)
Fixpoint poll_all (fuel : nat) : M State (list FileChange) :=
  match fuel with
  | O => throw OutOfFuel
  | S fuel' =>
      r <- TryGetNextChange ;;
      match r with
      | None => ret []
      | Some change =>
          rest <- poll_all fuel' ;;
          ret (change :: rest)
      end
  end.

(** What that loop hands out of a queue holding [l], and what it leaves
    queued: everything, except a rename-from record in last position. *)
Fixpoint drained (l : list FileChange) : list FileChange * list FileChange :=
  match l with
  | [] => ([], [])
  | x :: rest =>
      match rest with
      | [] => if bool_decide (FileChange.action x = RenamedFrom) then ([], [x]) else ([x], [])
      | _ :: _ => (x :: (drained rest).1, (drained rest).2)
      end
  end.

(** The completion routine run once for each of the requests given, with
    the same error code and no bytes: what the worker thread executes when
    the operating system reports the reads cancelled by [ShutDown]. *)
Fixpoint complete_all (error_code : Z) (requests : list Z) : M State unit :=
  match requests with
  | [] => ret tt
  | request :: rest =>
      NotificationCompletion error_code 0 request ;;;
      complete_all error_code rest
  end.

(** The heap once the blocks at the addresses given are freed. *)
Definition freed (requests : list Z) (h : gmap Z ReadChangesRequest.t)
  : gmap Z ReadChangesRequest.t :=
  foldl (fun m request => delete request m) h requests.

(** A watcher with two watched directories, both reads armed: the blocks
    sit at 1000 and 2000, the directory handles are 55 and 56. *)
Definition two_watches_state : State :=
  state_after (Initialize 77 ;;;
               AddDirectory sample_directory 1000 55 (Some (units_of_string "C:\data"))
                 true 256 ;;;
               AddDirectory sample_directory_slash 2000 56
                 (Some (units_of_string "C:\data")) false 128 ;;;
               ThreadAddDirectoryProc 1000 ;;;
               ThreadAddDirectoryProc 2000) blank_state.

(** A queue holding an added record followed by the two halves of a rename,
    and one holding an added record followed by a lone rename-from. *)
Definition rename_pair_queue : ThreadSafeQueue :=
  ThreadSafeQueue.mk 0
    (Some [Some sample_first; Some sample_rename_from; Some sample_rename_to; None]) 4 3 0.
Definition split_rename_queue : ThreadSafeQueue :=
  ThreadSafeQueue.mk 0 (Some [Some sample_first; Some sample_rename_from; None; None]) 4 2 0.

(** An entry for a directory that was removed, with a name of 300 units. *)
Definition long_name_event : FILE_NOTIFY_EXTENDED_INFORMATION.t :=
  FILE_NOTIFY_EXTENDED_INFORMATION.mk 0 FILE_ACTION_REMOVED 21 22 23 24 0 0
    FILE_ATTRIBUTE_DIRECTORY 0 0 0 600 (replicate 300 97).

(** A wide directory path of 800 units, terminator included: eight
    components of 99 letters, separated by backslashes. *)
Definition long_directory : list Z :=
  take 799 (concat (replicate 8 (replicate 99 97 ++ [BACKSLASH]))) ++ [0].

(** An entry for a directory "sub" that was removed. *)
Definition directory_event : FILE_NOTIFY_EXTENDED_INFORMATION.t :=
  FILE_NOTIFY_EXTENDED_INFORMATION.mk 0 FILE_ACTION_REMOVED 21 22 23 24 0 0
    (Z.lor FILE_ATTRIBUTE_DIRECTORY 32) 0 0 0 6 (units_of_string "sub").

(** The payload of a read that reports one rename: the entry for the old
    name, padded to a four-byte boundary, then the entry for the new name. *)
Definition rename_old_event : FILE_NOTIFY_EXTENDED_INFORMATION.t :=
  FILE_NOTIFY_EXTENDED_INFORMATION.mk 96 FILE_ACTION_RENAMED_OLD_NAME 11 12 13 14 4096 5 32
    0 0 0 10 (units_of_string "a.txt").
Definition rename_new_event : FILE_NOTIFY_EXTENDED_INFORMATION.t :=
  FILE_NOTIFY_EXTENDED_INFORMATION.mk 0 FILE_ACTION_RENAMED_NEW_NAME 11 12 13 14 4096 5 32
    0 0 0 10 (units_of_string "b.txt").
Definition rename_payload : list Byte.byte :=
  entry_bytes 96 FILE_ACTION_RENAMED_OLD_NAME 32 5 (units_of_string "a.txt")
  ++ [Byte.x00; Byte.x00]
  ++ entry_bytes 0 FILE_ACTION_RENAMED_NEW_NAME 32 5 (units_of_string "b.txt").

(** The watcher of [two_watches_state] once [ShutDown] has run and the
    worker thread has executed the completion of both cancelled reads. *)
Definition drained_state : State :=
  state_after (ShutDown ;;; complete_all ERROR_OPERATION_ABORTED [1000; 2000])
    two_watches_state.

(** A watcher that watches a directory whose wide path has 799 units, with
    the first read armed and the termination flag unset. *)
Definition long_watch_state : State :=
  state_after (Initialize 77 ;;;
               AddDirectory long_directory 1000 55 (Some (take 799 long_directory))
                 true 256 ;;;
               ThreadAddDirectoryProc 1000) blank_state.
Section QueueFacts.
Import ThreadSafeQueue QueueModel.

Lemma in_s32_true (z : Z) : INT32_MIN <= z <= INT32_MAX -> in_s32 z = true.
Proof. unfold in_s32. intros [H1 H2]. apply andb_true_intro. split; lia. Qed.

Lemma s32_ok {S} (z : Z) (s : S) : INT32_MIN <= z <= INT32_MAX -> s32 z s = Ok z s.
Proof. intros H. unfold s32. now rewrite in_s32_true. Qed.

Lemma s32_rem_ok {S} (a b : Z) (s : S) :
  0 <= a -> 0 < b -> a <= INT32_MAX -> s32_rem a b s = Ok (a mod b) s.
Proof.
  intros Ha Hb Hmax. unfold s32_rem.
  destruct (Z.eqb_spec b 0) as [->|_]; [lia|].
  rewrite Z.rem_mod_nonneg by lia.
  apply s32_ok. pose proof (Z.mod_pos_bound a b Hb).
  unfold INT32_MIN. pose proof (Z.mod_le a b Ha Hb). lia.
Qed.

Lemma mod_small_or_wrap (x c : Z) :
  0 <= x < 2 * c -> x mod c = if x <? c then x else x - c.
Proof.
  intros H. destruct (Z.ltb_spec x c).
  - apply Z.mod_small. lia.
  - replace x with ((x - c) + 1 * c) at 1 by lia.
    rewrite Z.mod_add by lia. apply Z.mod_small. lia.
Qed.

(** Cell [i] of the unrolled reading is the array cell at
    [(front_index + i) mod capacity]. *)
Lemma unrolled_lookup (q : ThreadSafeQueue) (i : nat) :
  shape q -> Z.of_nat i < capacity q ->
  unrolled q !! i = cells q !! Z.to_nat ((front_index q + Z.of_nat i) mod capacity q).
Proof.
  intros [[cs [Hd Hlen]] Hcap Hcnt Hfr] Hi. unfold unrolled, cells. rewrite Hd. simpl.
  rewrite mod_small_or_wrap by lia.
  destruct (Z.ltb_spec (front_index q + Z.of_nat i) (capacity q)).
  - rewrite lookup_app_l by (rewrite length_drop; lia).
    rewrite lookup_drop. f_equal. lia.
  - rewrite lookup_app_r by (rewrite length_drop; lia).
    rewrite length_drop. rewrite lookup_take_lt by lia. f_equal. lia.
Qed.

Lemma unrolled_length (q : ThreadSafeQueue) :
  shape q -> Z.of_nat (length (unrolled q)) = capacity q.
Proof.
  intros [[cs [Hd Hlen]] Hcap Hcnt Hfr]. unfold unrolled, cells. rewrite Hd. simpl.
  rewrite length_app, length_drop, length_take. lia.
Qed.

Lemma holds_length (q : ThreadSafeQueue) (l : list FileChange) :
  holds q l -> Z.of_nat (length l) = count q.
Proof.
  intros (_ & Hs & Hl). pose proof (unrolled_length q Hs) as Hu.
  apply (f_equal length) in Hl. unfold live in Hl.
  rewrite length_take, length_map in Hl. destruct Hs. lia.
Qed.

(** Record [i] of the content sits in the array cell
    [(front_index + i) mod capacity]. *)
Lemma holds_lookup (q : ThreadSafeQueue) (l : list FileChange) (i : nat) (x : FileChange) :
  holds q l -> l !! i = Some x ->
  cells q !! Z.to_nat ((front_index q + Z.of_nat i) mod capacity q) = Some (Some x).
Proof.
  intros Hh Hx. pose proof (holds_length q l Hh) as Hlen.
  destruct Hh as (_ & Hs & Hl). pose proof Hs as [_ Hcap Hcnt Hfr].
  pose proof (lookup_lt_Some _ _ _ Hx) as Hi.
  rewrite <- unrolled_lookup by (auto; lia).
  apply (f_equal (fun m => m !! i)) in Hl. unfold live in Hl.
  rewrite lookup_take_lt in Hl by lia.
  rewrite Hl, list_lookup_fmap, Hx. reflexivity.
Qed.
End QueueFacts.

Section GrowFacts.
Import ThreadSafeQueue QueueModel.

Lemma CopyMemory_ok (dst : list (option FileChange)) (doff : Z)
      (src : list (option FileChange)) (soff n : Z) :
  0 <= n -> 0 <= doff -> 0 <= soff ->
  soff + n <= Z.of_nat (length src) -> doff + n <= Z.of_nat (length dst) ->
  CopyMemory dst doff src soff n =
  Some (take (Z.to_nat doff) dst ++ take (Z.to_nat n) (drop (Z.to_nat soff) src)
        ++ drop (Z.to_nat (doff + n)) dst).
Proof.
  intros. unfold CopyMemory.
  rewrite !andb_true_intro; [reflexivity|..]; repeat split; lia.
Qed.

Lemma Grow_spec (q : ThreadSafeQueue) :
  shape q -> capacity q * GrowRate <= MAX_CAPACITY ->
  Grow q = Ok tt (mk (lock q)
                     (Some (live q ++ replicate (Z.to_nat (capacity q * GrowRate - count q)) None))
                     (capacity q * GrowRate) (count q) 0).
Proof.
  intros [[cs [Hd Hlen]] Hcap Hcnt Hfr] Hmax.
  destruct q as [lk d cap cnt fr]; simpl in *. subst d.
  unfold live, unrolled, cells, GrowRate in *. simpl.
  unfold Grow, bind, get, assert, from_option, ret, put. simpl.
  destruct (Z.eqb_spec cap 0) as [?|_]; [lia|]. simpl.
  unfold MAX_CAPACITY in *.
  rewrite !s32_ok by (unfold INT32_MAX, INT32_MIN, GrowRate; lia).
  unfold malloc, GrowRate.
  destruct (Z.gtb_spec (fr + cnt) cap) as [Hwrap|Hflat].
  - rewrite !s32_ok by (unfold INT32_MAX, INT32_MIN; lia).
    rewrite CopyMemory_ok by (rewrite ?length_replicate; lia).
    rewrite CopyMemory_ok; cycle 1; try lia.
    { repeat (rewrite length_app || rewrite length_take || rewrite length_drop
              || rewrite length_replicate). lia. }
    do 3 f_equal.
    change (Z.to_nat 0) with 0%nat. rewrite take_0, drop_0. simpl app.
    replace (0 + (cap - fr)) with (cap - fr) by lia.
    remember (drop (Z.to_nat fr) cs) as D eqn:HeqD.
    assert (HD : length D = Z.to_nat (cap - fr)) by (subst D; rewrite length_drop; lia).
    rewrite (take_ge D) by lia.
    rewrite take_app_length' by lia.
    rewrite drop_app_ge by lia. rewrite drop_drop, drop_replicate.
    rewrite take_app_ge by lia. rewrite take_take.
    rewrite <- app_assoc. f_equal. f_equal; f_equal; lia.
  - rewrite CopyMemory_ok by (rewrite ?length_replicate; lia).
    do 3 f_equal. simpl.
    rewrite take_app_le by (rewrite length_drop; lia).
    f_equal. rewrite drop_replicate. f_equal. lia.
Qed.


Lemma grown_shape (q : ThreadSafeQueue) :
  shape q -> capacity q * GrowRate <= MAX_CAPACITY -> shape (grown q).
Proof.
  intros Hs Hmax. pose proof (unrolled_length q Hs) as Hu.
  destruct Hs as [[cs [Hd Hlen]] Hcap Hcnt Hfr]. unfold GrowRate in *.
  split; simpl; unfold GrowRate; try lia.
  eexists; split; [reflexivity|].
  unfold live. rewrite length_app, length_take, length_replicate. lia.
Qed.

Lemma grown_live (q : ThreadSafeQueue) :
  shape q -> live (grown q) = live q.
Proof.
  intros Hs. pose proof (unrolled_length q Hs) as Hu. destruct Hs as [_ Hcap Hcnt Hfr].
  unfold live at 1, unrolled, cells, grown. simpl.
  change (Z.to_nat 0) with 0%nat. rewrite drop_0, take_0, app_nil_r.
  rewrite take_app_length'; [reflexivity|].
  unfold live. rewrite length_take. lia.
Qed.

Lemma pushed_shape (x : FileChange) (q : ThreadSafeQueue) :
  shape q -> count q < capacity q -> shape (pushed x q).
Proof.
  intros [[cs [Hd Hlen]] Hcap Hcnt Hfr] Hlt.
  split; simpl; try lia.
  eexists; split; [reflexivity|]. unfold cells. rewrite Hd. simpl.
  rewrite length_insert. lia.
Qed.

Lemma pushed_live (x : FileChange) (q : ThreadSafeQueue) (l : list FileChange) :
  shape q -> count q < capacity q -> live q = map Some l ->
  live (pushed x q) = map Some (l ++ [x]).
Proof.
  intros Hs Hlt Hl.
  pose proof (pushed_shape x q Hs Hlt) as Hs'.
  pose proof (unrolled_length q Hs) as Hu.
  assert (Hlen : Z.of_nat (length l) = count q).
  { apply (f_equal length) in Hl. unfold live in Hl.
    rewrite length_take, length_map in Hl. destruct Hs. lia. }
  destruct Hs as [[cs [Hd Hcs]] Hcap Hcnt Hfr].
  apply list_eq. intros i. unfold live at 1.
  destruct (decide (Z.of_nat i < count q + 1)) as [Hi|Hi].
  - rewrite lookup_take_lt by (simpl; lia).
    rewrite unrolled_lookup by (simpl; auto; lia). simpl.
    unfold cells at 1. simpl.
    destruct (decide (Z.of_nat i = count q)) as [Heq|Hne].
    + rewrite Heq. rewrite list_lookup_insert_eq.
      * rewrite map_app. rewrite lookup_app_r by (rewrite length_map; lia).
        rewrite length_map. replace (i - length l)%nat with 0%nat by lia. reflexivity.
      * unfold cells. rewrite Hd. simpl.
        pose proof (Z.mod_pos_bound (front_index q + count q) (capacity q)). lia.
    + rewrite list_lookup_insert_ne.
      * rewrite map_app, lookup_app_l by (rewrite length_map; lia).
        rewrite <- Hl. unfold live. rewrite lookup_take_lt by lia.
        rewrite unrolled_lookup; [reflexivity| |lia].
        split; eauto.
      * rewrite !mod_small_or_wrap by lia.
        destruct (Z.ltb_spec (front_index q + count q) (capacity q));
          destruct (Z.ltb_spec (front_index q + Z.of_nat i) (capacity q)); lia.
  - rewrite lookup_take_ge by (simpl; lia).
    symmetry. apply lookup_ge_None. rewrite length_map, length_app. simpl. lia.
Qed.

Lemma shape_set_lock (v : Z) (q : ThreadSafeQueue) : shape q -> shape (set_lock v q).
Proof. intros [? ? ? ?]. split; simpl; auto. Qed.

Lemma store_ok (i : Z) (x : FileChange) (q : ThreadSafeQueue) :
  shape q -> 0 <= i < capacity q ->
  store i x q = Ok tt (set_data (Some (<[Z.to_nat i := Some x]> (cells q))) q).
Proof.
  intros [[cs [Hd Hlen]] _ _ _] Hi. unfold store, bind, get, from_option, cells.
  rewrite Hd. simpl.
  destruct (Z.leb_spec 0 i); [|lia]. destruct (Z.ltb_spec i (Z.of_nat (length cs))); [|lia].
  reflexivity.
Qed.

(** [Push] without growth. *)
Lemma Push_room (x : FileChange) (q : ThreadSafeQueue) :
  lock q = 0 -> shape q -> count q < capacity q ->
  Push x q = Ok tt (pushed x q).
Proof.
  intros Hlock Hs Hlt. pose proof Hs as [_ Hcap Hcnt Hfr].
  unfold Push, Lock, bind, get, ret. rewrite Hlock. unfold put. simpl. set (q1 := set_lock 1 q). assert (Hq1 : front_index q1 = front_index q /\ count q1 = count q /\ capacity q1 = capacity q) by auto. destruct Hq1 as (Hq1f & Hq1c & Hq1k). rewrite ?Hq1f, ?Hq1c, ?Hq1k.
  destruct (Z.eqb_spec (count q) (capacity q)) as [?|_]; [lia|].
  unfold MAX_CAPACITY in *.
  rewrite s32_ok by (unfold INT32_MAX, INT32_MIN; lia).
  rewrite s32_rem_ok by (unfold INT32_MAX; lia).
  rewrite store_ok; cycle 1.
  { apply shape_set_lock, Hs. }
  { simpl. apply Z.mod_pos_bound. lia. }
  rewrite s32_ok by (unfold INT32_MAX, INT32_MIN; lia).
  reflexivity.
Qed.

(** [Push] on a full queue: grow, then insert. *)
Lemma Push_full (x : FileChange) (q : ThreadSafeQueue) :
  lock q = 0 -> shape q -> count q = capacity q ->
  capacity q * GrowRate <= MAX_CAPACITY ->
  Push x q = Ok tt (pushed x (grown q)).
Proof.
  intros Hlock Hs Hfull Hmax. pose proof Hs as [_ Hcap Hcnt Hfr].
  pose proof (grown_shape _ (shape_set_lock 1 q Hs) Hmax) as Hg.
  unfold Push, Lock, bind, get, ret. rewrite Hlock. unfold put. simpl. set (q1 := set_lock 1 q). assert (Hq1 : front_index q1 = front_index q /\ count q1 = count q /\ capacity q1 = capacity q) by auto. destruct Hq1 as (Hq1f & Hq1c & Hq1k). rewrite ?Hq1f, ?Hq1c, ?Hq1k.
  destruct (Z.eqb_spec (count q) (capacity q)) as [_|?]; [|lia].
  rewrite Grow_spec; [|apply shape_set_lock, Hs|exact Hmax].
  fold (grown q1).
  change (front_index (grown q1)) with 0.
  change (count (grown q1)) with (count q).
  change (capacity (grown q1)) with (capacity q * GrowRate).
  unfold MAX_CAPACITY, GrowRate in *.
  rewrite s32_ok by (unfold INT32_MAX, INT32_MIN; lia).
  rewrite s32_rem_ok by (unfold INT32_MAX; lia).
  rewrite store_ok; cycle 1.
  { exact Hg. }
  { simpl. apply Z.mod_pos_bound. unfold GrowRate. lia. }
  rewrite s32_ok by (unfold INT32_MAX, INT32_MIN; lia).
  reflexivity.
Qed.
End GrowFacts.

Section PopFacts.
Import ThreadSafeQueue QueueModel.


Lemma load_ok (i : Z) (x : FileChange) (q : ThreadSafeQueue) :
  shape q -> 0 <= i < capacity q -> cells q !! Z.to_nat i = Some (Some x) ->
  load i q = Ok x q.
Proof.
  intros [[cs [Hd Hlen]] _ _ _] Hi. unfold load, bind, get, from_option, cells.
  rewrite Hd. simpl. intros Hx.
  destruct (Z.leb_spec 0 i); [|lia]. destruct (Z.ltb_spec i (Z.of_nat (length cs))); [|lia].
  simpl. rewrite Hx. reflexivity.
Qed.

Lemma front_cell (q : ThreadSafeQueue) (x : FileChange) (rest : list FileChange) :
  shape q -> live q = map Some (x :: rest) ->
  0 < count q /\ cells q !! Z.to_nat (front_index q) = Some (Some x).
Proof.
  intros Hs Hl. pose proof (unrolled_length q Hs) as Hu.
  assert (Hpos : 0 < count q).
  { apply (f_equal length) in Hl. unfold live in Hl.
    rewrite length_take in Hl. simpl in Hl. lia. }
  split; [exact Hpos|].
  apply (f_equal (fun l => l !! 0%nat)) in Hl. unfold live in Hl.
  rewrite lookup_take_lt in Hl by lia.
  pose proof Hs as [_ Hcap Hcnt Hfr].
  rewrite unrolled_lookup in Hl by (auto; lia).
  change (Z.of_nat 0) with 0 in Hl.
  rewrite Z.add_0_r in Hl. rewrite Z.mod_small in Hl by lia.
  exact Hl.
Qed.

Lemma popped_shape (q : ThreadSafeQueue) :
  shape q -> 0 < count q -> shape (popped q).
Proof.
  intros [Hd Hcap Hcnt Hfr] Hpos. split; simpl; try lia; auto.
  apply Z.mod_pos_bound. lia.
Qed.

Lemma popped_live (q : ThreadSafeQueue) (x : FileChange) (rest : list FileChange) :
  shape q -> live q = map Some (x :: rest) -> live (popped q) = map Some rest.
Proof.
  intros Hs Hl. destruct (front_cell q x rest Hs Hl) as [Hpos _].
  pose proof (popped_shape q Hs Hpos) as Hs'.
  pose proof (unrolled_length q Hs) as Hu.
  assert (Hlen : Z.of_nat (length rest) = count q - 1).
  { apply (f_equal length) in Hl. unfold live in Hl.
    rewrite length_take in Hl. simpl in Hl. rewrite length_map in Hl.
    destruct Hs. lia. }
  pose proof Hs as [_ Hcap Hcnt Hfr].
  apply list_eq. intros i. unfold live at 1.
  destruct (decide (Z.of_nat i < count q - 1)) as [Hi|Hi].
  - rewrite lookup_take_lt by (simpl; lia).
    rewrite unrolled_lookup by (simpl; auto; lia). simpl.
    rewrite Zplus_mod_idemp_l.
    replace (front_index q + 1 + Z.of_nat i) with (front_index q + Z.of_nat (S i)) by lia.
    change (cells (popped q)) with (cells q).
    rewrite <- unrolled_lookup by (auto; lia).
    apply (f_equal (fun l => l !! S i)) in Hl. unfold live in Hl.
    rewrite lookup_take_lt in Hl by lia. exact Hl.
  - rewrite lookup_take_ge by (simpl; lia).
    symmetry. apply lookup_ge_None. rewrite length_map. lia.
Qed.

Lemma unlock_relock (q : ThreadSafeQueue) : lock q = 0 -> set_lock 0 (set_lock 1 q) = q.
Proof. destruct q; simpl; intros ->; reflexivity. Qed.

(** [Pop] on an empty queue. *)
Lemma Pop_empty (q : ThreadSafeQueue) :
  lock q = 0 -> count q = 0 -> Pop q = Ok None q.
Proof.
  intros Hlock Hc. unfold Pop, Lock, bind, get, ret, put. rewrite Hlock. simpl.
  rewrite Hc. simpl. unfold Unlock, modify. rewrite unlock_relock by exact Hlock.
  reflexivity.
Qed.

(** [Pop] on a queue holding only a rename-from record. *)
Lemma Pop_split_rename (q : ThreadSafeQueue) (x : FileChange) :
  lock q = 0 -> shape q -> live q = [Some x] ->
  FileChange.action x = RenamedFrom -> Pop q = Ok None q.
Proof.
  intros Hlock Hs Hl Hx.
  destruct (front_cell q x [] Hs Hl) as [Hpos Hfront].
  assert (Hc : count q = 1).
  { pose proof (unrolled_length q Hs). apply (f_equal length) in Hl. unfold live in Hl.
    rewrite length_take in Hl. simpl in Hl. destruct Hs. lia. }
  unfold Pop, Lock, bind, get, ret, put. rewrite Hlock. simpl. rewrite Hc. simpl.
  rewrite (load_ok _ x) by (auto using shape_set_lock; destruct Hs; simpl; lia).
  rewrite bool_decide_eq_true_2 by exact Hx. simpl.
  unfold Unlock, modify. rewrite unlock_relock by exact Hlock. reflexivity.
Qed.

(** [Pop] in every other state hands out the front record. *)
Lemma Pop_front (q : ThreadSafeQueue) (x : FileChange) (rest : list FileChange) :
  lock q = 0 -> shape q -> live q = map Some (x :: rest) ->
  rest <> [] \/ FileChange.action x <> RenamedFrom ->
  Pop q = Ok (Some x) (popped q).
Proof.
  intros Hlock Hs Hl Hcase.
  destruct (front_cell q x rest Hs Hl) as [Hpos Hfront].
  pose proof Hs as [_ Hcap Hcnt Hfr].
  assert (Hlen : Z.of_nat (length rest) = count q - 1).
  { pose proof (unrolled_length q Hs). apply (f_equal length) in Hl. unfold live in Hl.
    rewrite length_take in Hl. simpl in Hl. rewrite length_map in Hl. lia. }
  assert (Hload : load (front_index q) (set_lock 1 q) = Ok x (set_lock 1 q)).
  { apply load_ok; auto using shape_set_lock. }
  unfold popped. clear Hs Hfront Hl.
  destruct q as [lk d cap cnt fr]. simpl in *. subst lk.
  unfold Pop, Lock, bind, get, ret, put. simpl. unfold set_lock in *. simpl in *.
  assert (Hsplit : forall b, (cnt =? 1) = true ->
             b = bool_decide (FileChange.action x = RenamedFrom) -> b = false).
  { intros b H1 ->. apply Z.eqb_eq in H1. destruct Hcase as [Hne|Hne].
    - destruct rest; [congruence|]. simpl in Hlen. lia.
    - apply bool_decide_eq_false_2. exact Hne. }
  destruct (cnt =? 1) eqn:H1.
  - rewrite Hload. rewrite (Hsplit _ eq_refl eq_refl).
    destruct (Z.eqb_spec cnt 0) as [?|_]; [lia|]. simpl.
    rewrite Hload. unfold MAX_CAPACITY in *.
    rewrite !s32_ok by (unfold INT32_MAX, INT32_MIN; lia).
    rewrite s32_rem_ok by (unfold INT32_MAX; lia).
    reflexivity.
  - destruct (Z.eqb_spec cnt 0) as [?|_]; [lia|]. simpl.
    rewrite Hload. unfold MAX_CAPACITY in *.
    rewrite !s32_ok by (unfold INT32_MAX, INT32_MIN; lia).
    rewrite s32_rem_ok by (unfold INT32_MAX; lia).
    reflexivity.
Qed.
End PopFacts.


Section QueueSteps.
Import ThreadSafeQueue QueueModel.

Lemma Push_holds (x : FileChange) (q : ThreadSafeQueue) (l : list FileChange) :
  holds q l ->
  count q < capacity q \/ capacity q * GrowRate <= MAX_CAPACITY ->
  exists q', Push x q = Ok tt q' /\ holds q' (l ++ [x]) /\
             count q' = count q + 1 /\
             capacity q' = (if count q =? capacity q then capacity q * GrowRate
                            else capacity q).
Proof.
  intros (Hlock & Hs & Hl) Hroom. pose proof Hs as [_ Hcap Hcnt Hfr].
  destruct (decide (count q = capacity q)) as [Hfull|Hne].
  - assert (Hmax : capacity q * GrowRate <= MAX_CAPACITY) by (destruct Hroom; [lia|auto]).
    exists (pushed x (grown q)). split; [apply Push_full; auto|].
    pose proof (grown_shape q Hs Hmax) as Hg.
    assert (Hlt : count (grown q) < capacity (grown q)) by (simpl; unfold GrowRate; lia).
    unfold holds. split_and!; auto.
    + apply pushed_shape; auto.
    + apply pushed_live; auto. rewrite grown_live; auto.
    + simpl. destruct (Z.eqb_spec (count q) (capacity q)); [reflexivity|lia].
  - assert (Hlt : count q < capacity q) by lia.
    exists (pushed x q). split; [apply Push_room; auto|].
    unfold holds. split_and!; auto.
    + apply pushed_shape; auto.
    + apply pushed_live; auto.
    + simpl. destruct (Z.eqb_spec (count q) (capacity q)); [lia|reflexivity].
Qed.

Lemma Pop_holds (q : ThreadSafeQueue) (l : list FileChange) :
  holds q l ->
  exists q', Pop q = Ok (pop_ref l).1 q' /\ holds q' (pop_ref l).2 /\
             capacity q' = capacity q /\
             count q' = count q - Z.of_nat (length (delivered [(pop_ref l).1])).
Proof.
  intros Hh. pose proof (holds_length q l Hh) as Hlen.
  destruct Hh as (Hlock & Hs & Hl).
  destruct l as [|x rest].
  - exists q. simpl in *. split; [apply Pop_empty; auto; lia|].
    unfold holds. split_and!; auto; simpl; lia.
  - destruct (decide (rest = [] /\ FileChange.action x = RenamedFrom)) as [[-> Hx]|Hother].
    + exists q. simpl. rewrite bool_decide_eq_true_2 by exact Hx. simpl.
      split; [eapply Pop_split_rename; eauto|]. unfold holds. split_and!; auto; simpl; lia.
    + assert (Hcase : rest <> [] \/ FileChange.action x <> RenamedFrom).
      { destruct rest; [right|left]; [|discriminate]. intros Hx. apply Hother. auto. }
      assert (Hres : pop_ref (x :: rest) = (Some x, rest)).
      { simpl. destruct rest; [|reflexivity].
        destruct Hcase as [?|Hne]; [congruence|].
        rewrite bool_decide_eq_false_2 by exact Hne. reflexivity. }
      rewrite Hres. simpl. exists (popped q).
      destruct (front_cell q x rest Hs Hl) as [Hpos _].
      split; [apply (Pop_front q x rest); auto|].
      unfold holds. split_and!; auto.
      * apply popped_shape; auto.
      * eapply popped_live; eauto.
Qed.
End QueueSteps.

Section QueueTheorems.
Import ThreadSafeQueue QueueModel.

Lemma pushes_app_assoc (l : list FileChange) (x : FileChange) (rest : list FileChange) :
  (l ++ [x]) ++ rest = l ++ x :: rest.
Proof. rewrite <- app_assoc. reflexivity. Qed.

Lemma run_fifo (ops : list QueueOp) :
  forall (q : ThreadSafeQueue) (l : list FileChange),
    holds q l ->
    2 * (count q + Z.of_nat (length (pushed_records ops))) <= MAX_CAPACITY ->
    exists outs q' rest,
      run ops q = Ok outs q' /\ holds q' rest /\
      delivered outs ++ rest = l ++ pushed_records ops /\
      capacity q <= capacity q'.
Proof.
  induction ops as [|[x|] ops IH]; intros q l Hh Hbound.
  - exists [], q, l. simpl. rewrite app_nil_r. split_and!; auto. lia.
  - simpl in Hbound.
    destruct (Push_holds x q l Hh) as (q1 & Hpush & Hh1 & Hc1 & Hk1).
    { destruct Hh as (_ & [_ ? ? ?] & _). unfold GrowRate.
      destruct (decide (count q < capacity q)); [left; auto|right; lia]. }
    destruct (IH q1 (l ++ [x]) Hh1) as (outs & q' & rest & Hrun & Hh' & Hfifo & Hcap).
    { lia. }
    exists outs, q', rest. simpl. unfold bind. rewrite Hpush.
    split_and!; auto.
    + rewrite Hfifo. apply pushes_app_assoc.
    + destruct Hh as (_ & [_ ? ? ?] & _). unfold GrowRate in Hk1.
      destruct (count q =? capacity q); lia.
  - destruct (Pop_holds q l Hh) as (q1 & Hpop & Hh1 & Hk1 & Hc1).
    destruct (IH q1 (pop_ref l).2 Hh1) as (outs & q' & rest & Hrun & Hh' & Hfifo & Hcap).
    { simpl in Hbound |- *. lia. }
    assert (Hsplit : delivered [(pop_ref l).1] ++ (pop_ref l).2 = l).
    { destruct l as [|x [|y l]]; simpl; auto. destruct (bool_decide _); reflexivity. }
    exists ((pop_ref l).1 :: outs), q', rest. split_and!; auto; [| |lia].
    + simpl. unfold bind. rewrite Hpop, Hrun. reflexivity.
    + change ((pop_ref l).1 :: outs) with ([(pop_ref l).1] ++ outs).
      unfold delivered in *. rewrite omap_app, <- app_assoc, Hfifo, app_assoc, Hsplit.
      reflexivity.
Qed.

(** The queue held by a state is determined by the state. *)
Lemma holds_unique (q : ThreadSafeQueue) (l1 l2 : list FileChange) :
  holds q l1 -> holds q l2 -> l1 = l2.
Proof.
  intros (_ & _ & H1) (_ & _ & H2). rewrite H1 in H2. clear H1.
  revert l2 H2. induction l1 as [|x l1 IH]; intros [|y l2] H2; try discriminate H2.
  - reflexivity.
  - simpl in H2. injection H2 as -> H2. f_equal. apply IH. exact H2.
Qed.

(** Every run on the array implements the same run on a list. *)
Lemma run_refines (ops : list QueueOp) :
  forall (q : ThreadSafeQueue) (l : list FileChange),
    holds q l ->
    2 * (count q + Z.of_nat (length (pushed_records ops))) <= MAX_CAPACITY ->
    exists q', run ops q = Ok (run_ref ops l).1 q' /\ holds q' (run_ref ops l).2.
Proof.
  induction ops as [|[x|] ops IH]; intros q l Hh Hbound.
  - exists q. split; [reflexivity|exact Hh].
  - simpl in Hbound.
    destruct (Push_holds x q l Hh) as (q1 & Hpush & Hh1 & Hc1 & Hk1).
    { destruct Hh as (_ & [_ ? ? ?] & _). unfold GrowRate.
      destruct (decide (count q < capacity q)); [left; auto|right; lia]. }
    destruct (IH q1 (l ++ [x]) Hh1) as (q' & Hrun & Hh'); [lia|].
    exists q'. cbn [run run_ref]. unfold bind. rewrite Hpush. auto.
  - destruct (Pop_holds q l Hh) as (q1 & Hpop & Hh1 & Hk1 & Hc1).
    destruct (IH q1 (pop_ref l).2 Hh1) as (q' & Hrun & Hh').
    { simpl in Hbound |- *. lia. }
    exists q'. cbn [run run_ref]. unfold bind. rewrite Hpop, Hrun. auto.
Qed.

(** C1.  Starting from any well-formed queue holding [l], every sequence of
    [Push] and [Pop] calls runs to completion and behaves as the same
    sequence on a first-in first-out list: every [Pop] returns what taking
    the head of the list returns, so the front record whenever there is one
    (a lone rename-from record apart), and therefore records leave in the
    order in which they were pushed.  The records the successful [Pop]s
    handed out, followed by the records still queued, are exactly [l]
    followed by the records pushed, in push order; capacity never shrinks,
    [0 <= count <= capacity] still holds afterwards, and record [i] of what
    is queued sits in the cell [(front_index + i) mod capacity].  When the
    queue is full, [Grow] doubles the capacity, resets [front_index] to 0 and
    fills the new array with exactly the [count] live records in logical
    order (whether or not the live range wrapped), the remaining cells
    staying indeterminate. *)
Theorem queue_fifo_across_growth
        (q : ThreadSafeQueue) (l : list FileChange) (ops : list QueueOp) :
  holds q l ->
  2 * (count q + Z.of_nat (length (pushed_records ops))) <= MAX_CAPACITY ->
  (exists outs q' rest,
      run ops q = Ok outs q' /\ holds q' rest /\
      outs = (run_ref ops l).1 /\ rest = (run_ref ops l).2 /\
      delivered outs ++ rest = l ++ pushed_records ops /\
      capacity q <= capacity q' /\ 0 <= count q' <= capacity q' /\
      (forall (i : nat) (x : FileChange),
          rest !! i = Some x ->
          cells q' !! Z.to_nat ((front_index q' + Z.of_nat i) mod capacity q')
          = Some (Some x))) /\
  (forall (x : FileChange) (behind : list FileChange),
      l = x :: behind ->
      behind <> [] \/ FileChange.action x <> RenamedFrom ->
      exists q1, Pop q = Ok (Some x) q1 /\ holds q1 behind) /\
  (count q = capacity q ->
   exists g,
     Grow (set_lock 1 q) = Ok tt g /\
     capacity g = GrowRate * capacity q /\ front_index g = 0 /\ count g = count q /\
     data g = Some (map Some l ++ replicate (Z.to_nat (capacity g - count q)) None) /\
     live g = map Some l).
Proof.
  intros Hh Hbound. split; [|split].
  - destruct (run_fifo ops q l Hh Hbound) as (outs & q' & rest & Hrun & Hh' & Hfifo & Hcap).
    destruct (run_refines ops q l Hh Hbound) as (q2 & Hrun2 & Hh2).
    rewrite Hrun in Hrun2. injection Hrun2 as Houts Hq. subst q2.
    pose proof (holds_unique q' _ _ Hh' Hh2) as Hrest.
    exists outs, q', rest. split_and!; auto.
    + destruct Hh' as (_ & [_ ? ? ?] & ?). lia.
    + destruct Hh' as (_ & [_ ? ? ?] & ?). lia.
    + intros i x Hx. eapply holds_lookup; [exact Hh'|exact Hx].
  - intros x behind -> Hcase.
    destruct (Pop_holds q (x :: behind) Hh) as (q1 & Hpop & Hh1 & _).
    assert (Hres : pop_ref (x :: behind) = (Some x, behind)).
    { destruct behind as [|y behind]; [|reflexivity]. simpl.
      destruct Hcase as [Hne|Hact]; [congruence|].
      rewrite bool_decide_eq_false_2 by exact Hact. reflexivity. }
    rewrite Hres in Hpop, Hh1. exists q1. auto.
  - intros Hfull. destruct Hh as (Hlock & Hs & Hl). pose proof Hs as [_ Hcap Hcnt Hfr].
    assert (Hmax : capacity q * GrowRate <= MAX_CAPACITY) by (unfold GrowRate; lia).
    exists (grown (set_lock 1 q)).
    split; [apply Grow_spec; auto using shape_set_lock|].
    split_and!.
    + simpl. lia.
    + reflexivity.
    + reflexivity.
    + simpl. change (live (set_lock 1 q)) with (live q). rewrite Hl. reflexivity.
    + rewrite grown_live by auto using shape_set_lock. exact Hl.
Qed.

(** C2.  [Pop] returns false exactly when the queue is empty or holds a
    single record whose action is [RenamedFrom], and then leaves the queue
    as it was; in every other state it returns true with the front record
    and keeps the rest.  Once a second record is pushed behind a withheld
    [RenamedFrom], the next [Pop] succeeds and returns that [RenamedFrom]. *)
Theorem Pop_withholds_lone_rename (q : ThreadSafeQueue) (l : list FileChange) :
  holds q l ->
  (exists r q',
      Pop q = Ok r q' /\
      (r = None <->
       count q = 0 \/
       (count q = 1 /\ exists x, l !! 0%nat = Some x /\ FileChange.action x = RenamedFrom)) /\
      (r = None -> q' = q) /\
      (forall x, r = Some x -> l !! 0%nat = Some x /\ holds q' (tail l))) /\
  (forall x y, l = [x] -> FileChange.action x = RenamedFrom ->
     Pop q = Ok None q /\
     exists q1 q2, Push y q = Ok tt q1 /\ Pop q1 = Ok (Some x) q2 /\ holds q2 [y]).
Proof.
  intros Hh. pose proof (holds_length q l Hh) as Hlen.
  pose proof Hh as (Hlock & Hs & Hl). split.
  - destruct l as [|x rest].
    + exists None, q. simpl in Hlen. split; [apply Pop_empty; auto; lia|].
      split_and!; [|reflexivity|discriminate]. split; auto; lia.
    + destruct (decide (rest = [] /\ FileChange.action x = RenamedFrom)) as [[-> Hx]|Hother].
      * exists None, q. split; [eapply Pop_split_rename; eauto|].
        split_and!; [|reflexivity|discriminate]. split; auto. intros _. right.
        split; [simpl in Hlen; lia|]. exists x. auto.
      * assert (Hcase : rest <> [] \/ FileChange.action x <> RenamedFrom).
        { destruct rest; [right|left]; [|discriminate]. intros Hx. apply Hother. auto. }
        destruct (front_cell q x rest Hs Hl) as [Hpos _].
        exists (Some x), (popped q). split; [apply (Pop_front q x rest); auto|].
        split_and!.
        -- split; [discriminate|]. intros [H0|(H1 & y & Hy & Hact)]; [lia|].
           simpl in Hy. injection Hy as <-. exfalso. apply Hother. split; auto.
           destruct rest; [reflexivity|]. simpl in Hlen. lia.
        -- discriminate.
        -- intros y [= <-]. split; [reflexivity|]. simpl. unfold holds. split_and!; auto.
           ++ apply popped_shape; auto.
           ++ eapply popped_live; eauto.
  - intros x y -> Hx. split; [eapply Pop_split_rename; eauto|].
    destruct (Push_holds y q [x] Hh) as (q1 & Hpush & Hh1 & _ & _).
    { simpl in Hlen. destruct Hs as [_ ? ? ?]. unfold GrowRate, MAX_CAPACITY in *.
      destruct (decide (count q < capacity q)); [left; auto|right; lia]. }
    destruct (Pop_holds q1 ([x] ++ [y]) Hh1) as (q2 & Hpop & Hh2 & _ & _).
    exists q1, q2. auto.
Qed.
End QueueTheorems.

(** ** Facts about the monad *)

Section MonadFacts.
Context {S : Type}.

Lemma bind_Ok {A B} (c : M S A) (k : A -> M S B) (s s' : S) (b : B) :
  bind c k s = Ok b s' -> exists a s1, c s = Ok a s1 /\ k a s1 = Ok b s'.
Proof. unfold bind. destruct (c s) as [a s1|f]; [eauto|discriminate]. Qed.

Lemma from_option_Ok {A} (f : Fault) (o : option A) (s s' : S) (a : A) :
  from_option f o s = Ok a s' -> o = Some a /\ s' = s.
Proof. destruct o; simpl; unfold ret, throw; intros H; inversion H; auto. Qed.

Lemma s32_Ok (z v : Z) (s s' : S) : s32 z s = Ok v s' -> v = z /\ s' = s /\ in_s32 z = true.
Proof.
  unfold s32. destruct (in_s32 z); unfold ret, throw; intros H; inversion H; auto.
Qed.

Lemma lift_Ok {A} (c : M unit A) (s s' : S) (a : A) :
  lift c s = Ok a s' -> s' = s /\ exists u, c tt = Ok a u.
Proof. unfold lift. destruct (c tt) as [x u|f]; intros H; inversion H; eauto. Qed.

Lemma lift_ok {A} (c : M unit A) (s : S) (a : A) (u : unit) :
  c tt = Ok a u -> lift c s = Ok a s.
Proof. unfold lift. intros ->. reflexivity. Qed.
End MonadFacts.

(** Peel one [bind] off a hypothesis [bind c k s = Ok b s']. *)
Ltac inv_bind H :=
  let a := fresh "a" in
  let s1 := fresh "s" in
  let H1 := fresh H in
  apply bind_Ok in H; destruct H as (a & s1 & H1 & H).

Section DecoderFacts.
Import FILE_NOTIFY_EXTENDED_INFORMATION.

Lemma decode_action_table (code : Z) :
  decode_action code =
  match code with
  | 1 => Added | 2 => Removed | 3 => Modified | 4 => RenamedFrom | 5 => RenamedTo
  | _ => ActNone
  end.
Proof.
  unfold decode_action, FILE_ACTION_ADDED, FILE_ACTION_REMOVED, FILE_ACTION_MODIFIED,
    FILE_ACTION_RENAMED_OLD_NAME, FILE_ACTION_RENAMED_NEW_NAME.
  repeat match goal with
         | |- context [?a =? ?b] => destruct (Z.eqb_spec a b) as [->|?]; [reflexivity|]
         end.
  destruct code as [|p|p]; try reflexivity.
  do 3 (destruct p as [p|p|]; try reflexivity; try lia).
Qed.

Lemma decode_event_action (dir : list Z) (len : Z) (e : t) (c : FileChange) (u : unit) :
  decode_event dir len e tt = Ok c u ->
  FileChange.action c = decode_action (Action e) /\
  FileChange.creation_time c = CreationTime e /\
  FileChange.modification_time c = LastModificationTime e /\
  FileChange.change_time c = LastChangeTime e /\
  FileChange.access_time c = LastAccessTime e /\
  FileChange.size c = FileSize e /\
  FileChange.attributes c = FileAttributes e /\
  FileChange.is_directory c = negb (Z.land (FileAttributes e) FILE_ATTRIBUTE_DIRECTORY =? 0).
Proof.
  unfold decode_event. intros H.
  do 9 inv_bind H.
  unfold ret in H. inversion H. subst. simpl. auto 10.
Qed.
End DecoderFacts.

(** C9.  The decoder maps the native codes added, removed, modified,
    renamed-old-name and renamed-new-name to [Added], [Removed], [Modified],
    [RenamedFrom] and [RenamedTo]; every other code maps to [ActNone]; and the
    record built for an entry carries the image of that entry's code. *)
Theorem native_action_mapping :
  decode_action FILE_ACTION_ADDED = Added /\
  decode_action FILE_ACTION_REMOVED = Removed /\
  decode_action FILE_ACTION_MODIFIED = Modified /\
  decode_action FILE_ACTION_RENAMED_OLD_NAME = RenamedFrom /\
  decode_action FILE_ACTION_RENAMED_NEW_NAME = RenamedTo /\
  (forall code : Z,
      code <> FILE_ACTION_ADDED -> code <> FILE_ACTION_REMOVED ->
      code <> FILE_ACTION_MODIFIED -> code <> FILE_ACTION_RENAMED_OLD_NAME ->
      code <> FILE_ACTION_RENAMED_NEW_NAME -> decode_action code = ActNone) /\
  (forall (dir : list Z) (len : Z) (e : FILE_NOTIFY_EXTENDED_INFORMATION.t)
          (c : FileChange),
      decode_event dir len e tt = Ok c tt ->
      FileChange.action c = decode_action (FILE_NOTIFY_EXTENDED_INFORMATION.Action e)).
Proof.
  split_and!; try reflexivity.
  - intros code H1 H2 H3 H4 H5. unfold decode_action.
    repeat match goal with
           | |- context [?a =? ?b] => destruct (Z.eqb_spec a b) as [?|_]; [congruence|]
           end.
    reflexivity.
  - intros dir len e c H. apply (decode_event_action dir len e c tt H).
Qed.

Section Utf8Facts.

Lemma utf8_of_code_point_length (c : Z) :
  c < 65536 -> (length (utf8_of_code_point c) <= 3)%nat.
Proof.
  intros H. unfold utf8_of_code_point.
  repeat match goal with |- context [?a <? ?b] => destruct (Z.ltb_spec a b) end;
    simpl; lia.
Qed.

(** Induction over a list one or two elements at a time. *)
Lemma list_ind2 {A} (P : list A -> Prop) :
  P [] -> (forall x, P [x]) ->
  (forall x y l, P l -> P (y :: l) -> P (x :: y :: l)) ->
  forall l, P l.
Proof.
  intros H0 H1 H2 l.
  assert (H : P l /\ forall x, P (x :: l)); [|apply H].
  induction l as [|y l [IH1 IH2]]; split; auto.
Qed.

Lemma utf8_of_utf16_length (ws : list Z) :
  Forall is_unit ws -> (length (utf8_of_utf16 ws) <= 3 * length ws)%nat.
Proof.
  induction ws as [|x|x y l IHl IHyl] using list_ind2; intros Hall.
  - simpl. lia.
  - simpl. inversion Hall as [|? ? Hx _]; subst. unfold is_unit in Hx.
    destruct (is_high_surrogate x); [simpl; lia|].
    destruct (is_low_surrogate x); rewrite ?length_app; simpl.
    + lia.
    + pose proof (utf8_of_code_point_length x). lia.
  - inversion Hall as [|? ? Hx Hall']; subst.
    inversion Hall' as [|? ? Hy Hall'']; subst.
    specialize (IHl Hall''). specialize (IHyl Hall').
    unfold is_unit in *.
    change (utf8_of_utf16 (x :: y :: l)) with
      (if is_high_surrogate x then
         if is_low_surrogate y
         then utf8_of_code_point (65536 + (x - 55296) * 1024 + (y - 56320)) ++ utf8_of_utf16 l
         else utf8_of_code_point REPLACEMENT_CHARACTER ++ utf8_of_utf16 (y :: l)
       else if is_low_surrogate x
            then utf8_of_code_point REPLACEMENT_CHARACTER ++ utf8_of_utf16 (y :: l)
            else utf8_of_code_point x ++ utf8_of_utf16 (y :: l)).
    destruct (is_high_surrogate x) eqn:Hh.
    + destruct (is_low_surrogate y) eqn:Hl; rewrite length_app.
      * unfold is_high_surrogate, is_low_surrogate in *.
        apply andb_prop in Hh as [Hh1 Hh2]. apply andb_prop in Hl as [Hl1 Hl2].
        assert (Hc : 65536 <= 65536 + (x - 55296) * 1024 + (y - 56320)) by lia.
        unfold utf8_of_code_point.
        repeat match goal with |- context [?a <? ?b] => destruct (Z.ltb_spec a b) end;
          try lia. simpl length. lia.
      * simpl length in *. lia.
    + destruct (is_low_surrogate x); rewrite length_app.
      * simpl length in *. lia.
      * pose proof (utf8_of_code_point_length x). simpl length in *. lia.
Qed.

(** Encoding a NUL-terminated run ends with the NUL byte. *)
Lemma utf8_of_utf16_nul (ws : list Z) :
  utf8_of_utf16 (ws ++ [0]) = utf8_of_utf16 ws ++ [0].
Proof.
  induction ws as [|x|x y l IHl IHyl] using list_ind2.
  - reflexivity.
  - simpl. destruct (is_high_surrogate x); [reflexivity|].
    destruct (is_low_surrogate x); rewrite ?app_nil_r; reflexivity.
  - change ((x :: y :: l) ++ [0]) with (x :: y :: (l ++ [0])).
    change (utf8_of_utf16 (x :: y :: l ++ [0])) with
      (if is_high_surrogate x then
         if is_low_surrogate y
         then utf8_of_code_point (65536 + (x - 55296) * 1024 + (y - 56320))
                ++ utf8_of_utf16 (l ++ [0])
         else utf8_of_code_point REPLACEMENT_CHARACTER ++ utf8_of_utf16 ((y :: l) ++ [0])
       else if is_low_surrogate x
            then utf8_of_code_point REPLACEMENT_CHARACTER ++ utf8_of_utf16 ((y :: l) ++ [0])
            else utf8_of_code_point x ++ utf8_of_utf16 ((y :: l) ++ [0])).
    change (utf8_of_utf16 (x :: y :: l)) with
      (if is_high_surrogate x then
         if is_low_surrogate y
         then utf8_of_code_point (65536 + (x - 55296) * 1024 + (y - 56320)) ++ utf8_of_utf16 l
         else utf8_of_code_point REPLACEMENT_CHARACTER ++ utf8_of_utf16 (y :: l)
       else if is_low_surrogate x
            then utf8_of_code_point REPLACEMENT_CHARACTER ++ utf8_of_utf16 (y :: l)
            else utf8_of_code_point x ++ utf8_of_utf16 (y :: l)).
    rewrite IHl, IHyl.
    destruct (is_high_surrogate x); [destruct (is_low_surrogate y)|destruct (is_low_surrogate x)];
      rewrite app_assoc; reflexivity.
Qed.
End Utf8Facts.

Section CombinedPathFacts.

Lemma partly_written_length (W : list Z) :
  (length W <= 260)%nat -> length (partly_written W) = 260%nat.
Proof.
  intros H. unfold partly_written. change (Z.to_nat MAX_PATH) with 260%nat.
  rewrite length_app, length_fmap, length_replicate. lia.
Qed.

Lemma partly_written_size (W : list Z) :
  (length W <= 260)%nat -> Z.of_nat (length (partly_written W)) = 260.
Proof. intros H. rewrite partly_written_length by exact H. reflexivity. Qed.

Lemma partly_written_lookup (W : list Z) (i : nat) (w : Z) :
  W !! i = Some w -> partly_written W !! i = Some (Some w).
Proof.
  intros H. unfold partly_written.
  rewrite lookup_app_l by (rewrite length_fmap; eapply lookup_lt_Some; eauto).
  rewrite list_lookup_fmap, H. reflexivity.
Qed.

Lemma copy_directory (dir : list Z) (len : Z) :
  0 <= len <= Z.of_nat (length dir) -> len <= MAX_PATH ->
  copy_units (replicate (Z.to_nat MAX_PATH) None) 0 (Some <$> dir) (len * 2)
  = Some (partly_written (take (Z.to_nat len) dir)).
Proof.
  intros Hlen Hmax. unfold copy_units. change (Z.to_nat MAX_PATH) with 260%nat.
  unfold MAX_PATH in *.
  rewrite Z.div_mul by lia.
  rewrite length_fmap, length_replicate. change (Z.of_nat 260) with 260.
  rewrite !andb_true_intro; [|repeat split; lia].
  replace (Z.odd (len * 2)) with false by (rewrite Z.mul_comm, Z.odd_mul; reflexivity).
  f_equal. unfold partly_written. change (Z.to_nat MAX_PATH) with 260%nat.
  change (Z.to_nat 0) with 0%nat. rewrite take_0, !app_nil_l.
  rewrite fmap_take. f_equal.
  replace (0 + (len * 2 + 1) / 2) with len by (rewrite Z.add_0_l; apply Z.div_unique with 1; lia).
  rewrite drop_replicate. f_equal. rewrite length_take. lia.
Qed.

Lemma read_last_unit (W : list Z) (w : Z) :
  (length W <= 260)%nat -> last W = Some w ->
  read_unit (partly_written W) (Z.of_nat (length W) - 1) tt = Ok w tt.
Proof.
  intros Hlen Hlast. unfold read_unit. rewrite partly_written_size by exact Hlen.
  assert (Hpos : (0 < length W)%nat) by (destruct W; [discriminate|simpl; lia]).
  rewrite !andb_true_intro; [|split; lia].
  unfold bind. rewrite last_lookup in Hlast.
  replace (Z.to_nat (Z.of_nat (length W) - 1)) with (pred (length W)) by lia.
  rewrite (partly_written_lookup W _ w Hlast). reflexivity.
Qed.

Lemma partly_written_snoc (W : list Z) (v : Z) :
  (length W < 260)%nat ->
  <[length W := Some v]> (partly_written W) = partly_written (W ++ [v]).
Proof.
  intros Hlen. unfold partly_written. change (Z.to_nat MAX_PATH) with 260%nat.
  replace (260 - length W)%nat with (Datatypes.S (260 - length (W ++ [v])))
    by (rewrite length_app; simpl; lia).
  simpl. rewrite <- (length_fmap Some W) at 1.
  rewrite insert_app_r_alt by lia. rewrite Nat.sub_diag. simpl.
  rewrite fmap_app, <- app_assoc. reflexivity.
Qed.

Lemma write_next_unit (W : list Z) (v : Z) :
  (length W < 260)%nat ->
  write_unit (partly_written W) (Z.of_nat (length W)) v tt = Ok (partly_written (W ++ [v])) tt.
Proof.
  intros Hlen. unfold write_unit. rewrite partly_written_size by lia.
  rewrite !andb_true_intro; [|split; lia].
  rewrite Nat2Z.id, partly_written_snoc by exact Hlen. reflexivity.
Qed.

(** Copying the file name behind what is written and storing the
    terminator, for an even or an odd byte count. *)
Lemma copy_name_and_terminate (W name : list Z) (n : Z) :
  0 <= n -> Z.of_nat (length name) = n / 2 ->
  Z.of_nat (length W) + n / 2 < MAX_PATH ->
  exists array,
    copy_units (partly_written W) (Z.of_nat (length W)) (Some <$> name) n = Some array /\
    write_unit array (Z.of_nat (length W) + n / 2) 0 tt
    = Ok (partly_written (W ++ name ++ [0])) tt.
Proof.
  intros Hn Hname Hfit. unfold MAX_PATH in Hfit.
  pose proof (Z.div_mod n 2 ltac:(lia)) as Hdm.
  pose proof (Z.mod_pos_bound n 2 ltac:(lia)) as Hmod.
  assert (Hhalf : (n + 1) / 2 = n / 2 + (if Z.odd n then 1 else 0)).
  { rewrite Zmod_odd in Hdm. destruct (Z.odd n).
    - symmetry. apply Z.div_unique with 0; lia.
    - symmetry. rewrite Z.add_0_r. apply Z.div_unique with 1; lia. }
  unfold copy_units. rewrite partly_written_size by lia. rewrite length_fmap.
  rewrite !andb_true_intro; [|repeat split; lia].
  eexists. split; [reflexivity|].
  set (rest := (260 - length W - length name - 1)%nat).
  assert (Harray :
    take (Z.to_nat (Z.of_nat (length W))) (partly_written W)
    ++ take (Z.to_nat (n / 2)) (Some <$> name)
    ++ (if Z.odd n then [None] else [])
    ++ drop (Z.to_nat (Z.of_nat (length W) + (n + 1) / 2)) (partly_written W)
    = (Some <$> (W ++ name)) ++ None :: replicate rest None).
  { rewrite Hhalf, <- Hname.
    unfold partly_written. change (Z.to_nat MAX_PATH) with 260%nat.
    rewrite !Nat2Z.id. rewrite take_app_length' by (rewrite length_fmap; reflexivity).
    rewrite take_ge by (rewrite length_fmap; lia).
    rewrite drop_app_ge by (rewrite length_fmap; destruct (Z.odd n); lia).
    rewrite length_fmap, drop_replicate.
    rewrite fmap_app, <- app_assoc. f_equal. f_equal.
    destruct (Z.odd n); simpl.
    - f_equal. f_equal. unfold rest. lia.
    - replace (260 - length W
               - (Z.to_nat (Z.of_nat (length W) + (Z.of_nat (length name) + 0)) - length W))%nat
        with (Datatypes.S rest) by (unfold rest; lia).
      reflexivity. }
  rewrite Harray. unfold write_unit. rewrite <- Hname in *.
  assert (Hsize : Z.of_nat (length ((Some <$> W ++ name) ++ None :: replicate rest None)) = 260).
  { rewrite length_app, length_fmap, length_app. cbn [length]. rewrite length_replicate.
    unfold rest. lia. }
  rewrite Hsize.
  rewrite !andb_true_intro; [|split; lia].
  f_equal. unfold partly_written. change (Z.to_nat MAX_PATH) with 260%nat.
  replace (Z.to_nat (Z.of_nat (length W) + Z.of_nat (length name)))
    with (length (Some <$> (W ++ name)) + 0)%nat
    by (rewrite length_fmap, length_app; lia).
  rewrite insert_app_r. simpl.
  rewrite app_assoc, (fmap_app _ (W ++ name) [0]), <- app_assoc. simpl.
  do 3 f_equal. rewrite !length_app. simpl. unfold rest. lia.
Qed.

Lemma mapM_id_Some (l : list Z) : mapM id (Some <$> l) = Some l.
Proof.
  apply mapM_Some. induction l; constructor; auto.
Qed.

(** Converting [cch] written units that fit the [char path[MAX_PATH * 3]]. *)
Lemma WideCharToMultiByte_ok (W : list Z) (extra : list (option Z)) :
  W <> [] -> Z.of_nat (length (utf8_of_utf16 W)) <= MAX_PATH * 3 ->
  WideCharToMultiByte ((Some <$> W) ++ extra) (Z.of_nat (length W))
    (FileChange.path FileChange.zero) (MAX_PATH * 3) tt
  = Ok (utf8_of_utf16 W ++ drop (length (utf8_of_utf16 W)) (FileChange.path FileChange.zero),
        Z.of_nat (length (utf8_of_utf16 W))) tt.
Proof.
  intros Hne Hfit. unfold WideCharToMultiByte.
  assert (Hpos : (0 < length W)%nat) by (destruct W; [congruence|simpl; lia]).
  destruct (Z.eqb_spec (Z.of_nat (length W)) 0); [lia|].
  destruct (Z.ltb_spec (Z.of_nat (length W)) (-1)); [lia|]. simpl orb. cbv iota.
  destruct (Z.eqb_spec (Z.of_nat (length W)) (-1)); [lia|].
  rewrite length_app, length_fmap.
  destruct (Z.leb_spec (Z.of_nat (length W)) (Z.of_nat (length W + length extra))); [|lia].
  rewrite Nat2Z.id. rewrite take_app_length' by (rewrite length_fmap; reflexivity).
  rewrite mapM_id_Some. unfold bind, from_option, ret.
  destruct (Z.leb_spec (Z.of_nat (length (utf8_of_utf16 W))) (MAX_PATH * 3)); [|lia].
  reflexivity.
Qed.
End CombinedPathFacts.

Section BufferFacts.
Import FILE_NOTIFY_EXTENDED_INFORMATION.

Lemma byte_range (b : Byte.byte) : 0 <= Z.of_N (Byte.to_N b) < 256.
Proof. pose proof (Byte.to_N_bounded b). lia. Qed.

Lemma le_value_range (bs : list Byte.byte) :
  0 <= le_value bs < 256 ^ Z.of_nat (length bs).
Proof.
  induction bs as [|b bs IH]; simpl le_value; [simpl; lia|].
  pose proof (byte_range b). cbn [length]. rewrite Nat2Z.inj_succ, Z.pow_succ_r by lia. lia.
Qed.

Lemma read_le_Some (buffer : list Byte.byte) (off : Z) (n : nat) (v : Z) :
  read_le buffer off n = Some v ->
  0 <= off /\ off + Z.of_nat n <= Z.of_nat (length buffer) /\ 0 <= v < 256 ^ Z.of_nat n.
Proof.
  unfold read_le.
  destruct (Z.leb_spec 0 off); [|discriminate].
  destruct (Z.leb_spec (off + Z.of_nat n) (Z.of_nat (length buffer))); [|discriminate].
  simpl. intros [= <-]. split_and!; try lia;
    pose proof (le_value_range (take n (drop (Z.to_nat off) buffer))) as Hr;
    rewrite length_take, length_drop in Hr;
    replace (n `min` (length buffer - Z.to_nat off))%nat with n in Hr by lia; lia.
Qed.

Lemma units_of_bytes_spec (bs : list Byte.byte) :
  Z.of_nat (length (units_of_bytes bs)) = Z.of_nat (length bs) / 2
  /\ Forall is_unit (units_of_bytes bs).
Proof.
  induction bs as [|x|x y l [IHl1 IHl2] _] using list_ind2.
  - split; [reflexivity|constructor].
  - split; [reflexivity|constructor].
  - cbn [units_of_bytes length]. split.
    + rewrite !Nat2Z.inj_succ, IHl1.
      replace (Z.succ (Z.succ (Z.of_nat (length l)))) with (Z.of_nat (length l) + 1 * 2) by lia.
      rewrite Z.div_add by lia. lia.
    + constructor; [|exact IHl2].
      pose proof (byte_range x). pose proof (byte_range y). unfold is_unit. lia.
Qed.

Lemma read_units_Some (buffer : list Byte.byte) (off nbytes : Z) (name : list Z) :
  read_units buffer off nbytes = Some name ->
  0 <= off /\ 0 <= nbytes /\ off + nbytes <= Z.of_nat (length buffer)
  /\ Z.of_nat (length name) = nbytes / 2 /\ Forall is_unit name.
Proof.
  unfold read_units.
  destruct (Z.leb_spec 0 off); [|discriminate].
  destruct (Z.leb_spec 0 nbytes); [|discriminate].
  destruct (Z.leb_spec (off + nbytes) (Z.of_nat (length buffer))); [|discriminate].
  simpl. intros [= <-].
  destruct (units_of_bytes_spec (take (Z.to_nat nbytes) (drop (Z.to_nat off) buffer)))
    as [Hlen Hall].
  split_and!; auto. rewrite Hlen, length_take, length_drop. f_equal. lia.
Qed.

(** An entry that could be read lies inside the buffer and is well formed. *)
Lemma event_at_Some (buffer : list Byte.byte) (offset : Z) (e : t) :
  event_at buffer offset = Some e ->
  0 <= offset /\
  offset + header_size + FileNameLength e <= Z.of_nat (length buffer) /\
  entry_ok e.
Proof.
  unfold event_at. intros H.
  repeat match type of H with
         | (mbind _ ?o) = Some _ =>
             let v := fresh "v" in
             let Hv := fresh "Hv" in
             destruct o as [v|] eqn:Hv; [cbn [mbind option_bind] in H|discriminate H]
         end.
  injection H as <-. simpl.
  apply read_le_Some in Hv. apply read_le_Some in Hv11.
  apply read_units_Some in Hv12 as (? & ? & ? & ? & ?).
  unfold header_size in *.
  split_and!; try lia. split; simpl; auto; lia.
Qed.
End BufferFacts.

Section DecodeEventFacts.
Import FILE_NOTIFY_EXTENDED_INFORMATION.

Lemma s32_wrap_id (z : Z) : INT32_MIN <= z <= INT32_MAX -> s32_wrap z = z.
Proof.
  unfold s32_wrap, INT32_MIN, INT32_MAX. intros H.
  rewrite Z.mod_small by lia. lia.
Qed.

Lemma separator_length (stem : list Z) : (length (separator stem) <= 1)%nat.
Proof.
  unfold separator. destruct (last stem) as [w|]; [destruct (w =? BACKSLASH)|]; simpl; lia.
Qed.

Lemma separator_units (stem : list Z) : Forall is_unit (separator stem).
Proof.
  unfold separator, is_unit, BACKSLASH.
  destruct (last stem) as [w|]; [destruct (w =? 92)|]; repeat constructor; lia.
Qed.

(** The first half of the loop body: the directory path and, when it is
    missing, the separator are in place. *)
Lemma stem_and_separator (dir : list Z) (len : Z) :
  0 < len <= Z.of_nat (length dir) -> len < MAX_PATH ->
  let stem := take (Z.to_nat len) dir in
  exists last_unit,
    last stem = Some last_unit /\
    read_unit (partly_written stem) (len - 1) tt = Ok last_unit tt /\
    (if negb (last_unit =? BACKSLASH)
     then bind (write_unit (partly_written stem) len BACKSLASH)
            (fun p => bind (s32 (len + 1)) (fun n => ret (p, n)))
     else ret (partly_written stem, len)) tt
    = Ok (partly_written (stem ++ separator stem),
          Z.of_nat (length (stem ++ separator stem))) tt.
Proof.
  intros Hlen Hmax stem. unfold MAX_PATH in *.
  assert (Hstem : Z.of_nat (length stem) = len) by (unfold stem; rewrite length_take; lia).
  destruct (last stem) as [w|] eqn:Hlast; cycle 1.
  { apply last_None in Hlast. rewrite Hlast in Hstem. simpl in Hstem. lia. }
  exists w. split; [reflexivity|]. rewrite <- Hstem.
  split; [apply read_last_unit; auto; lia|].
  unfold separator. rewrite Hlast.
  destruct (w =? BACKSLASH); cbn [negb]; cbv beta iota.
  - rewrite app_nil_r. reflexivity.
  - unfold bind. rewrite write_next_unit by lia.
    rewrite s32_ok by (unfold INT32_MIN, INT32_MAX; lia).
    unfold ret. rewrite length_app. simpl. do 2 f_equal. lia.
Qed.

Lemma decode_event_ok (dir : list Z) (len : Z) (e : t) :
  entry_ok e -> Forall is_unit dir ->
  0 < len <= Z.of_nat (length dir) ->
  Z.of_nat (length (composed_path dir len (FileName e))) < MAX_PATH ->
  exists c,
    decode_event dir len e tt = Ok c tt /\
    FileChange.path_bytes c = utf8_of_utf16 (composed_path dir len (FileName e)) /\
    FileChange.path_length c
    = Z.of_nat (length (utf8_of_utf16 (composed_path dir len (FileName e)))) /\
    FileChange.path c !! length (utf8_of_utf16 (composed_path dir len (FileName e)))
    = Some 0.
Proof.
  intros [Hnext Hnl Hunits Hrange] Hdir Hlen Hfit.
  unfold composed_path in *. set (stem := take (Z.to_nat len) dir) in *.
  set (W := stem ++ separator stem) in *.
  assert (Hstem : Z.of_nat (length stem) = len) by (unfold stem; rewrite length_take; lia).
  rewrite app_assoc in Hfit. fold W in Hfit. rewrite length_app in Hfit.
  assert (HW : Z.of_nat (length W) < MAX_PATH) by lia.
  assert (HlenW : len <= Z.of_nat (length W)) by (unfold W; rewrite length_app; lia).
  destruct (stem_and_separator dir len Hlen ltac:(lia)) as (w & Hlast & Hread & Happ).
  fold stem in Hlast, Hread, Happ. fold W in Happ.
  destruct (copy_name_and_terminate W (FileName e) (FileNameLength e) Hnl Hunits)
    as (array & Hcopy & Hterm); [lia|].
  set (full := W ++ FileName e ++ [0]) in *.
  assert (Hfull : full = (stem ++ separator stem ++ FileName e) ++ [0]).
  { unfold full, W. rewrite <- !app_assoc. reflexivity. }
  assert (Hfull_len : Z.of_nat (length full) = Z.of_nat (length W) + FileNameLength e / 2 + 1).
  { unfold full. rewrite !length_app. simpl. lia. }
  assert (Hfull_units : Forall is_unit full).
  { unfold full, W. rewrite !Forall_app. split_and!; auto using separator_units.
    - unfold stem. apply Forall_take, Hdir.
    - repeat constructor; unfold is_unit; lia. }
  pose proof (utf8_of_utf16_length full Hfull_units) as Hbytes.
  unfold MAX_PATH in *.
  unfold decode_event, bind.
  rewrite s32_ok by (unfold INT32_MIN, INT32_MAX; lia).
  rewrite copy_directory by (unfold MAX_PATH; lia). fold stem. simpl from_option.
  unfold ret at 1. rewrite Hread.
  match goal with
  | |- context [match ?c tt with _ => _ end] =>
      match c with
      | (if negb (w =? BACKSLASH) then _ else _) => change (c tt) with
          ((if negb (w =? BACKSLASH)
            then bind (write_unit (partly_written stem) len BACKSLASH)
                   (fun p => bind (s32 (len + 1)) (fun n => ret (p, n)))
            else ret (partly_written stem, len)) tt)
      end
  end.
  rewrite Happ. cbn [fst snd]. rewrite Hcopy. simpl from_option. unfold ret at 1.
  rewrite s32_wrap_id by (unfold INT32_MIN, INT32_MAX; lia).
  rewrite Hterm.
  rewrite s32_ok by (unfold INT32_MIN, INT32_MAX; lia).
  replace (Z.of_nat (length W) + FileNameLength e / 2 + 1) with (Z.of_nat (length full)) by lia.
  unfold partly_written at 1.
  rewrite WideCharToMultiByte_ok; cycle 1.
  { intros Hnil. rewrite Hnil in Hfull_len. simpl in Hfull_len.
    pose proof (Z.div_pos (FileNameLength e) 2 Hnl ltac:(lia)). lia. }
  { unfold MAX_PATH. lia. }
  cbn [fst snd].
  rewrite s32_ok by (unfold INT32_MIN, INT32_MAX; lia).
  eexists. split; [reflexivity|].
  rewrite Hfull, utf8_of_utf16_nul, length_app. simpl length.
  set (bytes := utf8_of_utf16 (stem ++ separator stem ++ FileName e)).
  unfold FileChange.path_bytes. cbn [FileChange.path FileChange.path_length].
  replace (Z.of_nat (length bytes + 1) - 1) with (Z.of_nat (length bytes)) by lia.
  split_and!.
  - rewrite Nat2Z.id, <- app_assoc, take_app_length. reflexivity.
  - reflexivity.
  - rewrite <- app_assoc. rewrite lookup_app_r by lia. rewrite Nat.sub_diag. reflexivity.
Qed.
End DecodeEventFacts.

Lemma separator_spec (stem : list Z) :
  (last stem = Some BACKSLASH -> separator stem = []) /\
  (last stem <> Some BACKSLASH -> separator stem = [BACKSLASH]).
Proof.
  unfold separator. destruct (last stem) as [w|]; [|split; congruence].
  destruct (Z.eqb_spec w BACKSLASH) as [->|Hne]; split; congruence.
Qed.

(** C6.  For every entry that lies in the buffer, with a non-empty
    directory path and a composed path that fits [combined_path], the decoder
    reports the UTF-8 form of: the directory path, then a backslash unless
    the directory path already ends in one, then the entry's file name.
    The directory C:\data and the name a.txt give C:\data\a.txt, and so does
    the same directory path written with a trailing backslash. *)
Theorem path_composition :
  (forall (buffer : list Byte.byte) (offset : Z) (e : FILE_NOTIFY_EXTENDED_INFORMATION.t)
          (dir : list Z) (len : Z),
      event_at buffer offset = Some e ->
      Forall is_unit dir ->
      0 < len <= Z.of_nat (length dir) ->
      Z.of_nat (length (composed_path dir len (FILE_NOTIFY_EXTENDED_INFORMATION.FileName e)))
      < MAX_PATH ->
      let stem := take (Z.to_nat len) dir in
      let name := FILE_NOTIFY_EXTENDED_INFORMATION.FileName e in
      exists c,
        decode_event dir len e tt = Ok c tt /\
        FileChange.path_bytes c = utf8_of_utf16 (stem ++ separator stem ++ name) /\
        FileChange.path_length c
        = Z.of_nat (length (utf8_of_utf16 (stem ++ separator stem ++ name))) /\
        FileChange.path c !! Z.to_nat (FileChange.path_length c) = Some 0) /\
  (forall stem : list Z,
      (last stem = Some BACKSLASH -> separator stem = []) /\
      (last stem <> Some BACKSLASH -> separator stem = [BACKSLASH])) /\
  reported_path sample_directory 7 sample_entry = Some (units_of_string "C:\data\a.txt") /\
  reported_path sample_directory_slash 8 sample_entry
  = Some (units_of_string "C:\data\a.txt").
Proof.
  split_and!.
  - intros buffer offset e dir len Hev Hdir Hlen Hfit stem name.
    apply event_at_Some in Hev as (_ & _ & Hok).
    destruct (decode_event_ok dir len e Hok Hdir Hlen Hfit) as (c & Hc & Hp & Hl & Hz).
    exists c. unfold composed_path in *. fold stem name in Hp, Hl, Hz.
    split_and!; auto. rewrite Hl, Nat2Z.id. exact Hz.
  - apply separator_spec.
  - vm_compute. reflexivity.
  - vm_compute. reflexivity.
Qed.

Lemma path_composition_witness :
  exists c,
    decode_event sample_directory 7 sample_event tt = Ok c tt /\
    FileChange.path_bytes c = units_of_string "C:\data\a.txt".
Proof.
  destruct (proj1 path_composition sample_entry 0 sample_event sample_directory 7)
    as (c & Hc & Hp & _).
  - vm_compute. reflexivity.
  - let l := eval vm_compute in sample_directory in change (Forall is_unit l).
    repeat (constructor; [unfold is_unit; lia|]). constructor.
  - unfold sample_directory. simpl. lia.
  - vm_compute. reflexivity.
  - exists c. split; [exact Hc|]. rewrite Hp. vm_compute. reflexivity.
Defined.

Lemma native_action_mapping_witness :
  decode_action 6 = ActNone /\
  FileChange.action (decoded sample_directory 7 sample_rename_event) = RenamedFrom.
Proof.
  destruct native_action_mapping as (_ & _ & _ & _ & _ & Hother & Hevent).
  split.
  - apply Hother; unfold FILE_ACTION_ADDED, FILE_ACTION_REMOVED, FILE_ACTION_MODIFIED,
      FILE_ACTION_RENAMED_OLD_NAME, FILE_ACTION_RENAMED_NEW_NAME; lia.
  - rewrite (Hevent sample_directory 7 sample_rename_event
               (decoded sample_directory 7 sample_rename_event)).
    + reflexivity.
    + vm_compute. reflexivity.
Defined.

Section ProcessNotificationFacts.
Import FILE_NOTIFY_EXTENDED_INFORMATION.
Import ThreadSafeQueue QueueModel.

Lemma zoom_Ok {S T A} (proj : S -> T) (inj : T -> S -> S) (c : M T A) (s s' : S) (a : A) :
  zoom proj inj c s = Ok a s' -> exists t, c (proj s) = Ok a t /\ s' = inj t s.
Proof. unfold zoom. destruct (c (proj s)); intros H; inversion H; eauto. Qed.

Lemma on_queue_ok {A} (c : M ThreadSafeQueue A) (s : State) (a : A) (q' : ThreadSafeQueue) :
  c (queue_of s) = Ok a q' -> on_queue c s = Ok a (with_queue q' s).
Proof. unfold on_queue, zoom, queue_of. intros ->. reflexivity. Qed.

Lemma on_queue_Ok {A} (c : M ThreadSafeQueue A) (s s' : State) (a : A) :
  on_queue c s = Ok a s' -> exists q', c (queue_of s) = Ok a q' /\ s' = with_queue q' s.
Proof. unfold on_queue. intros H. apply zoom_Ok in H. exact H. Qed.

Lemma with_queue_with_queue (q1 q2 : ThreadSafeQueue) (s : State) :
  with_queue q2 (with_queue q1 s) = with_queue q2 s.
Proof. reflexivity. Qed.

Lemma queue_of_with_queue (q : ThreadSafeQueue) (s : State) : queue_of (with_queue q s) = q.
Proof. reflexivity. Qed.

Lemma Grow_count (q q' : ThreadSafeQueue) : Grow q = Ok tt q' -> count q' = count q.
Proof.
  unfold Grow, s32, bind, get, put, ret, throw, assert, from_option.
  intros H. repeat (case_match; simplify_eq; try discriminate); reflexivity.
Qed.

(** Whenever [Push] returns, the count has gone up by one. *)
Lemma Push_count (x : FileChange) (q q' : ThreadSafeQueue) :
  Push x q = Ok tt q' -> count q' = count q + 1.
Proof.
  unfold Push. unfold bind at 1. unfold Lock, bind at 1, get, put.
  destruct (lock q =? 1); [discriminate|].
  unfold bind at 1 2. unfold get.
  set (q1 := set_lock 1 q).
  assert (Hgrow : forall r, (if count q1 =? capacity q1 then Grow else ret tt) q1 = r ->
                            match r with Ok _ q2 => count q2 = count q | Err _ => True end).
  { intros r <-. destruct (count q1 =? capacity q1).
    - destruct (Grow q1) as [[] q2|] eqn:Hg; [|exact I]. apply Grow_count in Hg. exact Hg.
    - reflexivity. }
  specialize (Hgrow _ eq_refl).
  destruct ((if count q1 =? capacity q1 then Grow else ret tt) q1) as [[] q2|]; [|discriminate].
  unfold Unlock, store, s32_rem, s32, bind, get, put, modify, ret, throw, from_option.
  intros H. repeat (case_match; simplify_eq; try discriminate). simpl. lia.
Qed.
End ProcessNotificationFacts.

Section DecodeLoopFacts.
Import FILE_NOTIFY_EXTENDED_INFORMATION.
Import ThreadSafeQueue QueueModel.

Lemma entries_from_bound (buffer : list Byte.byte) (offset : Z) (es : list FILE_NOTIFY_EXTENDED_INFORMATION.t) :
  entries_from buffer offset es ->
  0 <= offset /\ offset + Z.of_nat (length es) <= Z.of_nat (length buffer) /\ es <> [].
Proof.
  induction 1 as [offset e Hev Hz|offset e rest Hev Hnz Hrest IH].
  - apply event_at_Some in Hev as (H0 & Hend & [? ? ? ?]). unfold header_size in *.
    simpl. split_and!; [lia|lia|discriminate].
  - apply event_at_Some in Hev as (H0 & Hend & [? ? ? ?]).
    destruct IH as (? & ? & _). cbn [length]. split_and!; [lia|lia|discriminate].
Qed.

(** Whenever the loop returns, it has pushed at least one record and has
    changed nothing but the queue. *)
Lemma decode_entries_pushes (fuel : nat) (buffer : list Byte.byte) (dir : list Z) (len : Z) :
  forall (offset : Z) (s s' : State),
    decode_entries fuel buffer dir len offset s = Ok tt s' ->
    exists q', s' = with_queue q' s /\ count (queue_of s) < count q'.
Proof.
  induction fuel as [|fuel IH]; intros offset s s' H; [discriminate|].
  cbn [decode_entries] in H.
  inv_bind H. apply from_option_Ok in H0 as (_ & ->).
  inv_bind H. apply lift_Ok in H0 as (-> & _).
  inv_bind H. apply on_queue_Ok in H0 as (q1 & Hpush & ->).
  destruct a1. apply Push_count in Hpush.
  destruct (negb (NextEntryOffset a =? 0)).
  - apply IH in H as (q' & -> & Hc). rewrite queue_of_with_queue in Hc.
    exists q'. rewrite with_queue_with_queue. split; [reflexivity|lia].
  - unfold ret in H. inversion H. exists q1. split; [reflexivity|lia].
Qed.

(** On a well-formed chain of entries the loop pushes one record per entry,
    in order, and returns. *)
Lemma decode_entries_ok (buffer : list Byte.byte) (dir : list Z) (len : Z) :
  forall (offset : Z) (es : list FILE_NOTIFY_EXTENDED_INFORMATION.t),
    entries_from buffer offset es ->
    Z.of_nat (length buffer) <= INT32_MAX ->
    forall (fuel : nat) (cs : list FileChange) (s : State) (l : list FileChange),
      Forall2 (fun e c => decode_event dir len e tt = Ok c tt) es cs ->
      (length es <= fuel)%nat ->
      holds (queue_of s) l ->
      2 * (count (queue_of s) + Z.of_nat (length es)) <= MAX_CAPACITY ->
      exists q',
        decode_entries fuel buffer dir len offset s = Ok tt (with_queue q' s) /\
        holds q' (l ++ cs) /\ capacity (queue_of s) <= capacity q'.
Proof.
  induction 1 as [offset e Hev Hz|offset e rest Hev Hnz Hrest IH];
    intros Hsize fuel cs s l Hdec Hfuel Hh Hcap.
  - destruct fuel as [|fuel]; [simpl in Hfuel; lia|].
    inversion Hdec as [|? c ? cs' Hc Hnil]; subst. inversion Hnil; subst.
    destruct (Push_holds c (queue_of s) l Hh) as (q' & Hpush & Hh' & Hc' & Hk').
    { destruct Hh as (_ & [_ ? ? ?] & _). unfold GrowRate. simpl in Hcap.
      destruct (decide (count (queue_of s) < capacity (queue_of s))); [left; auto|right; lia]. }
    exists q'. cbn [decode_entries]. unfold bind. rewrite Hev. simpl from_option.
    unfold ret at 1. rewrite (lift_ok _ _ _ _ Hc).
    rewrite (on_queue_ok _ _ _ _ Hpush). rewrite Hz. cbn [Z.eqb negb]. cbv beta iota.
    split_and!; auto. destruct Hh as (_ & [_ ? ? ?] & _). unfold GrowRate in Hk'.
    destruct (count (queue_of s) =? capacity (queue_of s)); lia.
  - destruct fuel as [|fuel]; [simpl in Hfuel; lia|].
    inversion Hdec as [|? c ? cs' Hc Hrestdec]; subst.
    destruct (Push_holds c (queue_of s) l Hh) as (q1 & Hpush & Hh1 & Hc1 & Hk1).
    { destruct Hh as (_ & [_ ? ? ?] & _). unfold GrowRate. cbn [length] in Hcap.
      destruct (decide (count (queue_of s) < capacity (queue_of s))); [left; auto|right; lia]. }
    destruct (IH Hsize fuel cs' (with_queue q1 s) (l ++ [c]) Hrestdec) as (q' & Hrun & Hh' & Hk').
    { simpl in Hfuel. lia. }
    { exact Hh1. }
    { rewrite queue_of_with_queue. cbn [length] in Hcap. lia. }
    exists q'. cbn [decode_entries]. unfold bind. rewrite Hev. simpl from_option.
    unfold ret at 1. rewrite (lift_ok _ _ _ _ Hc).
    rewrite (on_queue_ok _ _ _ _ Hpush).
    destruct (Z.eqb_spec (NextEntryOffset e) 0) as [?|_]; [contradiction|]. cbn [negb]. cbv beta iota.
    apply entries_from_bound in Hrest as (Hlo & Hhi & _).
    rewrite s32_wrap_id by (unfold INT32_MIN, INT32_MAX in *; lia).
    rewrite Hrun. rewrite with_queue_with_queue.
    split_and!; auto.
    + rewrite <- app_assoc in Hh'. exact Hh'.
    + rewrite queue_of_with_queue in Hk'. destruct Hh as (_ & [_ ? ? ?] & _).
      unfold GrowRate in Hk1. destruct (count (queue_of s) =? capacity (queue_of s)); lia.
Qed.
End DecodeLoopFacts.

(** C10.  For a non-null buffer the decoder never returns without having
    pushed a record; and when the buffer holds a well-formed chain of
    entries that all decode, it does return, having pushed exactly one
    record per entry, at least one. *)
Theorem nonnull_buffer_yields_a_record
        (buffer : list Byte.byte) (dir : list Z) (len : Z) (s : State) :
  (forall s',
      ProcessNotification (Some buffer) dir len s = Ok tt s' ->
      ThreadSafeQueue.count (queue_of s) < ThreadSafeQueue.count (queue_of s')) /\
  (forall (es : list FILE_NOTIFY_EXTENDED_INFORMATION.t) (cs l : list FileChange),
      entries_from buffer 0 es ->
      Z.of_nat (length buffer) <= INT32_MAX ->
      Forall2 (fun e c => decode_event dir len e tt = Ok c tt) es cs ->
      QueueModel.holds (queue_of s) l ->
      2 * (ThreadSafeQueue.count (queue_of s) + Z.of_nat (length es))
      <= QueueModel.MAX_CAPACITY ->
      exists q',
        ProcessNotification (Some buffer) dir len s = Ok tt (with_queue q' s) /\
        QueueModel.holds q' (l ++ cs) /\ (1 <= length cs)%nat).
Proof.
  split.
  - intros s' H. unfold ProcessNotification in H.
    apply decode_entries_pushes in H as (q' & -> & H). exact H.
  - intros es cs l Hes Hsize Hdec Hh Hcap.
    pose proof (entries_from_bound _ _ _ Hes) as (_ & Hlen & Hne).
    destruct (decode_entries_ok buffer dir len 0 es Hes Hsize (S (length buffer)) cs s l)
      as (q' & Hrun & Hh' & _); auto; [lia|].
    exists q'. split_and!; auto.
    apply Forall2_length in Hdec. destruct es; [congruence|]. simpl in Hdec. lia.
Qed.

Lemma wrapped_full_queue_holds :
  QueueModel.holds wrapped_full_queue [sample_first; sample_second].
Proof.
  unfold QueueModel.holds. split_and!; [reflexivity| |reflexivity].
  split; simpl; unfold QueueModel.MAX_CAPACITY; try lia. eexists; split; reflexivity.
Defined.

Lemma lone_rename_queue_holds : QueueModel.holds lone_rename_queue [sample_rename_from].
Proof.
  unfold QueueModel.holds. split_and!; [reflexivity| |reflexivity].
  split; simpl; unfold QueueModel.MAX_CAPACITY; try lia. eexists; split; reflexivity.
Defined.

Lemma sample_state_holds : QueueModel.holds (queue_of sample_state) [].
Proof.
  unfold QueueModel.holds. split_and!; [reflexivity| |reflexivity].
  split; simpl; unfold QueueModel.MAX_CAPACITY, ThreadSafeQueue.InitialCapacity; try lia.
  eexists; split; reflexivity.
Defined.

Lemma queue_fifo_across_growth_witness :
  (exists q',
      run [OpPush sample_third; OpPop; OpPop; OpPop; OpPop] wrapped_full_queue
      = Ok [Some sample_first; Some sample_second; Some sample_third; None] q' /\
      QueueModel.holds q' []) /\
  (exists q1,
      ThreadSafeQueue.Pop wrapped_full_queue = Ok (Some sample_first) q1 /\
      QueueModel.holds q1 [sample_second]) /\
  (exists g,
      ThreadSafeQueue.Grow (ThreadSafeQueue.set_lock 1 wrapped_full_queue) = Ok tt g /\
      ThreadSafeQueue.capacity g = 4 /\ ThreadSafeQueue.front_index g = 0 /\
      ThreadSafeQueue.data g = Some [Some sample_first; Some sample_second; None; None]).
Proof.
  destruct (queue_fifo_across_growth wrapped_full_queue [sample_first; sample_second]
              [OpPush sample_third; OpPop; OpPop; OpPop; OpPop])
    as ((outs & q' & rest & Hrun & Hh & Houts & Hrest & _) & Hpop & Hgrow).
  - exact wrapped_full_queue_holds.
  - unfold QueueModel.MAX_CAPACITY. simpl. lia.
  - split; [|split].
    + exists q'. rewrite Houts in Hrun. rewrite Hrest in Hh. split; [exact Hrun|exact Hh].
    + apply (Hpop sample_first [sample_second] eq_refl). left. discriminate.
    + destruct (Hgrow eq_refl) as (g & Hg & Hcap & Hfront & _ & Hdata & _).
      exists g. split_and!; auto. rewrite Hdata, Hcap. reflexivity.
Defined.

Lemma Pop_withholds_lone_rename_witness :
  ThreadSafeQueue.Pop lone_rename_queue = Ok None lone_rename_queue /\
  exists q1 q2,
    ThreadSafeQueue.Push sample_rename_to lone_rename_queue = Ok tt q1 /\
    ThreadSafeQueue.Pop q1 = Ok (Some sample_rename_from) q2 /\
    QueueModel.holds q2 [sample_rename_to].
Proof.
  destruct (Pop_withholds_lone_rename lone_rename_queue [sample_rename_from]
              lone_rename_queue_holds) as [_ Hpair].
  apply (Hpair sample_rename_from sample_rename_to); reflexivity.
Defined.

Lemma nonnull_buffer_yields_a_record_witness :
  ThreadSafeQueue.count (queue_of sample_state)
  < ThreadSafeQueue.count
      (queue_of (state_after (ProcessNotification (Some sample_entry) sample_directory 7)
                   sample_state)) /\
  exists q',
    ProcessNotification (Some sample_entry) sample_directory 7 sample_state
    = Ok tt (with_queue q' sample_state) /\
    QueueModel.holds q' [decoded sample_directory 7 sample_event].
Proof.
  destruct (nonnull_buffer_yields_a_record sample_entry sample_directory 7 sample_state)
    as [Hsome Hall].
  split.
  - apply Hsome. vm_compute. reflexivity.
  - destruct (Hall [sample_event] [decoded sample_directory 7 sample_event] [])
      as (q' & Hrun & Hh & _).
    + apply entries_last; vm_compute; reflexivity.
    + vm_compute. discriminate.
    + constructor; [vm_compute; reflexivity|constructor].
    + exact sample_state_holds.
    + vm_compute. discriminate.
    + exists q'. split; [exact Hrun|exact Hh].
Defined.

Section WorkerFacts.

Lemma deref_ok (s : State) (p : Z) (r : ReadChangesRequest.t) :
  p <> 0 -> heap s !! p = Some r -> deref p s = Ok r s.
Proof.
  intros Hp Hr. unfold deref, bind, get.
  destruct (Z.eqb_spec p 0); [contradiction|]. rewrite Hr. reflexivity.
Qed.

Lemma deref_Ok (s s' : State) (p : Z) (r : ReadChangesRequest.t) :
  deref p s = Ok r s' -> s' = s /\ p <> 0 /\ heap s !! p = Some r.
Proof.
  unfold deref, bind, get. destruct (Z.eqb_spec p 0); [discriminate|].
  intros H. apply from_option_Ok in H as (H & ->). auto.
Qed.

Lemma last_read_snoc (cs : list SysCall) (p h off len f : Z) (b : bool) :
  last_read (cs ++ [ReadDirectoryChangesExW h p off len b f]) p = Some (off, len).
Proof.
  induction cs as [|c cs IH]; simpl.
  - rewrite Z.eqb_refl. reflexivity.
  - rewrite IH. reflexivity.
Qed.

(** What [BeginRead] does to a live, well-formed request. *)
Lemma BeginRead_ok (s : State) (p : Z) (r : ReadChangesRequest.t) :
  p <> 0 -> heap s !! p = Some r -> request_ok r ->
  BeginRead p s
  = Ok tt (mk_State (watcher s)
             (<[p := ReadChangesRequest.set_buffer_index
                       (Z.lxor (ReadChangesRequest.buffer_index r) 1) r]> (heap s))
             (calls s ++ [ReadDirectoryChangesExW (ReadChangesRequest.directory r) p
                            (buffer_offset r (ReadChangesRequest.buffer_index r))
                            (ReadChangesRequest.buffer_size r)
                            (ReadChangesRequest.is_recursive r) filters])).
Proof.
  intros Hp Hr [Hsize Hbuf Hs32 Hidx]. unfold BeginRead, bind.
  rewrite (deref_ok s p r Hp Hr).
  rewrite s32_ok by (unfold INT32_MIN, INT32_MAX in *; destruct Hidx as [-> | ->]; lia).
  unfold update_request, bind. rewrite (deref_ok s p r Hp Hr).
  reflexivity.
Qed.

Lemma xor_one_index (i : Z) :
  i = 0 \/ i = 1 -> (Z.lxor i 1 = 0 \/ Z.lxor i 1 = 1) /\ Z.lxor i 1 <> i
                    /\ Z.lxor (Z.lxor i 1) 1 = i.
Proof. intros [-> | ->]; simpl; split_and!; auto; lia. Qed.

Lemma request_ok_flip (r : ReadChangesRequest.t) :
  request_ok r ->
  request_ok (ReadChangesRequest.set_buffer_index
                (Z.lxor (ReadChangesRequest.buffer_index r) 1) r).
Proof.
  intros [Hsize Hbuf Hs32 Hidx]. split; simpl; auto.
  apply xor_one_index, Hidx.
Qed.

(** Re-arming a request keeps it armed, now on the buffer that used to be
    at the current index. *)
Lemma BeginRead_armed (s : State) (p : Z) (r : ReadChangesRequest.t) :
  p <> 0 -> heap s !! p = Some r -> request_ok r ->
  armed (state_after (BeginRead p) s) p.
Proof.
  intros Hp Hr Hok. unfold state_after. rewrite (BeginRead_ok s p r Hp Hr Hok).
  split; [exact Hp|]. eexists. simpl. rewrite lookup_insert_eq.
  split_and!; [reflexivity|apply request_ok_flip, Hok|].
  rewrite last_read_snoc. simpl. unfold buffer_offset.
  destruct (xor_one_index _ (request_index r Hok)) as (_ & _ & ->). reflexivity.
Qed.

(** The decoder touches nothing but the queue. *)
Lemma ProcessNotification_frame (buffer : option (list Byte.byte)) (dir : list Z) (len : Z)
      (s s' : State) :
  ProcessNotification buffer dir len s = Ok tt s' -> exists q', s' = with_queue q' s.
Proof.
  destruct buffer as [bytes|]; unfold ProcessNotification; intros H.
  - apply decode_entries_pushes in H as (q' & -> & _). eauto.
  - inv_bind H. apply lift_Ok in H0 as (-> & _).
    apply on_queue_Ok in H as (q' & _ & ->). eauto.
Qed.

(** The completion routine run from start to end. *)
Lemma NotificationCompletion_eq (error_code bytes p : Z) (s : State) :
  NotificationCompletion error_code bytes p s
  = (r <- deref p ;;
     s0 <- get ;;
     if (error_code =? ERROR_OPERATION_ABORTED)
        || DirectoryWatcher.should_terminate (watcher s0)
     then
       on_watcher (fun w => DirectoryWatcher.set_outstanding_request_count
                              (u32_wrap (DirectoryWatcher.outstanding_request_count w - 1)) w) ;;;
       free p
     else
       (if negb (error_code =? 0) then assert false else ret tt) ;;;
       buffer <- s32 (ReadChangesRequest.buffer_size r
                      * Z.lxor (ReadChangesRequest.buffer_index r) 1) ;;
       BeginRead p ;;;
       r' <- deref p ;;
       ProcessNotification
         (if (error_code =? 0) && (bytes =? 0) then None
          else Some (drop (Z.to_nat buffer) (ReadChangesRequest.buffers r')))
         (ReadChangesRequest.path r') (ReadChangesRequest.path_length r')) s.
Proof.
  unfold NotificationCompletion, NotificationCompletion_begin, bind, get.
  destruct (deref p s) as [r s0|]; [|reflexivity].
  destruct ((error_code =? ERROR_OPERATION_ABORTED)
            || DirectoryWatcher.should_terminate (watcher s0)); [reflexivity|].
  destruct (negb (error_code =? 0)); [reflexivity|]. unfold ret.
  destruct (s32 _ s0) as [buffer s1|]; [|reflexivity].
  destruct (BeginRead p s1) as [u s2|]; reflexivity.
Qed.
End WorkerFacts.

Section CompletionFacts.

(** A completion that is neither an abort nor an error, on a watcher that is
    not terminating: re-arm, then decode. *)
Lemma NotificationCompletion_rearm (s : State) (p bytes : Z) (r : ReadChangesRequest.t) :
  p <> 0 -> heap s !! p = Some r -> request_ok r ->
  DirectoryWatcher.should_terminate (watcher s) = false ->
  NotificationCompletion 0 bytes p s
  = ProcessNotification
      (if bytes =? 0 then None
       else Some (drop (Z.to_nat (buffer_offset r (Z.lxor (ReadChangesRequest.buffer_index r) 1)))
                    (ReadChangesRequest.buffers r)))
      (ReadChangesRequest.path r) (ReadChangesRequest.path_length r)
      (state_after (BeginRead p) s).
Proof.
  intros Hp Hr Hok Hterm. rewrite NotificationCompletion_eq. unfold bind.
  rewrite (deref_ok s p r Hp Hr). unfold get. rewrite Hterm.
  change (0 =? ERROR_OPERATION_ABORTED) with false. cbn [orb negb Z.eqb andb]. cbv beta iota.
  unfold ret at 1.
  destruct (xor_one_index _ (request_index r Hok)) as (Hx & _ & _).
  rewrite s32_ok by (destruct Hok as [? ? ? ?];
                     unfold INT32_MIN, INT32_MAX in *; destruct Hx as [-> | ->]; lia).
  unfold state_after. rewrite (BeginRead_ok s p r Hp Hr Hok).
  erewrite deref_ok; [|exact Hp|simpl; apply lookup_insert_eq].
  reflexivity.
Qed.

(** The first stage of such a completion: it re-arms, and leaves the
    decoding of the buffer at index [buffer_index xor 1] to be run. *)
Lemma NotificationCompletion_begin_rearm (s : State) (p bytes : Z) (r : ReadChangesRequest.t) :
  p <> 0 -> heap s !! p = Some r -> request_ok r ->
  DirectoryWatcher.should_terminate (watcher s) = false ->
  exists rest,
    NotificationCompletion_begin 0 bytes p s = Ok rest (state_after (BeginRead p) s) /\
    forall s1 r1,
      heap s1 !! p = Some r1 ->
      rest s1
      = ProcessNotification
          (if bytes =? 0 then None
           else Some (drop (Z.to_nat (buffer_offset r
                                        (Z.lxor (ReadChangesRequest.buffer_index r) 1)))
                        (ReadChangesRequest.buffers r1)))
          (ReadChangesRequest.path r1) (ReadChangesRequest.path_length r1) s1.
Proof.
  intros Hp Hr Hok Hterm. unfold NotificationCompletion_begin, bind.
  rewrite (deref_ok s p r Hp Hr). unfold get. rewrite Hterm.
  change (0 =? ERROR_OPERATION_ABORTED) with false. cbn [orb negb Z.eqb andb]. cbv beta iota.
  unfold ret at 1.
  destruct (xor_one_index _ (request_index r Hok)) as (Hx & _ & _).
  rewrite s32_ok by (destruct Hok as [? ? ? ?];
                     unfold INT32_MIN, INT32_MAX in *; destruct Hx as [-> | ->]; lia).
  unfold state_after. rewrite (BeginRead_ok s p r Hp Hr Hok).
  eexists. split; [reflexivity|].
  intros s1 r1 Hr1. cbv beta. rewrite (deref_ok s1 p r1 Hp Hr1). reflexivity.
Qed.

(** The operating system stores a payload that fits into the buffer of the
    read in flight. *)
Lemma os_fill_ok (s : State) (p : Z) (r : ReadChangesRequest.t) (payload : list Byte.byte) :
  p <> 0 -> heap s !! p = Some r -> request_ok r ->
  last_read (calls s) p
  = Some (buffer_offset r (Z.lxor (ReadChangesRequest.buffer_index r) 1),
          ReadChangesRequest.buffer_size r) ->
  Z.of_nat (length payload) <= ReadChangesRequest.buffer_size r ->
  exists bytes,
    os_fill p payload s
    = Ok tt (set_heap (<[p := ReadChangesRequest.set_buffers bytes r]> (heap s)) s) /\
    length bytes = length (ReadChangesRequest.buffers r) /\
    take (length payload)
      (drop (Z.to_nat (buffer_offset r (Z.lxor (ReadChangesRequest.buffer_index r) 1))) bytes)
    = payload.
Proof.
  intros Hp Hr Hok Hlast Hfit. pose proof Hok as [Hsize Hbuf Hs32 Hidx].
  destruct (xor_one_index _ Hidx) as (Hx & _ & _).
  set (off := buffer_offset r (Z.lxor (ReadChangesRequest.buffer_index r) 1)) in *.
  assert (Hoff : 0 <= off /\ off + ReadChangesRequest.buffer_size r
                             <= Z.of_nat (length (ReadChangesRequest.buffers r))).
  { unfold off, buffer_offset. destruct Hx as [-> | ->]; lia. }
  eexists. unfold os_fill, bind. rewrite (deref_ok s p r Hp Hr). unfold get.
  rewrite Hlast. simpl from_option. unfold ret at 1. cbn [fst snd].
  rewrite !andb_true_intro; [|split_and!; lia].
  unfold update_request, bind. rewrite (deref_ok s p r Hp Hr).
  split; [reflexivity|]. split.
  - rewrite !length_app, length_take, length_drop. lia.
  - rewrite drop_app_length' by (rewrite length_take; lia).
    apply take_app_length.
Qed.

(** The block [AddDirectory] builds is well formed, with index 0. *)
Lemma new_request_ok (wide : list Z) (handle : Z) (is_recursive : bool)
      (change_buffer_size : Z) :
  0 < change_buffer_size -> 2 * change_buffer_size <= INT32_MAX ->
  request_ok (new_request wide handle is_recursive change_buffer_size) /\
  ReadChangesRequest.buffer_index (new_request wide handle is_recursive change_buffer_size) = 0.
Proof.
  intros Hpos Hmax. split; [|reflexivity].
  split; simpl; auto. rewrite length_replicate. lia.
Qed.
End CompletionFacts.

(** C5.  For a request with a read in flight on a watcher that is not
    terminating: the buffer index is 0 or 1; the operating system fills the
    buffer at index [buffer_index xor 1]; the completion first re-arms, and
    that [BeginRead] targets the buffer at the current index and flips the
    index; only then does it decode, and what it decodes is the buffer the
    completed read wrote.  The order is that of the routine's two stages:
    the first stage ends in the state [s1] that [BeginRead] produces, in
    which the new read has been issued and is in flight and the queue is
    still as it was; what is left to run from [s1] is the decoding, and the
    whole routine is, on every state and for every completion, the first
    stage followed by what it left to run.  The two buffers are
    distinct, and afterwards the request is again armed with an index of 0
    or 1.  [ThreadAddDirectoryProc] is what arms a request in the first
    place, and the request [AddDirectory] builds starts with index 0. *)
Theorem double_buffering (s : State) (p : Z) (r : ReadChangesRequest.t)
        (payload : list Byte.byte) :
  p <> 0 -> heap s !! p = Some r -> request_ok r ->
  let index := ReadChangesRequest.buffer_index r in
  let other := Z.lxor index 1 in
  (forall (wide : list Z) (handle : Z) (is_recursive : bool) (change_buffer_size : Z),
      0 < change_buffer_size -> 2 * change_buffer_size <= INT32_MAX ->
      request_ok (new_request wide handle is_recursive change_buffer_size) /\
      ReadChangesRequest.buffer_index
        (new_request wide handle is_recursive change_buffer_size) = 0) /\
  armed (state_after (ThreadAddDirectoryProc p) s) p /\
  (last_read (calls s) p = Some (buffer_offset r other, ReadChangesRequest.buffer_size r) ->
   DirectoryWatcher.should_terminate (watcher s) = false ->
   Z.of_nat (length payload) <= ReadChangesRequest.buffer_size r ->
   (index = 0 \/ index = 1) /\ (other = 0 \/ other = 1) /\
   buffer_offset r index <> buffer_offset r other /\
   exists filled s0 s1,
     os_fill p payload s = Ok tt s0 /\
     heap s0 !! p = Some (ReadChangesRequest.set_buffers filled r) /\
     take (length payload) (drop (Z.to_nat (buffer_offset r other)) filled) = payload /\
     BeginRead p s0 = Ok tt s1 /\
     calls s1 = calls s ++ [ReadDirectoryChangesExW (ReadChangesRequest.directory r) p
                              (buffer_offset r index) (ReadChangesRequest.buffer_size r)
                              (ReadChangesRequest.is_recursive r) filters] /\
     heap s1 !! p
     = Some (ReadChangesRequest.set_buffer_index other
               (ReadChangesRequest.set_buffers filled r)) /\
     queue_of s1 = queue_of s /\
     armed s1 p /\
     NotificationCompletion 0 (Z.of_nat (length payload)) p s0
     = ProcessNotification
         (if Z.of_nat (length payload) =? 0 then None
          else Some (drop (Z.to_nat (buffer_offset r other)) filled))
         (ReadChangesRequest.path r) (ReadChangesRequest.path_length r) s1 /\
     (forall s',
         NotificationCompletion 0 (Z.of_nat (length payload)) p s0 = Ok tt s' -> armed s' p) /\
     exists rest,
       NotificationCompletion_begin 0 (Z.of_nat (length payload)) p s0 = Ok rest s1 /\
       rest s1
       = ProcessNotification
           (if Z.of_nat (length payload) =? 0 then None
            else Some (drop (Z.to_nat (buffer_offset r other)) filled))
           (ReadChangesRequest.path r) (ReadChangesRequest.path_length r) s1 /\
       NotificationCompletion 0 (Z.of_nat (length payload)) p s0 = rest s1) /\
  (forall (error_code bytes request : Z) (s0 : State),
      NotificationCompletion error_code bytes request s0
      = (rest <- NotificationCompletion_begin error_code bytes request ;; rest) s0).
Proof.
  intros Hp Hr Hok index other. split; [apply new_request_ok|].
  split; [|split; [|reflexivity]].
  - unfold state_after, ThreadAddDirectoryProc, bind.
    rewrite (deref_ok s p r Hp Hr). unfold on_watcher, modify.
    set (s1 := set_watcher _ s).
    pose proof (BeginRead_armed s1 p r Hp Hr Hok) as Harmed.
    unfold state_after in Harmed.
    rewrite (BeginRead_ok s1 p r Hp Hr Hok) in *. exact Harmed.
  - intros Hlast Hterm Hfit. pose proof Hok as [Hsize Hbuf Hs32 Hidx].
    destruct (xor_one_index _ Hidx) as (Hx & Hne & Hback).
    split_and!; auto.
    { unfold buffer_offset. fold index other in Hne. intros Heq. apply Hne.
      apply Z.mul_reg_l in Heq; [congruence|lia]. }
    destruct (os_fill_ok s p r payload Hp Hr Hok Hlast Hfit) as (filled & Hfill & Hlen & Htake).
    set (r0 := ReadChangesRequest.set_buffers filled r).
    set (s0 := set_heap (<[p := r0]> (heap s)) s) in *.
    assert (Hr0 : heap s0 !! p = Some r0) by (simpl; apply lookup_insert_eq).
    assert (Hok0 : request_ok r0).
    { split; simpl; auto. rewrite Hlen. exact Hbuf. }
    pose proof (BeginRead_ok s0 p r0 Hp Hr0 Hok0) as Hbegin.
    pose proof (BeginRead_armed s0 p r0 Hp Hr0 Hok0) as Harmed.
    pose proof (NotificationCompletion_rearm s0 p (Z.of_nat (length payload)) r0 Hp Hr0 Hok0 Hterm)
      as Hcompl.
    unfold state_after in Harmed, Hcompl. rewrite Hbegin in Harmed, Hcompl.
    eexists filled, s0, _. split_and!; try eassumption; try reflexivity.
    + simpl. apply lookup_insert_eq.
    + intros s' Hs'. rewrite Hcompl in Hs'.
      apply ProcessNotification_frame in Hs' as (q' & ->). exact Harmed.
    + destruct (NotificationCompletion_begin_rearm s0 p (Z.of_nat (length payload)) r0
                  Hp Hr0 Hok0 Hterm) as (rest & Hstage & Hrest).
      unfold state_after in Hstage. rewrite Hbegin in Hstage.
      exists rest. split; [exact Hstage|].
      assert (Hdecode : rest (mk_State (watcher s0)
                                (<[p := ReadChangesRequest.set_buffer_index
                                          (Z.lxor (ReadChangesRequest.buffer_index r0) 1) r0]>
                                   (heap s0))
                                (calls s0
                                 ++ [ReadDirectoryChangesExW (ReadChangesRequest.directory r0) p
                                       (buffer_offset r0 (ReadChangesRequest.buffer_index r0))
                                       (ReadChangesRequest.buffer_size r0)
                                       (ReadChangesRequest.is_recursive r0) filters]))
                        = ProcessNotification
                            (if Z.of_nat (length payload) =? 0 then None
                             else Some (drop (Z.to_nat (buffer_offset r other)) filled))
                            (ReadChangesRequest.path r) (ReadChangesRequest.path_length r)
                            (mk_State (watcher s0)
                               (<[p := ReadChangesRequest.set_buffer_index
                                         (Z.lxor (ReadChangesRequest.buffer_index r0) 1) r0]>
                                  (heap s0))
                               (calls s0
                                ++ [ReadDirectoryChangesExW (ReadChangesRequest.directory r0) p
                                      (buffer_offset r0 (ReadChangesRequest.buffer_index r0))
                                      (ReadChangesRequest.buffer_size r0)
                                      (ReadChangesRequest.is_recursive r0) filters]))).
      { rewrite (Hrest _ (ReadChangesRequest.set_buffer_index
                             (Z.lxor (ReadChangesRequest.buffer_index r0) 1) r0))
          by (simpl; apply lookup_insert_eq).
        reflexivity. }
      split; [exact Hdecode|].
      rewrite Hdecode. exact Hcompl.
Qed.

Section OverflowFacts.

Lemma write_char_ok (array : list Z) (i : nat) (v : Z) :
  (i < length array)%nat ->
  write_char array (Z.of_nat i) v tt = Ok (<[i := v]> array) tt.
Proof.
  intros H. unfold write_char. rewrite !andb_true_intro; [|split; lia].
  rewrite Nat2Z.id. reflexivity.
Qed.

Lemma zero_path_length : length (FileChange.path FileChange.zero) = 780%nat.
Proof. reflexivity. Qed.

(** The record built for a null buffer. *)
Lemma overflow_change_ok (dir : list Z) (len : Z) :
  0 <= len <= Z.of_nat (length dir) ->
  Z.of_nat (length (utf8_of_utf16 (take (Z.to_nat len) dir))) < MAX_PATH * 3 ->
  exists c,
    overflow_change dir len tt = Ok c tt /\
    FileChange.action c = TooManyChanges /\
    FileChange.is_directory c = true /\
    FileChange.path_bytes c = utf8_of_utf16 (take (Z.to_nat len) dir) /\
    FileChange.path_length c = Z.of_nat (length (utf8_of_utf16 (take (Z.to_nat len) dir))).
Proof.
  intros Hlen Hfit. unfold MAX_PATH in Hfit.
  set (stem := take (Z.to_nat len) dir) in *. set (bytes := utf8_of_utf16 stem) in *.
  assert (Hstem : Z.of_nat (length stem) = len) by (unfold stem; rewrite length_take; lia).
  unfold overflow_change, bind.
  destruct (decide (len = 0)) as [->|Hpos].
  - unfold WideCharToMultiByte. change ((0 =? 0) || (0 <? -1)) with true. cbv beta iota.
    unfold ret at 1. cbn [fst snd].
    pose proof (write_char_ok (FileChange.path FileChange.zero) 0 0
                  ltac:(rewrite zero_path_length; lia)) as Hw.
    change (Z.of_nat 0) with 0 in Hw. rewrite Hw.
    eexists. split; [reflexivity|]. unfold FileChange.path_bytes. simpl.
    split_and!; try reflexivity.
  - replace (Some <$> dir) with ((Some <$> stem) ++ (Some <$> drop (Z.to_nat len) dir))
      by (rewrite <- fmap_app; unfold stem; rewrite take_drop; reflexivity).
    rewrite <- Hstem.
    rewrite WideCharToMultiByte_ok; cycle 1.
    { intros Hnil. rewrite Hnil in Hstem. simpl in Hstem. lia. }
    { fold bytes. unfold MAX_PATH. lia. }
    fold bytes. cbn [fst snd].
    rewrite write_char_ok
      by (rewrite length_app, length_drop, zero_path_length; lia).
    eexists. split; [reflexivity|]. unfold FileChange.path_bytes.
    cbn [FileChange.path FileChange.path_length FileChange.action FileChange.is_directory].
    split_and!; try reflexivity.
    rewrite Nat2Z.id. rewrite take_insert_ge by lia. apply take_app_length.
Qed.
End OverflowFacts.

(** C4 (amended).  On a watcher whose termination flag is unset, a
    completion with no error and zero bytes transferred is treated as
    overflow: a read is re-armed, so the watch continues, and the decoder,
    called with a null buffer, pushes exactly one record, with action
    [TooManyChanges], [is_directory] set, and the watched directory's own
    path as its path, provided the UTF-8 form of that path is shorter than
    [MAX_PATH * 3] bytes, which is what [path] holds together with its
    terminator. *)
Theorem overflow_completion (s : State) (p : Z) (r : ReadChangesRequest.t)
        (l : list FileChange) :
  p <> 0 -> heap s !! p = Some r -> request_ok r ->
  DirectoryWatcher.should_terminate (watcher s) = false ->
  QueueModel.holds (queue_of s) l ->
  2 * (ThreadSafeQueue.count (queue_of s) + 1) <= QueueModel.MAX_CAPACITY ->
  0 <= ReadChangesRequest.path_length r <= Z.of_nat (length (ReadChangesRequest.path r)) ->
  let directory_path :=
    take (Z.to_nat (ReadChangesRequest.path_length r)) (ReadChangesRequest.path r) in
  Z.of_nat (length (utf8_of_utf16 directory_path)) < MAX_PATH * 3 ->
  exists c q' s1,
    BeginRead p s = Ok tt s1 /\
    calls s1 = calls s ++ [ReadDirectoryChangesExW (ReadChangesRequest.directory r) p
                             (buffer_offset r (ReadChangesRequest.buffer_index r))
                             (ReadChangesRequest.buffer_size r)
                             (ReadChangesRequest.is_recursive r) filters] /\
    armed s1 p /\
    NotificationCompletion 0 0 p s = ProcessNotification None (ReadChangesRequest.path r)
                                       (ReadChangesRequest.path_length r) s1 /\
    NotificationCompletion 0 0 p s = Ok tt (with_queue q' s1) /\
    QueueModel.holds q' (l ++ [c]) /\
    FileChange.action c = TooManyChanges /\
    FileChange.is_directory c = true /\
    FileChange.path_bytes c = utf8_of_utf16 directory_path.
Proof.
  intros Hp Hr Hok Hterm Hh Hcap Hlen directory_path Hfit.
  destruct (overflow_change_ok _ _ Hlen Hfit) as (c & Hc & Hact & Hdir & Hpath & _).
  destruct (Push_holds c (queue_of s) l Hh) as (q' & Hpush & Hh' & _ & _).
  { destruct Hh as (_ & [_ ? ? ?] & _). unfold ThreadSafeQueue.GrowRate.
    destruct (decide (ThreadSafeQueue.count (queue_of s) < ThreadSafeQueue.capacity (queue_of s)));
      [left; auto|right; lia]. }
  pose proof (BeginRead_ok s p r Hp Hr Hok) as Hbegin.
  pose proof (BeginRead_armed s p r Hp Hr Hok) as Harmed.
  pose proof (NotificationCompletion_rearm s p 0 r Hp Hr Hok Hterm) as Hcompl.
  unfold state_after in Harmed, Hcompl. rewrite Hbegin in Harmed, Hcompl.
  change (0 =? 0) with true in Hcompl. cbv iota in Hcompl.
  eexists c, q', _. split_and!; try eassumption; try reflexivity.
  rewrite Hcompl. unfold ProcessNotification, bind.
  rewrite (lift_ok _ _ _ _ Hc). apply on_queue_ok. exact Hpush.
Qed.

Lemma sample_request_ok : request_ok sample_request.
Proof. split; simpl; unfold INT32_MAX; lia. Defined.

Lemma watching_state_request : heap watching_state !! 1000 = Some sample_request.
Proof. vm_compute. reflexivity. Defined.

Lemma created_queue_holds : QueueModel.holds created_queue [].
Proof.
  unfold QueueModel.holds. split_and!; [reflexivity| |reflexivity].
  split; simpl; unfold QueueModel.MAX_CAPACITY, ThreadSafeQueue.InitialCapacity; try lia.
  eexists; split; reflexivity.
Defined.

Lemma watching_state_holds : QueueModel.holds (queue_of watching_state) [].
Proof.
  replace (queue_of watching_state) with created_queue by (vm_compute; reflexivity).
  exact created_queue_holds.
Defined.

Lemma overflow_completion_witness :
  exists c q' s1,
    BeginRead 1000 watching_state = Ok tt s1 /\
    armed s1 1000 /\
    NotificationCompletion 0 0 1000 watching_state = Ok tt (with_queue q' s1) /\
    QueueModel.holds q' [c] /\
    FileChange.action c = TooManyChanges /\
    FileChange.is_directory c = true /\
    FileChange.path_bytes c = units_of_string "C:\data".
Proof.
  destruct (overflow_completion watching_state 1000 sample_request [])
    as (c & q' & s1 & Hbegin & _ & Harmed & _ & Hrun & Hh & Hact & Hdir & Hpath).
  - lia.
  - exact watching_state_request.
  - exact sample_request_ok.
  - reflexivity.
  - exact watching_state_holds.
  - vm_compute. discriminate.
  - simpl. lia.
  - vm_compute. reflexivity.
  - exists c, q', s1. split_and!; auto.
Defined.

(** A watched directory whose path is 799 units long, on a watcher that is
    not terminating: the record queued for an overflow has an empty path,
    not the directory's path. *)
Lemma overflow_with_long_path :
  DirectoryWatcher.should_terminate (watcher long_watch_state) = false /\
  (exists r,
      heap long_watch_state !! 1000 = Some r /\
      take (Z.to_nat (ReadChangesRequest.path_length r)) (ReadChangesRequest.path r)
      = take 799 long_directory) /\
  exists c s' s'',
    NotificationCompletion 0 0 1000 long_watch_state = Ok tt s' /\
    TryGetNextChange s' = Ok (Some c) s'' /\
    TryGetNextChange s'' = Ok None s'' /\
    FileChange.action c = TooManyChanges /\
    FileChange.path_length c = 0 /\
    FileChange.path_bytes c = [] /\
    FileChange.path_bytes c <> utf8_of_utf16 (take 799 long_directory).
Proof.
  split; [reflexivity|]. split.
  - eexists. split; vm_compute; reflexivity.
  - exists (FileChange.mk (FileChange.path FileChange.zero) 0 TooManyChanges 0 0 0 0 0 0 true).
    eexists. eexists. split_and!.
    + vm_compute. reflexivity.
    + vm_compute. reflexivity.
    + vm_compute. reflexivity.
    + reflexivity.
    + reflexivity.
    + reflexivity.
    + vm_compute. discriminate.
Defined.

Section FacadeFacts.

Lemma walk_ok (nodes : list Z) (s : State) :
  Forall (live_node (heap s)) nodes -> walk nodes s = Ok tt s.
Proof.
  induction 1 as [|p nodes [Hp [r Hr]] _ IH]; [reflexivity|].
  cbn [walk]. unfold bind. rewrite (deref_ok s p r Hp Hr). exact IH.
Qed.


Lemma cancel_all_ok (nodes : list Z) (w : DirectoryWatcher.t)
      (h : gmap Z ReadChangesRequest.t) (cs : list SysCall) :
  Forall (live_node h) nodes ->
  cancel_all nodes (mk_State w h cs) = Ok tt (mk_State w h (cs ++ cancel_calls h nodes)).
Proof.
  intros Hall. revert cs.
  induction Hall as [|p nodes [Hp [r Hr]] _ IH]; intros cs.
  - simpl. rewrite app_nil_r. reflexivity.
  - cbn [cancel_all]. unfold bind. rewrite (deref_ok (mk_State w h cs) p r Hp Hr).
    unfold syscall, modify. simpl. rewrite IH.
    unfold cancel_calls. simpl. rewrite Hr. rewrite <- !app_assoc. reflexivity.
Qed.

Lemma cancel_all_Ok (nodes : list Z) (s s' : State) (u : unit) :
  cancel_all nodes s = Ok u s' ->
  Forall (live_node (heap s)) nodes /\ watcher s' = watcher s /\ heap s' = heap s.
Proof.
  revert s s'. induction nodes as [|p nodes IH]; intros s s' H.
  - inversion H. auto.
  - cbn [cancel_all] in H. inv_bind H. apply deref_Ok in H0 as (-> & Hp & Hr).
    unfold syscall, modify, bind in H. apply IH in H as (Hall & Hw & Hh). simpl in *.
    split_and!; auto. constructor; [split; eauto|exact Hall].
Qed.

Lemma Destroy_ok (q : ThreadSafeQueue) :
  ThreadSafeQueue.lock q <> 1 ->
  ThreadSafeQueue.Destroy q = Ok tt (ThreadSafeQueue.mk 0 None 0 0 0).
Proof.
  intros Hl. unfold ThreadSafeQueue.Destroy, ThreadSafeQueue.Lock, bind, get.
  destruct (Z.eqb_spec (ThreadSafeQueue.lock q) 1); [contradiction|]. reflexivity.
Qed.

Lemma Destroy_Ok (q q' : ThreadSafeQueue) (u : unit) :
  ThreadSafeQueue.Destroy q = Ok u q' ->
  ThreadSafeQueue.lock q <> 1 /\ q' = ThreadSafeQueue.mk 0 None 0 0 0.
Proof.
  intros H. destruct (Z.eq_dec (ThreadSafeQueue.lock q) 1) as [Heq|Hne].
  - unfold ThreadSafeQueue.Destroy, ThreadSafeQueue.Lock, bind, get in H.
    rewrite Heq in H. discriminate H.
  - rewrite (Destroy_ok q Hne) in H. inversion H. auto.
Qed.

(** [ShutDown] in closed form. *)
Lemma ShutDown_ok (s : State) :
  Forall (live_node (heap s)) (DirectoryWatcher.requests (watcher s)) ->
  ThreadSafeQueue.lock (queue_of s) <> 1 ->
  ShutDown s
  = Ok tt (mk_State (shut_down (watcher s)) (heap s)
             (calls s
              ++ cancel_calls (heap s) (DirectoryWatcher.requests (watcher s))
              ++ [CloseHandle (DirectoryWatcher.thread_handle (watcher s))])).
Proof.
  intros Hall Hl. destruct s as [w h cs]. simpl in *.
  unfold ShutDown, bind, on_watcher, modify, get. unfold set_watcher. simpl.
  rewrite cancel_all_ok by exact Hall. unfold syscall, modify. simpl.
  unfold on_queue, zoom. simpl. rewrite Destroy_ok by exact Hl.
  unfold set_watcher, shut_down. simpl. rewrite <- app_assoc. reflexivity.
Qed.

Lemma ShutDown_Ok (s s' : State) :
  ShutDown s = Ok tt s' ->
  Forall (live_node (heap s)) (DirectoryWatcher.requests (watcher s)) /\
  ThreadSafeQueue.lock (queue_of s) <> 1.
Proof.
  destruct s as [w h cs]. unfold ShutDown. intros H.
  inv_bind H. unfold on_watcher, modify in H0. inversion H0; subst; clear H0.
  inv_bind H. unfold get in H0. inversion H0; subst; clear H0.
  inv_bind H. apply cancel_all_Ok in H0 as (Hall & Hw & Hh).
  inv_bind H. unfold syscall, modify in H0. inversion H0; subst; clear H0.
  apply on_queue_Ok in H as (q' & Hd & _). apply Destroy_Ok in Hd as (Hl & _).
  simpl in *. split; [exact Hall|]. unfold queue_of in *. simpl in *.
  rewrite Hw in Hl. exact Hl.
Qed.

Lemma AddDirectory_checks (s : State) (wide : list Z) (memory : Z)
      (directory : option (list Z)) (change_buffer_size : Z) :
  AddDirectory_pre s wide memory directory change_buffer_size ->
  (negb (DirectoryWatcher.thread_handle (watcher s) =? 0)
   && bool_decide (is_Some directory) && (0 <? change_buffer_size) = true) /\
  (negb (memory =? 0) && (0 <? Z.of_nat (length wide)) = true).
Proof.
  intros [Ht Hd Hsz _ Hw _ Hm _].
  assert (0 < Z.of_nat (length wide)) by (destruct wide; [congruence|simpl; lia]).
  split.
  - rewrite bool_decide_eq_true_2 by exact Hd.
    destruct (Z.eqb_spec (DirectoryWatcher.thread_handle (watcher s)) 0); [contradiction|].
    destruct (Z.ltb_spec 0 change_buffer_size); [reflexivity|lia].
  - destruct (Z.eqb_spec memory 0); [contradiction|].
    destruct (Z.ltb_spec 0 (Z.of_nat (length wide))); [reflexivity|lia].
Qed.

(** [AddDirectory] when the directory cannot be opened. *)
Lemma AddDirectory_failure (s : State) (wide : list Z) (memory : Z)
      (directory : option (list Z)) (is_recursive : bool) (change_buffer_size : Z) :
  AddDirectory_pre s wide memory directory change_buffer_size ->
  AddDirectory wide memory INVALID_HANDLE_VALUE directory is_recursive change_buffer_size s
  = Ok false (mk_State (watcher s) (heap s)
                (calls s ++ [CreateFileW wide INVALID_HANDLE_VALUE])).
Proof.
  intros Hpre. destruct (AddDirectory_checks _ _ _ _ _ Hpre) as [Ha1 Ha2].
  destruct Hpre as [Ht Hd Hsz Hb32 Hw Hp32 Hm Hfresh].
  unfold AddDirectory, bind, get. rewrite Ha1. simpl assert. unfold ret at 1.
  rewrite !s32_ok by (unfold INT32_MIN, INT32_MAX in *; lia).
  rewrite Ha2. simpl assert. unfold ret at 1.
  rewrite s32_ok by (unfold INT32_MIN, INT32_MAX in *; lia).
  unfold modify, syscall, free. simpl.
  unfold set_heap. simpl. rewrite delete_insert_id by exact Hfresh.
  destruct s; reflexivity.
Qed.

(** [AddDirectory] when the directory opens. *)
Lemma AddDirectory_success (s : State) (wide : list Z) (memory handle : Z)
      (directory : option (list Z)) (is_recursive : bool) (change_buffer_size : Z) :
  AddDirectory_pre s wide memory directory change_buffer_size ->
  handle <> INVALID_HANDLE_VALUE ->
  Forall (live_node (heap s)) (DirectoryWatcher.requests (watcher s)) ->
  AddDirectory wide memory handle directory is_recursive change_buffer_size s
  = Ok true
      (mk_State
         (DirectoryWatcher.set_requests (DirectoryWatcher.requests (watcher s) ++ [memory])
            (watcher s))
         (<[memory := new_request wide handle is_recursive change_buffer_size]> (heap s))
         (calls s ++ [CreateFileW wide handle;
                      QueueUserAPC (DirectoryWatcher.thread_handle (watcher s)) memory])).
Proof.
  intros Hpre Hopen Hall. destruct (AddDirectory_checks _ _ _ _ _ Hpre) as [Ha1 Ha2].
  destruct Hpre as [Ht Hd Hsz Hb32 Hw Hp32 Hm Hfresh].
  unfold AddDirectory, bind, get. rewrite Ha1. simpl assert. unfold ret at 1.
  rewrite !s32_ok by (unfold INT32_MIN, INT32_MAX in *; lia).
  rewrite Ha2. simpl assert. unfold ret at 1.
  rewrite s32_ok by (unfold INT32_MIN, INT32_MAX in *; lia).
  unfold modify at 1. unfold syscall at 1, modify at 1.
  destruct (Z.eqb_spec handle INVALID_HANDLE_VALUE); [contradiction|]. cbn [negb]. cbv beta iota.
  rewrite walk_ok; cycle 1.
  { simpl. eapply Forall_impl; [exact Hall|]. intros p [Hp [r Hr]]. split; [exact Hp|].
    destruct (decide (p = memory)) as [->|Hne]; [congruence|].
    rewrite lookup_insert_ne by congruence. eauto. }
  unfold on_watcher, modify, syscall, modify, ret. simpl.
  unfold new_request. rewrite <- app_assoc. reflexivity.
Qed.

(** [AddDirectory] returns false only from the branch taken when
    [CreateFileW] fails. *)
Lemma AddDirectory_Ok (s s' : State) (wide : list Z) (memory handle : Z)
      (directory : option (list Z)) (is_recursive : bool) (change_buffer_size : Z) (b : bool) :
  AddDirectory wide memory handle directory is_recursive change_buffer_size s = Ok b s' ->
  (b = false <-> handle = INVALID_HANDLE_VALUE).
Proof.
  unfold AddDirectory. intros H. do 8 inv_bind H.
  destruct (Z.eqb_spec handle INVALID_HANDLE_VALUE) as [Heq|Hne]; cbn [negb] in H.
  - inv_bind H. unfold ret in H. inversion H. tauto.
  - do 3 inv_bind H. unfold ret in H. inversion H. split; [discriminate|contradiction].
Qed.
End FacadeFacts.

Section WorkerFrame.







End WorkerFrame.

(** C7.  [AddDirectory] returns false exactly when [CreateFileW] fails.  In
    that case the block is released (the heap is as before), no watch is
    registered (the watcher object is as before: same list, same counter),
    nothing but the failed [CreateFileW] was asked of the system, and a
    following [ShutDown] returns, cancelling and closing exactly the
    requests that were registered before. *)
Theorem AddDirectory_open_failure
        (s : State) (wide : list Z) (memory handle : Z) (directory : option (list Z))
        (is_recursive : bool) (change_buffer_size : Z) :
  (forall b s',
      AddDirectory wide memory handle directory is_recursive change_buffer_size s = Ok b s' ->
      (b = false <-> handle = INVALID_HANDLE_VALUE)) /\
  (AddDirectory_pre s wide memory directory change_buffer_size ->
   exists s',
     AddDirectory wide memory INVALID_HANDLE_VALUE directory is_recursive change_buffer_size s
     = Ok false s' /\
     heap s' = heap s /\ watcher s' = watcher s /\
     calls s' = calls s ++ [CreateFileW wide INVALID_HANDLE_VALUE] /\
     (Forall (live_node (heap s)) (DirectoryWatcher.requests (watcher s)) ->
      ThreadSafeQueue.lock (queue_of s) <> 1 ->
      ShutDown s'
      = Ok tt (mk_State (shut_down (watcher s)) (heap s)
                 (calls s'
                  ++ cancel_calls (heap s) (DirectoryWatcher.requests (watcher s))
                  ++ [CloseHandle (DirectoryWatcher.thread_handle (watcher s))])))).
Proof.
  split.
  - intros b s' H. eapply AddDirectory_Ok. exact H.
  - intros Hpre. eexists. split; [apply AddDirectory_failure; exact Hpre|].
    split_and!; try reflexivity.
    intros Hall Hl. rewrite ShutDown_ok; [reflexivity|exact Hall|exact Hl].
Qed.


Lemma sample_state_pre :
  AddDirectory_pre sample_state sample_directory 1000 (Some (units_of_string "C:\data")) 256.
Proof.
  split; try (vm_compute; congruence); try (unfold INT32_MAX; simpl; lia).
  eexists. reflexivity.
Defined.

Lemma AddDirectory_open_failure_witness :
  exists s',
    AddDirectory sample_directory 1000 INVALID_HANDLE_VALUE (Some (units_of_string "C:\data"))
      true 256 sample_state = Ok false s' /\
    heap s' = heap sample_state /\ watcher s' = watcher sample_state /\
    calls s' = [CreateThread 77; CreateFileW sample_directory INVALID_HANDLE_VALUE] /\
    ShutDown s'
    = Ok tt (mk_State (shut_down (watcher sample_state)) (heap sample_state)
               [CreateThread 77; CreateFileW sample_directory INVALID_HANDLE_VALUE;
                CloseHandle 77]) /\
    (false = false <-> INVALID_HANDLE_VALUE = INVALID_HANDLE_VALUE).
Proof.
  destruct (AddDirectory_open_failure sample_state sample_directory 1000 INVALID_HANDLE_VALUE
              (Some (units_of_string "C:\data")) true 256) as [Honly Hfail].
  destruct (Hfail sample_state_pre) as (s' & Hrun & Hheap & Hwatcher & Hcalls & Hshut).
  exists s'. split_and!; auto.
  - rewrite Hshut.
    + rewrite Hcalls. reflexivity.
    + constructor.
    + vm_compute. discriminate.
  - exact (Honly false s' Hrun).
Defined.



(** C3.  [ShutDown] on a watcher with one request in flight: it sets the
    flag, cancels and closes the directory handle, closes the thread handle
    and destroys the queue, and that is all.  It asks the system for no
    wait; when it returns the outstanding-request counter is still 1, so the
    loop of [ThreadProc] is still running, the request block is not yet
    freed, and a [Push] the worker thread still has to do meets a destroyed
    queue. *)
Theorem ShutDown_returns_without_joining :
  exists s',
    ShutDown watching_state = Ok tt s' /\
    calls s' = calls watching_state ++ [CancelIo 55; CloseHandle 55; CloseHandle 77] /\
    DirectoryWatcher.should_terminate (watcher s') = true /\
    DirectoryWatcher.outstanding_request_count (watcher s') = 1 /\
    ThreadProc_continues (watcher s') = true /\
    heap s' !! 1000 = Some sample_request /\
    ThreadSafeQueue.data (queue_of s') = None /\
    on_queue (ThreadSafeQueue.Push sample_first) s' = Err AssertFailed.
Proof.
  eexists. split; [vm_compute; reflexivity|].
  split_and!; vm_compute; reflexivity.
Qed.

Lemma double_buffering_witness :
  request_ok (new_request sample_directory 55 true 256) /\
  armed (state_after (ThreadAddDirectoryProc 1000) watching_state) 1000 /\
  exists filled s0 s1 rest,
    os_fill 1000 sample_entry watching_state = Ok tt s0 /\
    take (length sample_entry) (drop (Z.to_nat 0) filled) = sample_entry /\
    BeginRead 1000 s0 = Ok tt s1 /\
    calls s1 = calls watching_state ++ [ReadDirectoryChangesExW 55 1000 256 256 true filters] /\
    armed s1 1000 /\
    NotificationCompletion 0 (Z.of_nat (length sample_entry)) 1000 s0
    = ProcessNotification (Some (drop (Z.to_nat 0) filled)) sample_directory 7 s1 /\
    NotificationCompletion_begin 0 (Z.of_nat (length sample_entry)) 1000 s0 = Ok rest s1 /\
    queue_of s1 = queue_of watching_state /\
    NotificationCompletion 0 (Z.of_nat (length sample_entry)) 1000 s0 = rest s1.
Proof.
  destruct (double_buffering watching_state 1000 sample_request sample_entry)
    as (Hnew & Hjob & Hcompletion & _).
  - lia.
  - exact watching_state_request.
  - exact sample_request_ok.
  - split; [apply (Hnew sample_directory 55 true 256); unfold INT32_MAX; lia|].
    split; [exact Hjob|].
    destruct Hcompletion
      as (_ & _ & _ & filled & s0 & s1 & Hfill & _ & Htake & Hbegin & Hcalls & _ & Hqueue
          & Harmed & Hrun & _ & rest & Hstage & _ & Hwhole).
    + vm_compute. reflexivity.
    + reflexivity.
    + vm_compute. discriminate.
    + exists filled, s0, s1, rest. split_and!; auto.
Defined.

(** * Further properties of the queue *)

Section QueueFrames.
Import ThreadSafeQueue QueueModel.

Lemma Grow_frame (q q' : ThreadSafeQueue) (u : unit) :
  Grow q = Ok u q' ->
  lock q' = lock q /\ count q' = count q /\ capacity q' = capacity q * GrowRate
  /\ front_index q' = 0.
Proof.
  unfold Grow, s32, bind, get, put, ret, throw, assert, from_option.
  intros H. repeat (case_match; simplify_eq; try discriminate); auto.
Qed.

Lemma Push_frame (x : FileChange) (q q' : ThreadSafeQueue) (u : unit) :
  Push x q = Ok u q' ->
  lock q' = 0 /\ count q' = count q + 1 /\
  capacity q' = (if count q =? capacity q then capacity q * GrowRate else capacity q).
Proof.
  unfold Push. unfold bind at 1. unfold Lock, bind at 1, get, put.
  destruct (lock q =? 1); [discriminate|].
  unfold bind at 1 2. unfold get.
  set (q1 := set_lock 1 q).
  assert (Hgrow : forall r, (if count q1 =? capacity q1 then Grow else ret tt) q1 = r ->
                            match r with
                            | Ok _ q2 =>
                                count q2 = count q /\
                                capacity q2 = (if count q =? capacity q
                                               then capacity q * GrowRate else capacity q)
                            | Err _ => True
                            end).
  { intros r <-. change (count q1) with (count q). change (capacity q1) with (capacity q).
    destruct (count q =? capacity q).
    - destruct (Grow q1) as [[] q2|] eqn:Hg; [|exact I].
      apply Grow_frame in Hg as (_ & Hc & Hk & _). auto.
    - simpl. auto. }
  specialize (Hgrow _ eq_refl).
  destruct ((if count q1 =? capacity q1 then Grow else ret tt) q1) as [[] q2|]; [|discriminate].
  destruct Hgrow as [Hc Hk].
  unfold Unlock, store, s32_rem, s32, bind, get, put, modify, ret, throw, from_option.
  intros H. repeat (case_match; simplify_eq; try discriminate); simpl;
    (split_and!; [reflexivity|lia|assumption]).
Qed.

Lemma Pop_frame (q q' : ThreadSafeQueue) (r : option FileChange) :
  Pop q = Ok r q' ->
  lock q' = 0 /\ data q' = data q /\ capacity q' = capacity q /\
  match r with
  | None => count q' = count q /\ front_index q' = front_index q
  | Some x =>
      count q' = count q - 1 /\
      front_index q' = Z.rem (front_index q + 1) (capacity q) /\
      cells q !! Z.to_nat (front_index q) = Some (Some x)
  end.
Proof.
  unfold Pop, Lock, Unlock, load, s32_rem, s32, bind, get, put, modify, ret, throw,
    from_option, cells.
  intros H.
  repeat (case_match; unfold ret, throw in *; simplify_eq; try discriminate);
    simpl in *; split_and!; auto.
  all: match goal with
       | Hd : data ?q = Some _ |- context [data ?q] => rewrite Hd; simpl; assumption
       end.
Qed.
End QueueFrames.

Section QueueBookkeeping.
Import ThreadSafeQueue QueueModel.

Lemma run_bookkeeping (ops : list QueueOp) :
  forall (q q' : ThreadSafeQueue) (outs : list (option FileChange)),
    run ops q = Ok outs q' ->
    count q' = count q + Z.of_nat (length (pushed_records ops))
               - Z.of_nat (length (delivered outs)) /\
    (exists k : nat, capacity q' = capacity q * GrowRate ^ Z.of_nat k) /\
    capacity q' <= Z.max (capacity q)
                         (GrowRate * (count q + Z.of_nat (length (pushed_records ops)))).
Proof.
  unfold GrowRate.
  induction ops as [|[x|] ops IH]; intros q q' outs H.
  - inversion H; subst. simpl. split_and!; [lia|exists 0%nat; simpl; lia|lia].
  - cbn [run] in H. inv_bind H. apply Push_frame in H0 as (_ & Hc & Hk).
    apply IH in H as (Hcount & [k Hcap] & Hmax). cbn [pushed_records length].
    unfold GrowRate in *.
    split_and!.
    + lia.
    + destruct (Z.eqb_spec (count q) (capacity q)).
      * exists (S k). rewrite Hcap, Hk, Nat2Z.inj_succ, Z.pow_succ_r by lia. lia.
      * exists k. rewrite Hcap, Hk. reflexivity.
    + destruct (Z.eqb_spec (count q) (capacity q)); lia.
  - cbn [run] in H. inv_bind H. inv_bind H. unfold ret in H. inversion H; subst; clear H.
    apply Pop_frame in H0 as (_ & _ & Hk & Hr).
    apply IH in H1 as (Hcount & [k Hcap] & Hmax). cbn [pushed_records].
    unfold delivered in *.
    split_and!.
    + destruct a as [c|]; destruct Hr as (Hr & _).
      * change (omap id (Some c :: a0)) with (c :: omap id a0). cbn [length]. lia.
      * change (omap id (None :: a0)) with (omap id a0). lia.
    + exists k. rewrite Hcap, Hk. reflexivity.
    + destruct a as [c|]; [destruct Hr as (Hr & _)|destruct Hr as (Hr & _)]; lia.
Qed.
End QueueBookkeeping.

(** X1.  Whatever state the queue is in, a [Pop] that returns has released
    the lock and has not touched the array or the capacity; when it returns
    false the count and the front index are as before, and when it returns
    true the record is the one stored at [front_index], the count is one
    less and the front index has advanced by one modulo the capacity. *)
Theorem Pop_touches_only_the_indices
        (q q' : ThreadSafeQueue) (r : option FileChange) :
  ThreadSafeQueue.Pop q = Ok r q' ->
  ThreadSafeQueue.lock q' = 0 /\
  ThreadSafeQueue.data q' = ThreadSafeQueue.data q /\
  ThreadSafeQueue.capacity q' = ThreadSafeQueue.capacity q /\
  match r with
  | None =>
      ThreadSafeQueue.count q' = ThreadSafeQueue.count q /\
      ThreadSafeQueue.front_index q' = ThreadSafeQueue.front_index q
  | Some x =>
      ThreadSafeQueue.count q' = ThreadSafeQueue.count q - 1 /\
      ThreadSafeQueue.front_index q'
      = Z.rem (ThreadSafeQueue.front_index q + 1) (ThreadSafeQueue.capacity q) /\
      QueueModel.cells q !! Z.to_nat (ThreadSafeQueue.front_index q) = Some (Some x)
  end.
Proof. apply Pop_frame. Qed.

Lemma Pop_touches_only_the_indices_witness :
  ThreadSafeQueue.data (QueueModel.popped wrapped_full_queue)
  = ThreadSafeQueue.data wrapped_full_queue /\
  ThreadSafeQueue.front_index (QueueModel.popped wrapped_full_queue) = 0 /\
  ThreadSafeQueue.count lone_rename_queue = 1.
Proof.
  destruct (Pop_touches_only_the_indices wrapped_full_queue
              (QueueModel.popped wrapped_full_queue) (Some sample_first))
    as (_ & Hdata & _ & _ & Hfront & _); [vm_compute; reflexivity|].
  destruct (Pop_touches_only_the_indices lone_rename_queue lone_rename_queue None)
    as (_ & _ & _ & Hcount & _); [vm_compute; reflexivity|].
  split_and!; [exact Hdata|rewrite Hfront; reflexivity|reflexivity].
Defined.

(** X2.  For every sequence of [Push] and [Pop] calls that runs to the end,
    on any queue: the count has grown by the number of pushes minus the
    number of pops that returned true; the capacity is the old capacity
    times a power of [GrowRate]; and it is at most the larger of the old
    capacity and twice the old count plus the number of pushes, so the queue
    never holds more than twice the storage it ever needed. *)
Theorem run_count_and_capacity
        (ops : list QueueOp) (q q' : ThreadSafeQueue) (outs : list (option FileChange)) :
  run ops q = Ok outs q' ->
  ThreadSafeQueue.count q'
  = ThreadSafeQueue.count q + Z.of_nat (length (pushed_records ops))
    - Z.of_nat (length (delivered outs)) /\
  (exists k : nat,
      ThreadSafeQueue.capacity q'
      = ThreadSafeQueue.capacity q * ThreadSafeQueue.GrowRate ^ Z.of_nat k) /\
  ThreadSafeQueue.capacity q'
  <= Z.max (ThreadSafeQueue.capacity q)
           (ThreadSafeQueue.GrowRate
            * (ThreadSafeQueue.count q + Z.of_nat (length (pushed_records ops)))).
Proof. apply run_bookkeeping. Qed.

Lemma run_count_and_capacity_witness :
  ThreadSafeQueue.count
    (state_after (run [OpPush sample_third; OpPop; OpPush sample_first; OpPop])
       wrapped_full_queue) = 2 /\
  ThreadSafeQueue.capacity
    (state_after (run [OpPush sample_third; OpPop; OpPush sample_first; OpPop])
       wrapped_full_queue) <= 8.
Proof.
  destruct (run_count_and_capacity [OpPush sample_third; OpPop; OpPush sample_first; OpPop]
              wrapped_full_queue
              (state_after (run [OpPush sample_third; OpPop; OpPush sample_first; OpPop])
                 wrapped_full_queue)
              [Some sample_first; Some sample_second])
    as (Hcount & _ & Hmax); [vm_compute; reflexivity|].
  split; [rewrite Hcount; reflexivity|].
  etransitivity; [exact Hmax|]. vm_compute. discriminate.
Defined.

(** X3.  A full queue whose capacity can no longer be doubled within an s32
    cannot take another record: [Push] gets as far as [Grow], whose
    [capacity * GrowRate] leaves the s32 range. *)
Theorem Push_beyond_s32 (x : FileChange) (q : ThreadSafeQueue) :
  ThreadSafeQueue.lock q <> 1 ->
  is_Some (ThreadSafeQueue.data q) ->
  ThreadSafeQueue.count q = ThreadSafeQueue.capacity q ->
  INT32_MAX < ThreadSafeQueue.capacity q * ThreadSafeQueue.GrowRate ->
  ThreadSafeQueue.Push x q = Err SignedOverflow.
Proof.
  intros Hlock [cs Hdata] Hfull Hbig.
  unfold ThreadSafeQueue.Push, ThreadSafeQueue.Lock, bind, get, put.
  destruct (Z.eqb_spec (ThreadSafeQueue.lock q) 1); [contradiction|].
  change (ThreadSafeQueue.count (ThreadSafeQueue.set_lock 1 q)) with (ThreadSafeQueue.count q).
  change (ThreadSafeQueue.capacity (ThreadSafeQueue.set_lock 1 q))
    with (ThreadSafeQueue.capacity q).
  rewrite Hfull, Z.eqb_refl.
  unfold ThreadSafeQueue.Grow, bind, get. simpl. rewrite Hdata.
  rewrite bool_decide_eq_true_2 by eauto.
  destruct (Z.eqb_spec (ThreadSafeQueue.capacity q) 0) as [Hz|_].
  { rewrite Hz in Hbig. unfold INT32_MAX in Hbig. simpl in Hbig. lia. }
  simpl. unfold s32, in_s32.
  destruct (Z.leb_spec (ThreadSafeQueue.capacity q * ThreadSafeQueue.GrowRate) INT32_MAX);
    [lia|].
  rewrite andb_false_r. reflexivity.
Qed.

Lemma Push_beyond_s32_witness :
  ThreadSafeQueue.Push sample_first (ThreadSafeQueue.mk 0 (Some []) 1073741824 1073741824 0)
  = Err SignedOverflow.
Proof.
  apply Push_beyond_s32.
  - simpl. lia.
  - eexists. reflexivity.
  - reflexivity.
  - vm_compute. reflexivity.
Defined.

(** * The consumer's loop *)

Section PollFacts.
Import ThreadSafeQueue QueueModel.

Lemma drained_split (l : list FileChange) :
  (drained l).1 ++ (drained l).2 = l /\
  ((drained l).2 = [] \/
   exists x, (drained l).2 = [x] /\ last l = Some x /\ FileChange.action x = RenamedFrom).
Proof.
  induction l as [|x [|y rest] IH].
  - simpl. auto.
  - simpl. destruct (bool_decide (FileChange.action x = RenamedFrom)) eqn:Hx; simpl.
    + split; [reflexivity|]. right. exists x. apply bool_decide_eq_true_1 in Hx. auto.
    + auto.
  - destruct IH as [Happ Hrest].
    change (drained (x :: y :: rest))
      with (x :: (drained (y :: rest)).1, (drained (y :: rest)).2).
    cbn [fst snd]. split.
    + rewrite <- app_comm_cons, Happ. reflexivity.
    + destruct Hrest as [Hnil|(z & Hz & Hlast & Hact)]; [left; exact Hnil|].
      right. exists z. split_and!; auto.
Qed.

Lemma TryGetNextChange_ok (s : State) (l : list FileChange) :
  holds (queue_of s) l ->
  exists q',
    TryGetNextChange s = Ok (pop_ref l).1 (with_queue q' s) /\ holds q' (pop_ref l).2.
Proof.
  intros Hh. destruct (Pop_holds _ _ Hh) as (q' & Hpop & Hh' & _).
  exists q'. split; [|exact Hh']. unfold TryGetNextChange. apply on_queue_ok. exact Hpop.
Qed.

Lemma poll_all_ok (l : list FileChange) :
  forall (fuel : nat) (s : State),
    holds (queue_of s) l -> (length l < fuel)%nat ->
    exists q', poll_all fuel s = Ok (drained l).1 (with_queue q' s) /\ holds q' (drained l).2.
Proof.
  induction l as [|x [|y rest] IH]; intros fuel s Hh Hfuel.
  - destruct fuel as [|fuel]; [simpl in Hfuel; lia|].
    destruct (TryGetNextChange_ok s [] Hh) as (q' & Hpop & Hh').
    exists q'. cbn [poll_all]. unfold bind. rewrite Hpop. simpl. auto.
  - destruct fuel as [|fuel]; [simpl in Hfuel; lia|].
    destruct (TryGetNextChange_ok s [x] Hh) as (q1 & Hpop & Hh1).
    cbn [poll_all]. unfold bind. rewrite Hpop. simpl in *.
    destruct (bool_decide (FileChange.action x = RenamedFrom)); simpl in *.
    + exists q1. auto.
    + destruct fuel as [|fuel]; [lia|].
      destruct (TryGetNextChange_ok (with_queue q1 s) [] Hh1) as (q2 & Hpop2 & Hh2).
      cbn [poll_all]. unfold bind. rewrite Hpop2. simpl. exists q2. auto.
  - destruct fuel as [|fuel]; [simpl in Hfuel; lia|].
    destruct (TryGetNextChange_ok s (x :: y :: rest) Hh) as (q1 & Hpop & Hh1).
    cbn [pop_ref fst snd] in Hpop, Hh1.
    destruct (IH fuel (with_queue q1 s) Hh1) as (q' & Hrun & Hh').
    { cbn [length] in *. lia. }
    exists q'. cbn [poll_all]. unfold bind. rewrite Hpop. unfold bind. rewrite Hrun.
    rewrite with_queue_with_queue.
    change (drained (x :: y :: rest))
      with (x :: (drained (y :: rest)).1, (drained (y :: rest)).2).
    auto.
Qed.
End PollFacts.

(** X4.  Calling [TryGetNextChange] until it returns false, on a queue
    holding [l], returns; it hands out the records of [l] in order and
    leaves the queue empty, except that a rename-from record in last
    position is not handed out and stays queued.  Nothing but the queue
    changes. *)
Theorem poll_all_drains (s : State) (l : list FileChange) (fuel : nat) :
  QueueModel.holds (queue_of s) l -> (length l < fuel)%nat ->
  exists q',
    poll_all fuel s = Ok (drained l).1 (with_queue q' s) /\
    QueueModel.holds q' (drained l).2 /\
    (drained l).1 ++ (drained l).2 = l /\
    ((drained l).2 = [] \/
     exists x, (drained l).2 = [x] /\ last l = Some x /\ FileChange.action x = RenamedFrom).
Proof.
  intros Hh Hfuel. destruct (poll_all_ok l fuel s Hh Hfuel) as (q' & Hrun & Hh').
  destruct (drained_split l) as [Happ Hrest].
  exists q'. auto.
Qed.

Lemma rename_pair_queue_holds :
  QueueModel.holds rename_pair_queue [sample_first; sample_rename_from; sample_rename_to].
Proof.
  unfold QueueModel.holds. split_and!; [reflexivity| |reflexivity].
  split; simpl; unfold QueueModel.MAX_CAPACITY; try lia. eexists; split; reflexivity.
Defined.

Lemma split_rename_queue_holds :
  QueueModel.holds split_rename_queue [sample_first; sample_rename_from].
Proof.
  unfold QueueModel.holds. split_and!; [reflexivity| |reflexivity].
  split; simpl; unfold QueueModel.MAX_CAPACITY; try lia. eexists; split; reflexivity.
Defined.

Lemma poll_all_drains_witness :
  (exists q',
      poll_all 4 (with_queue rename_pair_queue sample_state)
      = Ok [sample_first; sample_rename_from; sample_rename_to]
           (with_queue q' sample_state) /\
      QueueModel.holds q' []) /\
  (exists q',
      poll_all 4 (with_queue split_rename_queue sample_state)
      = Ok [sample_first] (with_queue q' sample_state) /\
      QueueModel.holds q' [sample_rename_from]).
Proof.
  split.
  - destruct (poll_all_drains (with_queue rename_pair_queue sample_state)
                [sample_first; sample_rename_from; sample_rename_to] 4)
      as (q' & Hrun & Hh & _).
    + exact rename_pair_queue_holds.
    + simpl. lia.
    + exists q'. split; [exact Hrun|exact Hh].
  - destruct (poll_all_drains (with_queue split_rename_queue sample_state)
                [sample_first; sample_rename_from] 4)
      as (q' & Hrun & Hh & _).
    + exact split_rename_queue_holds.
    + simpl. lia.
    + exists q'. split; [exact Hrun|exact Hh].
Defined.

(** * Further properties of the facade *)

(** X5.  [Initialize] succeeds on any watcher object, whatever it held: the
    queue is a fresh empty one of [InitialCapacity] cells, the request
    list is empty, the termination flag is unset, the counter is 0 and the
    handle [CreateThread] returned is stored; request blocks already
    allocated are neither freed nor listed any more.  The first
    [TryGetNextChange] after it returns false. *)
Theorem Initialize_resets (s : State) (thread : Z) :
  let s' := mk_State (DirectoryWatcher.mk created_queue [] thread false 0) (heap s)
              (calls s ++ [CreateThread thread]) in
  Initialize thread s = Ok tt s' /\
  QueueModel.holds (queue_of s') [] /\
  ThreadSafeQueue.capacity (queue_of s') = ThreadSafeQueue.InitialCapacity /\
  ThreadProc_continues (watcher s') = true /\
  TryGetNextChange s' = Ok None s'.
Proof.
  intros s'. split_and!.
  - destruct s as [[q rs th term n] h cs]. reflexivity.
  - exact created_queue_holds.
  - reflexivity.
  - reflexivity.
  - reflexivity.
Qed.

(** X6.  On a watcher whose list nodes are all live and whose queue is not
    locked, [ShutDown] returns.  It has set the termination flag; it has
    called [CancelIo] and then [CloseHandle] on the directory handle of each
    request, in list order, and [CloseHandle] on the thread handle last; it
    has freed no request block and has changed neither the request list nor
    the outstanding-request counter.  The queue is destroyed, so records
    still queued are gone: [TryGetNextChange] afterwards returns false, and
    a [Push] afterwards fails the assertion in [Grow].  Conversely [ShutDown]
    returns only if every list node is live. *)
Theorem ShutDown_effects (s : State) :
  (Forall (live_node (heap s)) (DirectoryWatcher.requests (watcher s)) ->
   ThreadSafeQueue.lock (queue_of s) <> 1 ->
   exists s',
     ShutDown s = Ok tt s' /\
     calls s' = calls s
                ++ cancel_calls (heap s) (DirectoryWatcher.requests (watcher s))
                ++ [CloseHandle (DirectoryWatcher.thread_handle (watcher s))] /\
     heap s' = heap s /\
     DirectoryWatcher.requests (watcher s') = DirectoryWatcher.requests (watcher s) /\
     DirectoryWatcher.outstanding_request_count (watcher s')
     = DirectoryWatcher.outstanding_request_count (watcher s) /\
     DirectoryWatcher.should_terminate (watcher s') = true /\
     queue_of s' = ThreadSafeQueue.mk 0 None 0 0 0 /\
     TryGetNextChange s' = Ok None s' /\
     forall x, on_queue (ThreadSafeQueue.Push x) s' = Err AssertFailed) /\
  (forall s',
      ShutDown s = Ok tt s' ->
      Forall (live_node (heap s)) (DirectoryWatcher.requests (watcher s)) /\
      ThreadSafeQueue.lock (queue_of s) <> 1).
Proof.
  split.
  - intros Hall Hlock. eexists. split; [apply ShutDown_ok; assumption|].
    split_and!; try reflexivity.
  - intros s' H. eapply ShutDown_Ok. exact H.
Qed.

Lemma two_watches_live :
  Forall (live_node (heap two_watches_state))
    (DirectoryWatcher.requests (watcher two_watches_state)).
Proof.
  change (DirectoryWatcher.requests (watcher two_watches_state)) with [1000; 2000].
  repeat constructor; try lia; eexists; vm_compute; reflexivity.
Defined.

Lemma ShutDown_effects_witness :
  exists s',
    ShutDown two_watches_state = Ok tt s' /\
    calls s' = calls two_watches_state
               ++ [CancelIo 55; CloseHandle 55; CancelIo 56; CloseHandle 56; CloseHandle 77] /\
    DirectoryWatcher.outstanding_request_count (watcher s') = 2 /\
    TryGetNextChange s' = Ok None s' /\
    Forall (live_node (heap two_watches_state)) [1000; 2000].
Proof.
  destruct (ShutDown_effects two_watches_state) as [Hrun Honly].
  destruct (Hrun two_watches_live) as (s' & Hs' & Hcalls & _ & _ & Hcount & _ & _ & Hpoll & _).
  { vm_compute. discriminate. }
  exists s'. split_and!.
  - exact Hs'.
  - exact Hcalls.
  - rewrite Hcount. reflexivity.
  - exact Hpoll.
  - apply (Honly s' Hs').
Defined.

(** * Cancellation *)

Section CancellationFacts.

(** The branch of the completion routine taken on abort or shutdown. *)
Lemma cancel_completion (s : State) (p error_code bytes : Z) (r : ReadChangesRequest.t) :
  p <> 0 -> heap s !! p = Some r ->
  error_code = ERROR_OPERATION_ABORTED
  \/ DirectoryWatcher.should_terminate (watcher s) = true ->
  NotificationCompletion error_code bytes p s
  = Ok tt (mk_State
             (DirectoryWatcher.set_outstanding_request_count
                (u32_wrap (DirectoryWatcher.outstanding_request_count (watcher s) - 1))
                (watcher s))
             (delete p (heap s)) (calls s)).
Proof.
  intros Hp Hr Hcase. rewrite NotificationCompletion_eq. unfold bind.
  rewrite (deref_ok s p r Hp Hr). unfold get.
  assert (Hcond : (error_code =? ERROR_OPERATION_ABORTED)
                  || DirectoryWatcher.should_terminate (watcher s) = true).
  { destruct Hcase as [-> | ->]; [reflexivity|apply orb_true_r]. }
  rewrite Hcond. reflexivity.
Qed.

Lemma freed_lookup (ps : list Z) :
  forall (h : gmap Z ReadChangesRequest.t) (p : Z),
    freed ps h !! p = if bool_decide (p ∈ ps) then None else h !! p.
Proof.
  induction ps as [|q ps IH]; intros h p.
  - case_bool_decide as Hin; [|reflexivity]. apply elem_of_nil in Hin. contradiction.
  - unfold freed in *. cbn [foldl]. rewrite IH.
    destruct (decide (p = q)) as [->|Hne].
    + rewrite (bool_decide_eq_true_2 (q ∈ q :: ps)) by (apply elem_of_cons; left; reflexivity).
      case_bool_decide; [reflexivity|apply lookup_delete_eq].
    + rewrite lookup_delete_ne by congruence.
      rewrite (bool_decide_ext (p ∈ q :: ps) (p ∈ ps)); [reflexivity|].
      rewrite elem_of_cons. tauto.
Qed.

(** Cancellations observed one after the other. *)
Lemma complete_all_cancelled (error_code : Z) (ps : list Z) :
  forall s : State,
    NoDup ps -> Forall (live_node (heap s)) ps ->
    error_code = ERROR_OPERATION_ABORTED
    \/ DirectoryWatcher.should_terminate (watcher s) = true ->
    Z.of_nat (length ps) <= DirectoryWatcher.outstanding_request_count (watcher s)
                         < 4294967296 ->
    complete_all error_code ps s
    = Ok tt (mk_State
               (DirectoryWatcher.set_outstanding_request_count
                  (DirectoryWatcher.outstanding_request_count (watcher s)
                   - Z.of_nat (length ps))
                  (watcher s))
               (freed ps (heap s)) (calls s)).
Proof.
  induction ps as [|p ps IH]; intros s Hnd Hall Hcase Hcount.
  - simpl. unfold ret. rewrite Z.sub_0_r. destruct s as [[q rs th term n] h cs]. reflexivity.
  - inversion Hnd as [|? ? Hnotin Hnd']; subst.
    inversion Hall as [|? ? [Hp [r Hr]] Hall']; subst.
    cbn [complete_all length] in *. unfold bind.
    rewrite (cancel_completion s p error_code 0 r Hp Hr Hcase).
    rewrite IH; cycle 1.
    { exact Hnd'. }
    { simpl. eapply Forall_impl with (P := fun q => live_node (heap s) q /\ q ∈ ps).
      - apply Forall_forall. intros q Hq. split; [|exact Hq].
        rewrite Forall_forall in Hall'. apply Hall'. exact Hq.
      - intros q [[Hq0 Hq] Hin]. split; [exact Hq0|].
        rewrite lookup_delete_ne by (intros ->; contradiction). exact Hq. }
    { simpl. destruct Hcase; auto. }
    { simpl. unfold u32_wrap. rewrite Z.mod_small by lia. lia. }
    simpl. unfold u32_wrap. rewrite Z.mod_small by lia.
    unfold DirectoryWatcher.set_outstanding_request_count. simpl.
    do 3 f_equal. lia.
Qed.
End CancellationFacts.

(** X7.  A watcher whose requests are all live, pairwise distinct and
    armed, the counter equal to their number: after [ShutDown], the
    completion routine run once per request with the abort code brings the
    counter to 0 one step at a time, so the loop of [ThreadProc] goes on
    while a cancellation is outstanding and stops after the last one.  Every
    request block is freed, no other block is, no system call is issued and
    nothing is queued.  The request list still names the freed blocks, so a
    second [ShutDown] would follow a dangling pointer. *)
Theorem shutdown_drains (s : State) :
  let ps := DirectoryWatcher.requests (watcher s) in
  Forall (live_node (heap s)) ps -> NoDup ps ->
  ThreadSafeQueue.lock (queue_of s) <> 1 ->
  DirectoryWatcher.outstanding_request_count (watcher s) = Z.of_nat (length ps) ->
  Z.of_nat (length ps) < 4294967296 ->
  exists s1 s2,
    ShutDown s = Ok tt s1 /\
    complete_all ERROR_OPERATION_ABORTED ps s1 = Ok tt s2 /\
    (forall k : nat,
        (k < length ps)%nat ->
        ThreadProc_continues
          (watcher (state_after (complete_all ERROR_OPERATION_ABORTED (take k ps)) s1))
        = true) /\
    DirectoryWatcher.outstanding_request_count (watcher s2) = 0 /\
    ThreadProc_continues (watcher s2) = false /\
    (forall p, p ∈ ps -> heap s2 !! p = None) /\
    (forall p, p ∉ ps -> heap s2 !! p = heap s !! p) /\
    calls s2 = calls s1 /\
    queue_of s2 = queue_of s1 /\
    DirectoryWatcher.requests (watcher s2) = ps /\
    (ps <> [] -> ShutDown s2 = Err DanglingPointer).
Proof.
  intros ps Hall Hnd Hlock Hcount Hsmall.
  pose proof (ShutDown_ok s Hall Hlock) as Hshut.
  set (s1 := mk_State (shut_down (watcher s)) (heap s)
               (calls s ++ cancel_calls (heap s) (DirectoryWatcher.requests (watcher s))
                ++ [CloseHandle (DirectoryWatcher.thread_handle (watcher s))])) in *.
  assert (Hrun : forall qs, NoDup qs -> Forall (live_node (heap s)) qs ->
                            (length qs <= length ps)%nat ->
                 complete_all ERROR_OPERATION_ABORTED qs s1
                 = Ok tt (mk_State
                            (DirectoryWatcher.set_outstanding_request_count
                               (Z.of_nat (length ps) - Z.of_nat (length qs)) (shut_down (watcher s)))
                            (freed qs (heap s)) (calls s1))).
  { intros qs Hnd' Hall' Hle.
    rewrite complete_all_cancelled; auto.
    - simpl. rewrite Hcount. reflexivity.
    - simpl. rewrite Hcount. fold ps. lia. }
  eexists s1, _. split; [exact Hshut|]. split; [apply Hrun; auto|].
  split_and!.
  - intros k Hk. unfold state_after. rewrite Hrun.
    + unfold ThreadProc_continues. simpl. rewrite length_take.
      destruct (Z.eqb_spec (Z.of_nat (length ps) - Z.of_nat (k `min` length ps)) 0);
        [lia|reflexivity].
    + eapply sublist_NoDup; [exact Hnd|apply sublist_take].
    + apply Forall_take. exact Hall.
    + rewrite length_take. lia.
  - simpl. lia.
  - unfold ThreadProc_continues. simpl. rewrite Z.sub_diag. reflexivity.
  - intros p Hp. simpl. rewrite freed_lookup, bool_decide_eq_true_2 by exact Hp. reflexivity.
  - intros p Hp. simpl. rewrite freed_lookup, bool_decide_eq_false_2 by exact Hp. reflexivity.
  - reflexivity.
  - reflexivity.
  - reflexivity.
  - intros Hne. destruct ps as [|p rest] eqn:Hps; [congruence|].
    inversion Hall as [|? ? [Hp0 _] _]; subst.
    unfold ShutDown, bind, on_watcher, modify, get. simpl.
    fold ps. rewrite Hps. cbn [cancel_all]. unfold bind, deref, bind, get. simpl.
    destruct (Z.eqb_spec p 0); [contradiction|].
    change (freed rest (delete p (heap s))) with (freed (p :: rest) (heap s)).
    rewrite freed_lookup, bool_decide_eq_true_2 by (apply elem_of_cons; left; reflexivity).
    reflexivity.
Qed.

Lemma shutdown_drains_witness :
  exists s1 s2,
    ShutDown two_watches_state = Ok tt s1 /\
    complete_all ERROR_OPERATION_ABORTED [1000; 2000] s1 = Ok tt s2 /\
    ThreadProc_continues
      (watcher (state_after (complete_all ERROR_OPERATION_ABORTED [1000]) s1)) = true /\
    ThreadProc_continues (watcher s2) = false /\
    heap s2 !! 1000 = None /\ heap s2 !! 2000 = None /\
    ShutDown s2 = Err DanglingPointer.
Proof.
  destruct (shutdown_drains two_watches_state)
    as (s1 & s2 & Hshut & Hrun & Hgoes & _ & Hstops & Hfreed & _ & _ & _ & _ & Hdangling).
  - exact two_watches_live.
  - change (DirectoryWatcher.requests (watcher two_watches_state)) with [1000; 2000].
    apply (bool_decide_unpack (NoDup [1000; 2000])). vm_compute. exact I.
  - vm_compute. discriminate.
  - vm_compute. reflexivity.
  - vm_compute. reflexivity.
  - exists s1, s2. split_and!.
    + exact Hshut.
    + exact Hrun.
    + apply (Hgoes 1%nat).
      change (DirectoryWatcher.requests (watcher two_watches_state)) with [1000; 2000].
      simpl. lia.
    + exact Hstops.
    + apply Hfreed. change (DirectoryWatcher.requests (watcher two_watches_state))
        with [1000; 2000]. rewrite !elem_of_cons. auto.
    + apply Hfreed. change (DirectoryWatcher.requests (watcher two_watches_state))
        with [1000; 2000]. rewrite !elem_of_cons. auto.
    + apply Hdangling. discriminate.
Defined.

(** * Further properties of the decoder *)

Section DecoderBounds.
Import FILE_NOTIFY_EXTENDED_INFORMATION.

Lemma copy_units_Some (dst : list (option Z)) (doff : Z) (src : list (option Z))
      (nbytes : Z) (out : list (option Z)) :
  copy_units dst doff src nbytes = Some out ->
  0 <= nbytes /\ 0 <= doff /\ nbytes / 2 <= Z.of_nat (length src)
  /\ 2 * doff + nbytes <= 2 * Z.of_nat (length dst).
Proof.
  unfold copy_units.
  destruct (Z.leb_spec 0 nbytes); [|discriminate].
  destruct (Z.leb_spec 0 doff); [|discriminate].
  destruct (Z.leb_spec (nbytes / 2) (Z.of_nat (length src))); [|discriminate].
  destruct (Z.leb_spec (2 * doff + nbytes) (2 * Z.of_nat (length dst))); [|discriminate].
  auto.
Qed.

Lemma read_unit_Ok (array : list (option Z)) (i v : Z) (u : unit) :
  read_unit array i tt = Ok v u -> 0 <= i < Z.of_nat (length array).
Proof.
  unfold read_unit.
  destruct (Z.leb_spec 0 i); [|discriminate].
  destruct (Z.ltb_spec i (Z.of_nat (length array))); [|discriminate]. auto.
Qed.

Lemma write_unit_Ok (array out : list (option Z)) (i v : Z) (u : unit) :
  write_unit array i v tt = Ok out u -> 0 <= i < Z.of_nat (length array).
Proof.
  unfold write_unit.
  destruct (Z.leb_spec 0 i); [|discriminate].
  destruct (Z.ltb_spec i (Z.of_nat (length array))); [|discriminate]. auto.
Qed.

Lemma copy_units_length (dst : list (option Z)) (doff : Z) (src : list (option Z))
      (nbytes : Z) (out : list (option Z)) :
  copy_units dst doff src nbytes = Some out -> length out = length dst.
Proof.
  intros H. pose proof (copy_units_Some _ _ _ _ _ H) as (Hn & Hd & Hs & Hfit).
  unfold copy_units in H.
  rewrite !andb_true_intro in H by (repeat split; lia).
  injection H as <-.
  pose proof (Z.div_mod nbytes 2 ltac:(lia)) as Hdm.
  pose proof (Z.mod_pos_bound nbytes 2 ltac:(lia)) as Hmod.
  assert (Hhalf : (nbytes + 1) / 2 = nbytes / 2 + (if Z.odd nbytes then 1 else 0)).
  { rewrite Zmod_odd in Hdm. destruct (Z.odd nbytes).
    - symmetry. apply Z.div_unique with 0; lia.
    - symmetry. rewrite Z.add_0_r. apply Z.div_unique with 1; lia. }
  rewrite !length_app, !length_take, length_drop, Hhalf.
  rewrite Zmod_odd in Hdm.
  destruct (Z.odd nbytes); simpl length; lia.
Qed.

(** The decoder's loop body returns only if the directory path is not empty
    and the composed path, terminator included, fits [combined_path]. *)
Lemma decode_event_Ok (dir : list Z) (len : Z) (e : t) (c : FileChange) (u : unit) :
  entry_ok e ->
  decode_event dir len e tt = Ok c u ->
  0 < len <= Z.of_nat (length dir) /\
  Z.of_nat (length (composed_path dir len (FileName e))) < MAX_PATH.
Proof.
  intros [Hnext Hnl Hunits Hrange] H. unfold decode_event in H.
  apply bind_Ok in H as (nbytes & [] & Hs & H). apply s32_Ok in Hs as (-> & _ & _).
  apply bind_Ok in H as (arr & [] & Hcopy & H). apply from_option_Ok in Hcopy as (Hcopy & _).
  pose proof (copy_units_Some _ _ _ _ _ Hcopy) as (Hb0 & _ & Hsrc & Hdst).
  rewrite length_fmap, Z.div_mul in Hsrc by lia.
  rewrite length_replicate in Hdst. change (Z.of_nat (Z.to_nat MAX_PATH)) with 260 in Hdst.
  assert (Hlen0 : 0 <= len <= Z.of_nat (length dir)) by lia.
  rewrite copy_directory in Hcopy by (unfold MAX_PATH; lia).
  injection Hcopy as <-.
  set (stem := take (Z.to_nat len) dir) in *.
  assert (Hstem : Z.of_nat (length stem) = len) by (unfold stem; rewrite length_take; lia).
  apply bind_Ok in H as (w & [] & Hread & H).
  pose proof (read_unit_Ok _ _ _ _ Hread) as [Hlen1 _].
  assert (Hpos : 0 < len) by lia. split; [lia|].
  unfold composed_path. fold stem.
  apply bind_Ok in H as (appended & [] & Happ & H).
  destruct (decide (len < MAX_PATH)) as [Hlt|Hfull].
  - destruct (stem_and_separator dir len ltac:(lia) Hlt) as (w' & Hlast & Hread' & Happ').
    fold stem in Hlast, Hread', Happ'.
    rewrite Hread' in Hread. inversion Hread; subst w'; clear Hread.
    rewrite Happ' in Happ. inversion Happ; subst appended; clear Happ.
    cbn [fst snd] in H.
    set (W := stem ++ separator stem) in *.
    apply bind_Ok in H as (arr & [] & Hname & H).
    apply from_option_Ok in Hname as (Hname & _).
    pose proof (copy_units_Some _ _ _ _ _ Hname) as (_ & _ & _ & Hroom).
    pose proof (copy_units_length _ _ _ _ _ Hname) as Hsize.
    assert (HW : (length W <= 260)%nat).
    { unfold W. rewrite length_app. pose proof (separator_length stem).
      unfold MAX_PATH in Hlt. lia. }
    rewrite partly_written_length in Hsize, Hroom by exact HW.
    change (Z.of_nat 260) with 260 in Hroom.
    pose proof (Z.div_mod (FileNameLength e) 2 ltac:(lia)) as Hdm.
    pose proof (Z.mod_pos_bound (FileNameLength e) 2 ltac:(lia)) as Hmod.
    apply bind_Ok in H as (arr' & [] & Hwrite & H).
    rewrite s32_wrap_id in Hwrite by (unfold INT32_MIN, INT32_MAX; lia).
    apply write_unit_Ok in Hwrite. rewrite Hsize in Hwrite.
    change (Z.of_nat 260) with 260 in Hwrite.
    rewrite app_assoc. fold W. rewrite length_app. unfold MAX_PATH. lia.
  - exfalso. assert (len = 260) as Hlen by (unfold MAX_PATH in *; lia).
    assert (Hs : (length stem <= 260)%nat) by lia.
    assert (Hlast : exists p, (appended = (p, 260) /\ length p = 260%nat)).
    { revert Happ. destruct (negb (w =? BACKSLASH)).
      - intros Happ. apply bind_Ok in Happ as (p & [] & Hwrite & _).
        apply write_unit_Ok in Hwrite.
        rewrite partly_written_size in Hwrite by exact Hs. lia.
      - unfold ret. intros [= <-]. exists (partly_written stem).
        split; [rewrite Hlen; reflexivity|]. apply partly_written_length. exact Hs. }
    destruct Hlast as (p & -> & Hp). cbn [fst snd] in H.
    apply bind_Ok in H as (arr & [] & Hname & H).
    apply from_option_Ok in Hname as (Hname & _).
    pose proof (copy_units_Some _ _ _ _ _ Hname) as (_ & _ & _ & Hroom).
    pose proof (copy_units_length _ _ _ _ _ Hname) as Hsize.
    rewrite Hp in Hsize, Hroom. change (Z.of_nat 260) with 260 in Hroom.
    assert (Hzero : FileNameLength e = 0) by lia.
    apply bind_Ok in H as (arr' & [] & Hwrite & H).
    rewrite Hzero in Hwrite. change (s32_wrap (260 + 0 / 2)) with 260 in Hwrite.
    apply write_unit_Ok in Hwrite. rewrite Hsize in Hwrite.
    change (Z.of_nat 260) with 260 in Hwrite. lia.
Qed.
End DecoderBounds.

(** X8.  For an entry read out of a buffer and a directory path of UTF-16
    units, the loop body of the decoder yields a record exactly when the
    directory path is not empty, its stated length is within the stored
    path, and the composed path is shorter than [MAX_PATH] units; in every
    other case it reads or writes outside [combined_path] or the stored
    path.  A record it yields has a path of at most 3 * (MAX_PATH - 1)
    bytes. *)
Theorem decode_event_in_bounds
        (dir : list Z) (len : Z) (e : FILE_NOTIFY_EXTENDED_INFORMATION.t) :
  entry_ok e -> Forall is_unit dir ->
  ((exists c, decode_event dir len e tt = Ok c tt) <->
   0 < len <= Z.of_nat (length dir) /\
   Z.of_nat (length (composed_path dir len (FILE_NOTIFY_EXTENDED_INFORMATION.FileName e)))
   < MAX_PATH) /\
  (forall c, decode_event dir len e tt = Ok c tt ->
             0 <= FileChange.path_length c <= 3 * (MAX_PATH - 1)).
Proof.
  intros Hok Hdir.
  assert (Hiff : forall c u, decode_event dir len e tt = Ok c u ->
                 0 < len <= Z.of_nat (length dir) /\
                 Z.of_nat (length (composed_path dir len
                                     (FILE_NOTIFY_EXTENDED_INFORMATION.FileName e)))
                 < MAX_PATH).
  { intros c u H. eapply decode_event_Ok; eauto. }
  split; [split|].
  - intros [c Hc]. eapply Hiff. exact Hc.
  - intros [Hlen Hfit].
    destruct (decode_event_ok dir len e Hok Hdir Hlen Hfit) as (c & Hc & _). eauto.
  - intros c Hc. destruct (Hiff c tt Hc) as [Hlen Hfit].
    destruct (decode_event_ok dir len e Hok Hdir Hlen Hfit) as (c' & Hc' & _ & Hpl & _).
    rewrite Hc in Hc'. inversion Hc'; subst c'. rewrite Hpl.
    assert (Hunits : Forall is_unit
                       (composed_path dir len (FILE_NOTIFY_EXTENDED_INFORMATION.FileName e))).
    { unfold composed_path. rewrite !Forall_app. split_and!.
      - apply Forall_take, Hdir.
      - apply separator_units.
      - destruct Hok; assumption. }
    pose proof (utf8_of_utf16_length _ Hunits). unfold MAX_PATH in *. lia.
Qed.

Lemma sample_event_ok : entry_ok sample_event.
Proof.
  split.
  - simpl. lia.
  - simpl. lia.
  - vm_compute. reflexivity.
  - let l := eval vm_compute in (FILE_NOTIFY_EXTENDED_INFORMATION.FileName sample_event) in
    change (Forall is_unit l).
    repeat (constructor; [unfold is_unit; lia|]). constructor.
Defined.

Lemma long_name_event_ok : entry_ok long_name_event.
Proof.
  split.
  - simpl. lia.
  - simpl. lia.
  - vm_compute. reflexivity.
  - apply Forall_forall. intros w Hw. apply elem_of_replicate in Hw as [-> _].
    unfold is_unit. lia.
Defined.

Lemma sample_directory_units : Forall is_unit sample_directory.
Proof.
  let l := eval vm_compute in sample_directory in change (Forall is_unit l).
  repeat (constructor; [unfold is_unit; lia|]). constructor.
Defined.

Lemma decode_event_in_bounds_witness :
  (exists c, decode_event sample_directory 7 sample_event tt = Ok c tt) /\
  ~ (exists c, decode_event sample_directory 0 sample_event tt = Ok c tt) /\
  ~ (exists c, decode_event sample_directory 7 long_name_event tt = Ok c tt) /\
  0 <= FileChange.path_length (decoded sample_directory 7 sample_event) <= 777.
Proof.
  split; [|split; [|split]].
  - apply (proj1 (decode_event_in_bounds sample_directory 7 sample_event
                    sample_event_ok sample_directory_units)).
    split; [simpl; lia|vm_compute; reflexivity].
  - intros H.
    apply (proj1 (decode_event_in_bounds sample_directory 0 sample_event
                    sample_event_ok sample_directory_units)) in H.
    lia.
  - intros H.
    apply (proj1 (decode_event_in_bounds sample_directory 7 long_name_event
                    long_name_event_ok sample_directory_units)) in H.
    destruct H as [_ H]. vm_compute in H. discriminate H.
  - apply (proj2 (decode_event_in_bounds sample_directory 7 sample_event
                    sample_event_ok sample_directory_units)).
    vm_compute. reflexivity.
Defined.

(** * The records the decoder builds *)

Section RecordFacts.

Lemma directory_bit (attributes : Z) :
  negb (Z.land attributes FILE_ATTRIBUTE_DIRECTORY =? 0) = Z.testbit attributes 4.
Proof.
  change FILE_ATTRIBUTE_DIRECTORY with (2 ^ 4).
  destruct (Z.testbit attributes 4) eqn:Hbit.
  - destruct (Z.eqb_spec (Z.land attributes (2 ^ 4)) 0) as [Hz|]; [|reflexivity].
    apply (f_equal (fun z => Z.testbit z 4)) in Hz.
    rewrite Z.land_spec, Hbit in Hz. discriminate Hz.
  - replace (Z.land attributes (2 ^ 4)) with 0; [reflexivity|].
    symmetry. apply Z.bits_inj'. intros n Hn.
    rewrite Z.land_spec, Z.bits_0, Z.pow2_bits_eqb by lia.
    destruct (Z.eqb_spec 4 n) as [<-|]; [rewrite Hbit; reflexivity|apply andb_false_r].
Qed.

Lemma decode_action_range (code : Z) : decode_action code <> TooManyChanges.
Proof.
  unfold decode_action.
  repeat match goal with |- context [?a =? ?b] => destruct (a =? b) end; discriminate.
Qed.

(** A conversion whose result does not fit [cb] bytes fails: it returns 0. *)
Lemma WideCharToMultiByte_too_long (W : list Z) (extra : list (option Z)) :
  W <> [] -> MAX_PATH * 3 < Z.of_nat (length (utf8_of_utf16 W)) ->
  WideCharToMultiByte ((Some <$> W) ++ extra) (Z.of_nat (length W))
    (FileChange.path FileChange.zero) (MAX_PATH * 3) tt
  = Ok (FileChange.path FileChange.zero, 0) tt.
Proof.
  intros Hne Hfit. unfold WideCharToMultiByte.
  assert (Hpos : (0 < length W)%nat) by (destruct W; [congruence|simpl; lia]).
  destruct (Z.eqb_spec (Z.of_nat (length W)) 0); [lia|].
  destruct (Z.ltb_spec (Z.of_nat (length W)) (-1)); [lia|]. simpl orb. cbv iota.
  destruct (Z.eqb_spec (Z.of_nat (length W)) (-1)); [lia|].
  rewrite length_app, length_fmap.
  destruct (Z.leb_spec (Z.of_nat (length W)) (Z.of_nat (length W + length extra))); [|lia].
  rewrite Nat2Z.id. rewrite take_app_length' by (rewrite length_fmap; reflexivity).
  rewrite mapM_id_Some. unfold bind, from_option, ret.
  destruct (Z.leb_spec (Z.of_nat (length (utf8_of_utf16 W))) (MAX_PATH * 3)); [lia|].
  reflexivity.
Qed.
End RecordFacts.

(** X9.  A record the decoder builds for an entry carries the entry's four
    timestamps, its file size and its attributes unchanged; [is_directory]
    is bit 4 (FILE_ATTRIBUTE_DIRECTORY) of the attributes; and its action is
    never [TooManyChanges], which only the record for a null buffer has. *)
Theorem decode_event_copies_fields
        (dir : list Z) (len : Z) (e : FILE_NOTIFY_EXTENDED_INFORMATION.t) (c : FileChange) :
  decode_event dir len e tt = Ok c tt ->
  FileChange.creation_time c = FILE_NOTIFY_EXTENDED_INFORMATION.CreationTime e /\
  FileChange.modification_time c = FILE_NOTIFY_EXTENDED_INFORMATION.LastModificationTime e /\
  FileChange.change_time c = FILE_NOTIFY_EXTENDED_INFORMATION.LastChangeTime e /\
  FileChange.access_time c = FILE_NOTIFY_EXTENDED_INFORMATION.LastAccessTime e /\
  FileChange.size c = FILE_NOTIFY_EXTENDED_INFORMATION.FileSize e /\
  FileChange.attributes c = FILE_NOTIFY_EXTENDED_INFORMATION.FileAttributes e /\
  FileChange.is_directory c
  = Z.testbit (FILE_NOTIFY_EXTENDED_INFORMATION.FileAttributes e) 4 /\
  FileChange.action c <> TooManyChanges.
Proof.
  intros H. apply decode_event_action in H as (Ha & H1 & H2 & H3 & H4 & H5 & H6 & H7).
  split_and!; try assumption.
  - rewrite H7. apply directory_bit.
  - rewrite Ha. apply decode_action_range.
Qed.

Lemma decode_event_copies_fields_witness :
  FileChange.creation_time (decoded sample_directory 7 directory_event) = 21 /\
  FileChange.size (decoded sample_directory 7 directory_event) = 0 /\
  FileChange.attributes (decoded sample_directory 7 directory_event) = 48 /\
  FileChange.is_directory (decoded sample_directory 7 directory_event) = true.
Proof.
  destruct (decode_event_copies_fields sample_directory 7 directory_event
              (decoded sample_directory 7 directory_event))
    as (H1 & _ & _ & _ & H5 & H6 & H7 & _).
  - vm_compute. reflexivity.
  - rewrite H1, H5, H6, H7. split_and!; reflexivity.
Defined.

(** X10.  The record built for a null buffer when the directory path does
    not convert into [MAX_PATH * 3] bytes: if its UTF-8 form is longer, the
    conversion fails, and the record has an empty path and length 0; if it
    is exactly [MAX_PATH * 3] bytes, the terminator is written one past the
    end of [path]. *)
Theorem overflow_change_oversize (dir : list Z) (len : Z) :
  0 < len <= Z.of_nat (length dir) ->
  let bytes := utf8_of_utf16 (take (Z.to_nat len) dir) in
  (MAX_PATH * 3 < Z.of_nat (length bytes) ->
   overflow_change dir len tt
   = Ok (FileChange.mk (FileChange.path FileChange.zero) 0 TooManyChanges 0 0 0 0 0 0 true) tt)
  /\
  (Z.of_nat (length bytes) = MAX_PATH * 3 -> overflow_change dir len tt = Err OutOfBounds).
Proof.
  intros Hlen bytes.
  set (stem := take (Z.to_nat len) dir) in *.
  assert (Hstem : Z.of_nat (length stem) = len) by (unfold stem; rewrite length_take; lia).
  assert (Hne : stem <> []) by (intros Hnil; rewrite Hnil in Hstem; simpl in Hstem; lia).
  assert (Hdir : Some <$> dir = (Some <$> stem) ++ (Some <$> drop (Z.to_nat len) dir))
    by (rewrite <- fmap_app; unfold stem; rewrite take_drop; reflexivity).
  split; intros Hsize; unfold overflow_change, bind; rewrite Hdir, <- Hstem.
  - rewrite WideCharToMultiByte_too_long by assumption. reflexivity.
  - rewrite WideCharToMultiByte_ok by (try assumption; fold bytes; lia).
    fold bytes. cbn [fst snd]. unfold write_char.
    rewrite length_app, length_drop, zero_path_length.
    destruct (Z.ltb_spec (Z.of_nat (length bytes)) (Z.of_nat (length bytes + (780 - length bytes))));
      [unfold MAX_PATH in Hsize; lia|].
    rewrite andb_false_r. reflexivity.
Qed.

Lemma overflow_change_oversize_witness :
  overflow_change long_directory 799 tt
  = Ok (FileChange.mk (FileChange.path FileChange.zero) 0 TooManyChanges 0 0 0 0 0 0 true) tt
  /\ overflow_change long_directory 780 tt = Err OutOfBounds.
Proof.
  split.
  - apply (proj1 (overflow_change_oversize long_directory 799 ltac:(vm_compute; split; [reflexivity|discriminate]))).
    vm_compute. reflexivity.
  - apply (proj2 (overflow_change_oversize long_directory 780 ltac:(vm_compute; split; [reflexivity|discriminate]))).
    vm_compute. reflexivity.
Defined.

(** * Completions *)

Section DeliveryFacts.
Import FILE_NOTIFY_EXTENDED_INFORMATION.

(** Bytes that follow the part of a buffer an access reads do not change
    what it reads. *)
Lemma read_le_app (buffer rest : list Byte.byte) (off : Z) (n : nat) (v : Z) :
  read_le buffer off n = Some v -> read_le (buffer ++ rest) off n = Some v.
Proof.
  unfold read_le.
  destruct (Z.leb_spec 0 off); [|discriminate].
  destruct (Z.leb_spec (off + Z.of_nat n) (Z.of_nat (length buffer))); [|discriminate].
  simpl. intros [= <-]. rewrite length_app.
  destruct (Z.leb_spec (off + Z.of_nat n) (Z.of_nat (length buffer + length rest))); [|lia].
  rewrite drop_app_le by lia. rewrite take_app_le by (rewrite length_drop; lia).
  reflexivity.
Qed.

Lemma read_units_app (buffer rest : list Byte.byte) (off nbytes : Z) (name : list Z) :
  read_units buffer off nbytes = Some name ->
  read_units (buffer ++ rest) off nbytes = Some name.
Proof.
  unfold read_units.
  destruct (Z.leb_spec 0 off); [|discriminate].
  destruct (Z.leb_spec 0 nbytes); [|discriminate].
  destruct (Z.leb_spec (off + nbytes) (Z.of_nat (length buffer))); [|discriminate].
  simpl. intros [= <-]. rewrite length_app.
  destruct (Z.leb_spec (off + nbytes) (Z.of_nat (length buffer + length rest))); [|lia].
  rewrite drop_app_le by lia. rewrite take_app_le by (rewrite length_drop; lia).
  reflexivity.
Qed.

Lemma event_at_app (buffer rest : list Byte.byte) (offset : Z) (e : t) :
  event_at buffer offset = Some e -> event_at (buffer ++ rest) offset = Some e.
Proof.
  unfold event_at. intros H.
  repeat match type of H with
         | (mbind _ ?o) = Some _ =>
             let v := fresh "v" in
             let Hv := fresh "Hv" in
             destruct o as [v|] eqn:Hv; [|discriminate H]; cbn [mbind option_bind] in H;
             first [rewrite (read_le_app _ rest _ _ _ Hv)
                   |rewrite (read_units_app _ rest _ _ _ Hv)];
             cbn [mbind option_bind]
         end.
  exact H.
Qed.

Lemma entries_from_app (buffer rest : list Byte.byte) (offset : Z) (es : list t) :
  entries_from buffer offset es -> entries_from (buffer ++ rest) offset es.
Proof.
  induction 1 as [offset e Hev Hz|offset e more Hev Hnz Hrest IH].
  - apply entries_last; [apply event_at_app, Hev|exact Hz].
  - apply entries_next; [apply event_at_app, Hev|exact Hnz|exact IH].
Qed.
End DeliveryFacts.

(** X11.  The completion routine dereferences its request before anything
    else: for a null request it faults, and for a request already freed it
    reads freed memory.  On a watcher that is not terminating, a completion
    with an error code other than 0 and ERROR_OPERATION_ABORTED fails the
    assertion, whatever the byte count, before any read is re-armed. *)
Theorem NotificationCompletion_faults (s : State) (p error_code bytes : Z) :
  (p = 0 -> NotificationCompletion error_code bytes p s = Err NullPointer) /\
  (p <> 0 -> heap s !! p = None ->
   NotificationCompletion error_code bytes p s = Err DanglingPointer) /\
  (p <> 0 -> is_Some (heap s !! p) ->
   DirectoryWatcher.should_terminate (watcher s) = false ->
   error_code <> 0 -> error_code <> ERROR_OPERATION_ABORTED ->
   NotificationCompletion error_code bytes p s = Err AssertFailed).
Proof.
  split_and!.
  - intros ->. reflexivity.
  - intros Hp Hnone. rewrite NotificationCompletion_eq. unfold deref, bind, get.
    destruct (Z.eqb_spec p 0); [contradiction|]. rewrite Hnone. reflexivity.
  - intros Hp [r Hr] Hterm Hcode Haborted. rewrite NotificationCompletion_eq. unfold bind.
    rewrite (deref_ok s p r Hp Hr). unfold get. rewrite Hterm.
    destruct (Z.eqb_spec error_code ERROR_OPERATION_ABORTED); [contradiction|].
    destruct (Z.eqb_spec error_code 0); [contradiction|]. reflexivity.
Qed.

Lemma NotificationCompletion_faults_witness :
  NotificationCompletion 0 16 0 watching_state = Err NullPointer /\
  NotificationCompletion 0 16 2000 watching_state = Err DanglingPointer /\
  NotificationCompletion 1022 0 1000 watching_state = Err AssertFailed.
Proof.
  split_and!.
  - apply (proj1 (NotificationCompletion_faults watching_state 0 0 16)). reflexivity.
  - apply (proj1 (proj2 (NotificationCompletion_faults watching_state 2000 0 16))).
    + lia.
    + vm_compute. reflexivity.
  - apply (proj2 (proj2 (NotificationCompletion_faults watching_state 1000 1022 0))).
    + lia.
    + exists sample_request. vm_compute. reflexivity.
    + vm_compute. reflexivity.
    + lia.
    + unfold ERROR_OPERATION_ABORTED. lia.
Defined.

(** X12.  A read that completes with a payload: on a watcher that is not
    terminating, with a read in flight for the request, the operating system
    stores a non-empty payload holding a well-formed chain of entries that
    all decode against the request's directory path, and the completion
    routine runs with error code 0 and the payload's size.  The routine
    returns; the queue then holds what it held followed by one record per
    entry, in the order of the chain; exactly one system call was made, the
    read on the other buffer, which is now in flight; the request list, the
    termination flag and the outstanding-request counter are unchanged. *)
Theorem completion_delivers
        (s : State) (p : Z) (r : ReadChangesRequest.t) (payload : list Byte.byte)
        (es : list FILE_NOTIFY_EXTENDED_INFORMATION.t) (cs l : list FileChange) :
  p <> 0 -> heap s !! p = Some r -> request_ok r ->
  last_read (calls s) p
  = Some (buffer_offset r (Z.lxor (ReadChangesRequest.buffer_index r) 1),
          ReadChangesRequest.buffer_size r) ->
  DirectoryWatcher.should_terminate (watcher s) = false ->
  Z.of_nat (length payload) <= ReadChangesRequest.buffer_size r ->
  entries_from payload 0 es ->
  Forall2 (fun e c => decode_event (ReadChangesRequest.path r)
                        (ReadChangesRequest.path_length r) e tt = Ok c tt) es cs ->
  QueueModel.holds (queue_of s) l ->
  2 * (ThreadSafeQueue.count (queue_of s) + Z.of_nat (length es)) <= QueueModel.MAX_CAPACITY ->
  exists s0 s',
    os_fill p payload s = Ok tt s0 /\
    NotificationCompletion 0 (Z.of_nat (length payload)) p s0 = Ok tt s' /\
    QueueModel.holds (queue_of s') (l ++ cs) /\
    length cs = length es /\
    calls s' = calls s ++ [ReadDirectoryChangesExW (ReadChangesRequest.directory r) p
                             (buffer_offset r (ReadChangesRequest.buffer_index r))
                             (ReadChangesRequest.buffer_size r)
                             (ReadChangesRequest.is_recursive r) filters] /\
    armed s' p /\
    DirectoryWatcher.requests (watcher s') = DirectoryWatcher.requests (watcher s) /\
    DirectoryWatcher.should_terminate (watcher s') = false /\
    DirectoryWatcher.outstanding_request_count (watcher s')
    = DirectoryWatcher.outstanding_request_count (watcher s).
Proof.
  intros Hp Hr Hok Hlast Hterm Hfit Hes Hdec Hh Hcap.
  pose proof Hok as [Hsize Hbuf Hs32 Hidx].
  pose proof (entries_from_bound _ _ _ Hes) as (_ & Hbound & Hne).
  assert (Hpayload : Z.of_nat (length payload) <> 0).
  { destruct es; [congruence|]. simpl in Hbound. lia. }
  destruct (os_fill_ok s p r payload Hp Hr Hok Hlast Hfit) as (filled & Hfill & Hlen & Htake).
  set (r0 := ReadChangesRequest.set_buffers filled r).
  set (s0 := set_heap (<[p := r0]> (heap s)) s) in *.
  assert (Hr0 : heap s0 !! p = Some r0) by (simpl; apply lookup_insert_eq).
  assert (Hok0 : request_ok r0).
  { split; simpl; auto. rewrite Hlen. exact Hbuf. }
  pose proof (BeginRead_ok s0 p r0 Hp Hr0 Hok0) as Hbegin.
  pose proof (BeginRead_armed s0 p r0 Hp Hr0 Hok0) as Harmed.
  pose proof (NotificationCompletion_rearm s0 p (Z.of_nat (length payload)) r0 Hp Hr0 Hok0 Hterm)
    as Hcompl.
  unfold state_after in Harmed, Hcompl. rewrite Hbegin in Harmed, Hcompl.
  destruct (Z.eqb_spec (Z.of_nat (length payload)) 0) as [|_]; [contradiction|].
  set (s1 := mk_State _ _ _) in *.
  set (buffer := drop _ (ReadChangesRequest.buffers r0)) in *.
  assert (Hbuffer : buffer = payload ++ drop (length payload) buffer).
  { rewrite <- (take_drop (length payload) buffer) at 1. f_equal. exact Htake. }
  assert (Hchain : entries_from buffer 0 es).
  { rewrite Hbuffer. apply entries_from_app, Hes. }
  assert (Hmax : Z.of_nat (length buffer) <= INT32_MAX).
  { unfold buffer. rewrite length_drop. simpl. lia. }
  destruct (decode_entries_ok buffer (ReadChangesRequest.path r)
              (ReadChangesRequest.path_length r) 0 es Hchain Hmax
              (S (length buffer)) cs s1 l Hdec)
    as (q' & Hrun & Hh' & _).
  { pose proof (entries_from_bound _ _ _ Hchain) as (_ & Hb & _). lia. }
  { exact Hh. }
  { exact Hcap. }
  exists s0, (with_queue q' s1). split_and!.
  - exact Hfill.
  - rewrite Hcompl. exact Hrun.
  - exact Hh'.
  - symmetry. eapply Forall2_length, Hdec.
  - reflexivity.
  - exact Harmed.
  - reflexivity.
  - exact Hterm.
  - reflexivity.
Qed.

Lemma completion_delivers_witness :
  exists s0 s',
    os_fill 1000 rename_payload watching_state = Ok tt s0 /\
    NotificationCompletion 0 190 1000 s0 = Ok tt s' /\
    QueueModel.holds (queue_of s')
      [decoded sample_directory 7 rename_old_event;
       decoded sample_directory 7 rename_new_event] /\
    armed s' 1000.
Proof.
  destruct (completion_delivers watching_state 1000 sample_request rename_payload
              [rename_old_event; rename_new_event]
              [decoded sample_directory 7 rename_old_event;
               decoded sample_directory 7 rename_new_event] [])
    as (s0 & s' & Hfill & Hrun & Hh & _ & _ & Harmed & _).
  - lia.
  - exact watching_state_request.
  - exact sample_request_ok.
  - vm_compute. reflexivity.
  - reflexivity.
  - vm_compute. discriminate.
  - apply entries_next; [vm_compute; reflexivity|vm_compute; discriminate|].
    apply entries_last; vm_compute; reflexivity.
  - constructor; [vm_compute; reflexivity|].
    constructor; [vm_compute; reflexivity|]. constructor.
  - exact watching_state_holds.
  - vm_compute. discriminate.
  - exists s0, s'. split_and!; assumption.
Defined.

(** * Registering a watch *)

(** X13.  What [AddDirectory] asserts.  Called on a watcher without a thread
    handle (before [Initialize]), with a null directory string or with a
    buffer size that is not positive, it fails its first assertion, before
    anything is allocated.  With the sizes in the s32 range, it fails its
    second assertion when [malloc] returns null or the path does not
    convert.  A buffer size above half of INT32_MAX overflows the size
    computation.  So whenever [AddDirectory] returns, all of that was in
    order. *)
Theorem AddDirectory_asserts
        (s : State) (wide : list Z) (memory handle : Z) (directory : option (list Z))
        (is_recursive : bool) (change_buffer_size : Z) :
  let run := AddDirectory wide memory handle directory is_recursive change_buffer_size s in
  (DirectoryWatcher.thread_handle (watcher s) = 0 \/ directory = None
   \/ change_buffer_size <= 0 -> run = Err AssertFailed) /\
  (DirectoryWatcher.thread_handle (watcher s) <> 0 -> is_Some directory ->
   INT32_MAX < 2 * change_buffer_size -> run = Err SignedOverflow) /\
  (DirectoryWatcher.thread_handle (watcher s) <> 0 -> is_Some directory ->
   0 < change_buffer_size -> 2 * change_buffer_size <= INT32_MAX ->
   2 * Z.of_nat (length wide) <= INT32_MAX ->
   memory = 0 \/ wide = [] -> run = Err AssertFailed) /\
  (forall b s',
      run = Ok b s' ->
      DirectoryWatcher.thread_handle (watcher s) <> 0 /\ is_Some directory /\
      0 < change_buffer_size /\ 2 * change_buffer_size <= INT32_MAX /\
      memory <> 0 /\ wide <> [] /\ 2 * Z.of_nat (length wide) <= INT32_MAX).
Proof.
  intros run. split_and!.
  - intros Hcase. unfold run, AddDirectory, bind, get.
    assert (Hguard : negb (DirectoryWatcher.thread_handle (watcher s) =? 0)
                     && bool_decide (is_Some directory) && (0 <? change_buffer_size) = false).
    { destruct Hcase as [-> | [-> | Hsize]].
      - reflexivity.
      - rewrite bool_decide_eq_false_2 by (intros [? ?]; discriminate).
        rewrite andb_false_r. reflexivity.
      - destruct (Z.ltb_spec 0 change_buffer_size); [lia|]. apply andb_false_r. }
    rewrite Hguard. reflexivity.
  - intros Hthread Hdir Hbig. unfold run, AddDirectory, bind, get.
    destruct (Z.eqb_spec (DirectoryWatcher.thread_handle (watcher s)) 0); [contradiction|].
    rewrite bool_decide_eq_true_2 by exact Hdir.
    destruct (Z.ltb_spec 0 change_buffer_size); [|unfold INT32_MAX in Hbig; lia].
    cbn [negb andb assert]. unfold ret at 1. unfold s32 at 1, in_s32.
    destruct (Z.leb_spec (2 * change_buffer_size) INT32_MAX); [lia|].
    rewrite andb_false_r. reflexivity.
  - intros Hthread Hdir Hpos Hsize Hpath Hcase. unfold run, AddDirectory, bind, get.
    destruct (Z.eqb_spec (DirectoryWatcher.thread_handle (watcher s)) 0); [contradiction|].
    rewrite bool_decide_eq_true_2 by exact Hdir.
    destruct (Z.ltb_spec 0 change_buffer_size); [|lia].
    cbn [negb andb assert]. unfold ret at 1.
    rewrite !s32_ok by (unfold INT32_MIN, INT32_MAX in *; lia).
    assert (Hguard : negb (memory =? 0) && (0 <? Z.of_nat (length wide)) = false).
    { destruct Hcase as [-> | ->]; [reflexivity|apply andb_false_r]. }
    rewrite Hguard. reflexivity.
  - intros b s' H. unfold run, AddDirectory in H.
    apply bind_Ok in H as (s0 & s0' & Hget & H). unfold get in Hget.
    inversion Hget; subst s0 s0'; clear Hget.
    apply bind_Ok in H as (u0 & s1 & Hassert & H).
    destruct (Z.eqb_spec (DirectoryWatcher.thread_handle (watcher s)) 0) as [|Hthread];
      [discriminate|].
    destruct (decide (is_Some directory)) as [Hdir|Hdir];
      [|rewrite bool_decide_eq_false_2 in Hassert by exact Hdir; discriminate].
    destruct (Z.ltb_spec 0 change_buffer_size) as [Hpos|];
      [|rewrite andb_false_r in Hassert; discriminate].
    apply bind_Ok in H as (n1 & s2 & Hn1 & H). apply s32_Ok in Hn1 as (-> & -> & Hr1).
    apply bind_Ok in H as (n2 & s3 & Hn2 & H). apply s32_Ok in Hn2 as (-> & -> & Hr2).
    apply bind_Ok in H as (u1 & s4 & Hassert2 & _).
    unfold in_s32 in Hr1, Hr2. apply andb_prop in Hr1 as [_ Hr1], Hr2 as [_ Hr2].
    apply Z.leb_le in Hr1, Hr2.
    destruct (Z.eqb_spec memory 0) as [|Hmem]; [discriminate|].
    destruct (Z.ltb_spec 0 (Z.of_nat (length wide))) as [Hwide|]; [|discriminate].
    split_and!; try assumption. intros ->. simpl in Hwide. lia.
Qed.

Lemma AddDirectory_asserts_witness :
  AddDirectory sample_directory 1000 55 (Some (units_of_string "C:\data")) true 256 blank_state
  = Err AssertFailed /\
  AddDirectory sample_directory 1000 55 (Some (units_of_string "C:\data")) true 1073741824
    sample_state = Err SignedOverflow /\
  AddDirectory sample_directory 0 55 (Some (units_of_string "C:\data")) true 256 sample_state
  = Err AssertFailed.
Proof.
  split_and!.
  - apply (proj1 (AddDirectory_asserts blank_state sample_directory 1000 55
                    (Some (units_of_string "C:\data")) true 256)).
    left. reflexivity.
  - apply (proj1 (proj2 (AddDirectory_asserts sample_state sample_directory 1000 55
                           (Some (units_of_string "C:\data")) true 1073741824))).
    + vm_compute. discriminate.
    + eexists. reflexivity.
    + unfold INT32_MAX. lia.
  - apply (proj1 (proj2 (proj2 (AddDirectory_asserts sample_state sample_directory 0 55
                                  (Some (units_of_string "C:\data")) true 256)))).
    + vm_compute. discriminate.
    + eexists. reflexivity.
    + lia.
    + unfold INT32_MAX. lia.
    + vm_compute. discriminate.
    + left. reflexivity.
Defined.

(** X14.  A watch from registration to its first read.  When [AddDirectory]
    succeeds and the worker thread then runs the job it queued, the system
    has been asked, in this order, to open the directory, to queue the job
    on the worker thread, and to read changes into the first buffer, with
    the buffer size and the recursion flag [AddDirectory] was given and the
    filter set creation | last write | file name | directory name.  The
    request is listed last, its buffer index is 1, the read is in flight,
    the outstanding-request counter is one higher, and the queue is
    untouched. *)
Theorem watch_starts
        (s : State) (wide : list Z) (memory handle : Z) (directory : option (list Z))
        (is_recursive : bool) (change_buffer_size : Z) :
  AddDirectory_pre s wide memory directory change_buffer_size ->
  handle <> INVALID_HANDLE_VALUE ->
  Forall (live_node (heap s)) (DirectoryWatcher.requests (watcher s)) ->
  exists s1 s2,
    AddDirectory wide memory handle directory is_recursive change_buffer_size s = Ok true s1 /\
    ThreadAddDirectoryProc memory s1 = Ok tt s2 /\
    calls s2 = calls s ++ [CreateFileW wide handle;
                           QueueUserAPC (DirectoryWatcher.thread_handle (watcher s)) memory;
                           ReadDirectoryChangesExW handle memory 0 change_buffer_size
                             is_recursive 83] /\
    heap s2 = <[memory := ReadChangesRequest.set_buffer_index 1
                            (new_request wide handle is_recursive change_buffer_size)]>
                (heap s) /\
    armed s2 memory /\
    DirectoryWatcher.requests (watcher s2) = DirectoryWatcher.requests (watcher s) ++ [memory] /\
    DirectoryWatcher.outstanding_request_count (watcher s2)
    = u32_wrap (DirectoryWatcher.outstanding_request_count (watcher s) + 1) /\
    DirectoryWatcher.should_terminate (watcher s2)
    = DirectoryWatcher.should_terminate (watcher s) /\
    queue_of s2 = queue_of s.
Proof.
  intros Hpre Hopen Hall.
  pose proof (AddDirectory_success s wide memory handle directory is_recursive
                change_buffer_size Hpre Hopen Hall) as Hadd.
  destruct Hpre as [Ht Hd Hsz Hb32 Hw Hp32 Hm Hfresh].
  destruct (new_request_ok wide handle is_recursive change_buffer_size Hsz Hb32) as [Hok _].
  set (r := new_request wide handle is_recursive change_buffer_size) in *.
  set (s1 := mk_State _ _ _) in Hadd.
  assert (Hr : heap s1 !! memory = Some r) by (simpl; apply lookup_insert_eq).
  set (s1' := set_watcher (DirectoryWatcher.set_outstanding_request_count
                             (u32_wrap (DirectoryWatcher.outstanding_request_count (watcher s1) + 1))
                             (watcher s1)) s1).
  assert (Hr' : heap s1' !! memory = Some r) by exact Hr.
  pose proof (BeginRead_ok s1' memory r Hm Hr' Hok) as Hbegin.
  pose proof (BeginRead_armed s1' memory r Hm Hr' Hok) as Harmed.
  unfold state_after in Harmed. rewrite Hbegin in Harmed.
  assert (Hjob : ThreadAddDirectoryProc memory s1 = BeginRead memory s1').
  { unfold ThreadAddDirectoryProc, bind. rewrite (deref_ok s1 memory r Hm Hr). reflexivity. }
  eexists s1, _. split; [exact Hadd|]. split; [rewrite Hjob; exact Hbegin|].
  split_and!.
  - simpl. rewrite <- app_assoc. unfold buffer_offset. simpl.
    rewrite Z.mul_0_r. reflexivity.
  - simpl. rewrite insert_insert_eq. reflexivity.
  - exact Harmed.
  - reflexivity.
  - reflexivity.
  - reflexivity.
  - reflexivity.
Qed.

Lemma watch_starts_witness :
  exists s1 s2,
    AddDirectory sample_directory 1000 55 (Some (units_of_string "C:\data")) true 256
      sample_state = Ok true s1 /\
    ThreadAddDirectoryProc 1000 s1 = Ok tt s2 /\
    calls s2 = [CreateThread 77; CreateFileW sample_directory 55; QueueUserAPC 77 1000;
                ReadDirectoryChangesExW 55 1000 0 256 true 83] /\
    DirectoryWatcher.outstanding_request_count (watcher s2) = 1.
Proof.
  destruct (watch_starts sample_state sample_directory 1000 55
              (Some (units_of_string "C:\data")) true 256)
    as (s1 & s2 & Hadd & Hjob & Hcalls & _ & _ & _ & Hcount & _).
  - exact sample_state_pre.
  - vm_compute. discriminate.
  - constructor.
  - exists s1, s2. split_and!.
    + exact Hadd.
    + exact Hjob.
    + rewrite Hcalls. reflexivity.
    + rewrite Hcount. reflexivity.
Defined.

(** * The watcher after its requests are gone *)

Section StaleList.

Lemma walk_stale (live : list Z) (p : Z) (rest : list Z) (s : State) :
  Forall (live_node (heap s)) live -> p <> 0 -> heap s !! p = None ->
  walk (live ++ p :: rest) s = Err DanglingPointer.
Proof.
  intros Hall Hp Hnone. induction Hall as [|q live [Hq [r Hr]] _ IH].
  - cbn [app walk]. unfold bind, deref, bind, get.
    destruct (Z.eqb_spec p 0); [contradiction|]. rewrite Hnone. reflexivity.
  - cbn [app walk]. unfold bind. rewrite (deref_ok s q r Hq Hr). exact IH.
Qed.
End StaleList.

(** X15.  [AddDirectory] walks the request list to its end before it appends.
    No function of the watcher removes a request from the list, so once a
    completion has freed a listed block, an [AddDirectory] that opens its
    directory follows a pointer into freed memory.  When the directory does
    not open, the list is not walked and the call returns. *)
Theorem AddDirectory_stale_list
        (s : State) (wide : list Z) (memory handle : Z) (directory : option (list Z))
        (is_recursive : bool) (change_buffer_size : Z) (live : list Z) (p : Z)
        (rest : list Z) :
  AddDirectory_pre s wide memory directory change_buffer_size ->
  DirectoryWatcher.requests (watcher s) = live ++ p :: rest ->
  Forall (live_node (heap s)) live ->
  p <> 0 -> p <> memory -> heap s !! p = None ->
  (handle <> INVALID_HANDLE_VALUE ->
   AddDirectory wide memory handle directory is_recursive change_buffer_size s
   = Err DanglingPointer) /\
  (handle = INVALID_HANDLE_VALUE ->
   exists s',
     AddDirectory wide memory handle directory is_recursive change_buffer_size s
     = Ok false s').
Proof.
  intros Hpre Hlist Hall Hp Hne Hnone. split.
  - intros Hopen. destruct (AddDirectory_checks _ _ _ _ _ Hpre) as [Ha1 Ha2].
    destruct Hpre as [Ht Hd Hsz Hb32 Hw Hp32 Hm Hfresh].
    unfold AddDirectory, bind, get. rewrite Ha1. simpl assert. unfold ret at 1.
    rewrite !s32_ok by (unfold INT32_MIN, INT32_MAX in *; lia).
    rewrite Ha2. simpl assert. unfold ret at 1.
    rewrite s32_ok by (unfold INT32_MIN, INT32_MAX in *; lia).
    unfold modify at 1. unfold syscall at 1, modify at 1.
    destruct (Z.eqb_spec handle INVALID_HANDLE_VALUE); [contradiction|].
    cbn [negb]. cbv beta iota.
    rewrite Hlist, walk_stale; [reflexivity| |exact Hp|].
    + simpl. eapply Forall_impl; [exact Hall|]. intros q [Hq [r Hr]]. split; [exact Hq|].
      destruct (decide (q = memory)) as [->|Hqm]; [congruence|].
      rewrite lookup_insert_ne by congruence. eauto.
    + simpl. rewrite lookup_insert_ne by congruence. exact Hnone.
  - intros ->. eexists. apply AddDirectory_failure. exact Hpre.
Qed.

Lemma drained_state_pre :
  AddDirectory_pre drained_state sample_directory 3000 (Some (units_of_string "C:\data")) 256.
Proof.
  split; try (vm_compute; congruence); try (unfold INT32_MAX; simpl; lia).
  eexists. reflexivity.
Defined.

Lemma AddDirectory_stale_list_witness :
  AddDirectory sample_directory 3000 57 (Some (units_of_string "C:\data")) true 256
    drained_state = Err DanglingPointer.
Proof.
  apply (proj1 (AddDirectory_stale_list drained_state sample_directory 3000 57
                  (Some (units_of_string "C:\data")) true 256 [] 1000 [2000]
                  drained_state_pre ltac:(vm_compute; reflexivity) ltac:(constructor)
                  ltac:(lia) ltac:(lia) ltac:(vm_compute; reflexivity))).
  vm_compute. discriminate.
Defined.
